(** * Mekofix backend: request lifecycle, settlement ledger, matcher

    A shallow embedding of the Express/Supabase controllers

      - [backend/src/controllers/serviceRequestController.ts]
      - [backend/src/controllers/mechanicController.ts]
      - the wallet controller ([withdrawFromWallet])

    The persisted tables are explicit state; every handler is a function
    from the store to a new store and an outcome.  A [throw] inside the
    handler's [try] block keeps the writes made before it, exactly as the
    awaited Supabase calls do.  Calls are served one after the other.

    Numbers.  JavaScript numbers and the DECIMAL columns are modelled by
    exact rationals ([Q], compared with [==]); binary rounding, the
    rounding of the DECIMAL columns and the infinities are outside the
    model, and NaN is the [None] of a parse.  So the string [Infinity],
    which [parseFloat] reads as a number that [isNaN] lets through, is
    refused here like a string without digits, and a number is printed in
    decimal notation, never with an exponent (JavaScript prints numbers
    from 1e21 and below 1e-6 with one).  The great-circle distance needs
    sine, cosine and arc tangent and is modelled over the real numbers
    ([R]).

    Strings.  A string is a sequence of bytes.  [toLowerCase] lowers the
    letters A to Z, which is what [String.prototype.toLowerCase] does to a
    string of ASCII characters; a statement that says which names do not
    match is made for such strings ([ascii_only]). *)

From Stdlib Require Import QArith Qround Qabs ZArith String Ascii List Lia Lra.
From Stdlib Require Import Reals Qreals Sorted.
From Stdlib Require Lqa.
From stdpp Require Import base option gmap strings list.

Set Warnings "-clear-no-such-hyp".

Local Open Scope Q_scope.
Local Open Scope string_scope.

(** ** JavaScript values of a JSON body or a query string *)

Module Js.

Inductive Value :=
| Undefined
| Null
| Bool (b : bool)
| Number (q : Q)
| String (s : string).

(** [!v] is [negb (truthy v)]: the falsy values are [undefined], [null],
    [false], the number zero and the empty string. *)
Definition truthy (v : Value) : bool :=
  match v with
  | Undefined | Null => false
  | Bool b => b
  | Number q => negb (Qeq_bool q 0)
  | String s => negb (String.eqb s "")
  end.

Definition is_white (c : ascii) : bool :=
  let n := nat_of_ascii c in
  (Nat.eqb n 32 || Nat.eqb n 9 || Nat.eqb n 10 || Nat.eqb n 11
   || Nat.eqb n 12 || Nat.eqb n 13)%bool.

Fixpoint skip_white (s : string) : string :=
  match s with
  | String.String c r => if is_white c then skip_white r else s
  | EmptyString => s
  end.

Definition digit_of (c : ascii) : option Z :=
  let n := nat_of_ascii c in
  if (Nat.leb 48 n && Nat.leb n 57)%bool then Some (Z.of_nat (n - 48)) else None.

Definition hex_digit_of (c : ascii) : option Z :=
  let n := nat_of_ascii c in
  if (Nat.leb 48 n && Nat.leb n 57)%bool then Some (Z.of_nat (n - 48))
  else if (Nat.leb 97 n && Nat.leb n 102)%bool then Some (Z.of_nat (n - 87))
  else if (Nat.leb 65 n && Nat.leb n 70)%bool then Some (Z.of_nat (n - 55))
  else None.

(** The longest prefix of digits in the given base: its value, its length
    and the rest of the string. *)
Fixpoint digits (digit : ascii -> option Z) (base : Z) (s : string) (acc : Z) (n : nat)
  : Z * nat * string :=
  match s with
  | String.String c r =>
      match digit c with
      | Some d => digits digit base r (base * acc + d)%Z (S n)
      | None => (acc, n, s)
      end
  | EmptyString => (acc, n, s)
  end.

Definition sign (s : string) : bool * string :=
  match s with
  | String.String "-" r => (true, r)
  | String.String "+" r => (false, r)
  | _ => (false, s)
  end.

Definition pow10 (e : Z) : Q :=
  if (0 <=? e)%Z then inject_Z (10 ^ e) else / inject_Z (10 ^ (- e)).

(** The exponent part [e[+-]digits] is consumed only when it has a digit. *)
Definition exponent (s : string) : Z :=
  match s with
  | String.String c r =>
      if (Ascii.eqb c "e" || Ascii.eqb c "E")%bool then
        let '(neg, r') := sign r in
        let '(v, n, _) := digits digit_of 10 r' 0%Z 0%nat in
        match n with
        | O => 0%Z
        | _ => if neg then (- v)%Z else v
        end
      else 0%Z
  | EmptyString => 0%Z
  end.

(** [parseFloat] on a string: leading white space, a sign, then the longest
    decimal literal; [None] is NaN.  The literal [Infinity] is not read:
    the model has no infinite number, and gives [None] for it. *)
Definition parseFloat_string (s : string) : option Q :=
  let '(neg, s1) := sign (skip_white s) in
  let '(ip, ni, s2) := digits digit_of 10 s1 0%Z 0%nat in
  let '(fp, nf, s3) :=
    match s2 with
    | String.String "." r => digits digit_of 10 r 0%Z 0%nat
    | _ => (0%Z, 0%nat, s2)
    end in
  match (ni + nf)%nat with
  | O => None
  | _ =>
      let mant := inject_Z ip + inject_Z fp * pow10 (- Z.of_nat nf) in
      let v := mant * pow10 (exponent s3) in
      Some (if neg then - v else v)
  end.

(** [parseInt] on a string (no radix argument): white space, a sign, an
    optional [0x] prefix, then the longest run of digits. *)
Definition parseInt_string (s : string) : option Z :=
  let '(neg, s1) := sign (skip_white s) in
  let '(v, n, _) :=
    match s1 with
    | String.String "0" (String.String x r) =>
        if (Ascii.eqb x "x" || Ascii.eqb x "X")%bool
        then digits hex_digit_of 16 r 0%Z 0%nat
        else digits digit_of 10 s1 0%Z 0%nat
    | _ => digits digit_of 10 s1 0%Z 0%nat
    end in
  match n with
  | O => None
  | _ => Some (if neg then (- v)%Z else v)
  end.

(** Truncation toward zero. *)
Definition Qtrunc (q : Q) : Z :=
  if Qle_bool 0 q then Qfloor q else Qceiling q.

(** A number argument is first printed and then parsed; for the numbers of
    the model that is the number itself, and its integer part for
    [parseInt] (numbers printed in exponent notation are not modelled). *)
Definition parseFloat (v : Value) : option Q :=
  match v with
  | Number q => Some q
  | String s => parseFloat_string s
  | _ => None
  end.

Definition parseInt (v : Value) : option Z :=
  match v with
  | Number q => Some (Qtrunc q)
  | String s => parseInt_string s
  | _ => None
  end.

(** [Math.round]: to the nearest integer, halves toward plus infinity. *)
Definition Math_round (q : Q) : Z := Qfloor (q + (1 # 2)).

(** [x || 0] on a nullable numeric column. *)
Definition or_zero (x : option Q) : Q :=
  match x with
  | Some q => q
  | None => 0
  end.

(** Truthiness of a nullable numeric column. *)
Definition truthy_num (x : option Q) : bool :=
  match x with
  | Some q => negb (Qeq_bool q 0)
  | None => false
  end.

(** [toLowerCase], on the letters A to Z; the other bytes are kept. *)
Definition toLowerCase_ascii (c : ascii) : ascii :=
  let n := nat_of_ascii c in
  if (Nat.leb 65 n && Nat.leb n 90)%bool then ascii_of_nat (n + 32) else c.

Fixpoint toLowerCase (s : string) : string :=
  match s with
  | String.String c r => String.String (toLowerCase_ascii c) (toLowerCase r)
  | EmptyString => EmptyString
  end.

End Js.

(** ** The persisted tables *)

Abbreviation Id := string (only parsing).
Abbreviation Timestamp := string (only parsing).

Inductive RequestStatus := pending | accepted | in_progress | completed | cancelled.

#[global] Instance RequestStatus_eq_dec : EqDecision RequestStatus.
Proof. solve_decision. Defined.

Inductive VerificationStatus := verification_pending | approved | rejected.

#[global] Instance VerificationStatus_eq_dec : EqDecision VerificationStatus.
Proof. solve_decision. Defined.

Inductive TransactionType := commission_deduction | withdrawal | top_up | credit.

#[global] Instance TransactionType_eq_dec : EqDecision TransactionType.
Proof. solve_decision. Defined.

Inductive WithdrawalStatus := withdrawal_pending | withdrawal_completed | withdrawal_failed.

(** A row of [service_requests]; the primary key [id] is the key of the
    table.  The pricing columns and the rating are nullable. *)
Record ServiceRequest := mkServiceRequest {
  customer_id : Id;
  mechanic_id : Id;
  vehicle_id : Id;
  category_id : Id;
  problem_description : string;
  customer_location_lat : Q;
  customer_location_lng : Q;
  customer_location_address : option string;
  status : RequestStatus;
  material_cost : option Q;
  labor_cost : option Q;
  total_cost : option Q;
  customer_rating : option Z;
  customer_review : option string;
  mechanic_confirmed : bool;
  customer_confirmed : bool;
  arrived_at : option Timestamp;
  completed_at : option Timestamp
}.

(** The object handed to [.update(...)]: the columns it names. *)
Record RequestUpdate := mkRequestUpdate {
  u_status : option RequestStatus;
  u_material_cost : option Q;
  u_labor_cost : option Q;
  u_total_cost : option Q;
  u_customer_rating : option Z;
  u_customer_review : option (option string);
  u_mechanic_confirmed : option bool;
  u_customer_confirmed : option bool;
  u_arrived_at : option Timestamp;
  u_completed_at : option Timestamp
}.

Definition no_update : RequestUpdate :=
  mkRequestUpdate None None None None None None None None None None.

Definition set_u_status (v : RequestStatus) (u : RequestUpdate) : RequestUpdate :=
  mkRequestUpdate (Some v) (u_material_cost u) (u_labor_cost u) (u_total_cost u)
    (u_customer_rating u) (u_customer_review u) (u_mechanic_confirmed u)
    (u_customer_confirmed u) (u_arrived_at u) (u_completed_at u).

Definition set_u_completed_at (v : Timestamp) (u : RequestUpdate) : RequestUpdate :=
  mkRequestUpdate (u_status u) (u_material_cost u) (u_labor_cost u) (u_total_cost u)
    (u_customer_rating u) (u_customer_review u) (u_mechanic_confirmed u)
    (u_customer_confirmed u) (u_arrived_at u) (Some v).

Definition set_u_arrived_at (v : Timestamp) (u : RequestUpdate) : RequestUpdate :=
  mkRequestUpdate (u_status u) (u_material_cost u) (u_labor_cost u) (u_total_cost u)
    (u_customer_rating u) (u_customer_review u) (u_mechanic_confirmed u)
    (u_customer_confirmed u) (Some v) (u_completed_at u).

(** A named column takes the new value, the others keep theirs. *)
Definition new_or {A} (v : option A) (old : A) : A :=
  match v with
  | Some a => a
  | None => old
  end.

Definition new_or_null {A} (v : option A) (old : option A) : option A :=
  match v with
  | Some a => Some a
  | None => old
  end.

Definition apply_update (u : RequestUpdate) (r : ServiceRequest) : ServiceRequest :=
  {| customer_id := customer_id r;
     mechanic_id := mechanic_id r;
     vehicle_id := vehicle_id r;
     category_id := category_id r;
     problem_description := problem_description r;
     customer_location_lat := customer_location_lat r;
     customer_location_lng := customer_location_lng r;
     customer_location_address := customer_location_address r;
     status := new_or (u_status u) (status r);
     material_cost := new_or_null (u_material_cost u) (material_cost r);
     labor_cost := new_or_null (u_labor_cost u) (labor_cost r);
     total_cost := new_or_null (u_total_cost u) (total_cost r);
     customer_rating := new_or_null (u_customer_rating u) (customer_rating r);
     customer_review := new_or (u_customer_review u) (customer_review r);
     mechanic_confirmed := new_or (u_mechanic_confirmed u) (mechanic_confirmed r);
     customer_confirmed := new_or (u_customer_confirmed u) (customer_confirmed r);
     arrived_at := new_or_null (u_arrived_at u) (arrived_at r);
     completed_at := new_or_null (u_completed_at u) (completed_at r) |}.

(** A row of [mechanic_profiles], keyed by [user_id]. *)
Record MechanicProfile := mkMechanicProfile {
  verification_status : VerificationStatus;
  is_available : bool;
  rating : option Q;
  total_jobs : option Z;
  wallet_balance : option Q
}.

Definition set_wallet_balance (b : Q) (p : MechanicProfile) : MechanicProfile :=
  mkMechanicProfile (verification_status p) (is_available p) (rating p)
    (total_jobs p) (Some b).

Definition set_rating (x : Q) (p : MechanicProfile) : MechanicProfile :=
  mkMechanicProfile (verification_status p) (is_available p) (Some x)
    (total_jobs p) (wallet_balance p).

Definition set_is_available (b : bool) (p : MechanicProfile) : MechanicProfile :=
  mkMechanicProfile (verification_status p) b (rating p)
    (total_jobs p) (wallet_balance p).

(** A row of [wallet_transactions]. *)
Record WalletTransaction := mkWalletTransaction {
  user_id : Id;
  amount : Q;
  transaction_type : TransactionType;
  description : string;
  reference_id : option Id;
  reference_type : option string;
  tx_status : option WithdrawalStatus;
  bank_details : option string
}.

Record Notification := mkNotification {
  n_user_id : Id;
  n_title : string;
  n_body : string;
  n_type : string;
  n_reference_id : Id
}.

Record Db := mkDb {
  service_requests : gmap string ServiceRequest;
  mechanic_profiles : gmap string MechanicProfile;
  customer_vehicles : gmap string string;
  wallet_transactions : list WalletTransaction;
  notifications : list Notification
}.

Definition set_service_requests (t : gmap string ServiceRequest) (db : Db) : Db :=
  mkDb t (mechanic_profiles db) (customer_vehicles db) (wallet_transactions db)
    (notifications db).

Definition set_mechanic_profiles (t : gmap string MechanicProfile) (db : Db) : Db :=
  mkDb (service_requests db) t (customer_vehicles db) (wallet_transactions db)
    (notifications db).

Definition set_wallet_transactions (t : list WalletTransaction) (db : Db) : Db :=
  mkDb (service_requests db) (mechanic_profiles db) (customer_vehicles db) t
    (notifications db).

Definition set_notifications (t : list Notification) (db : Db) : Db :=
  mkDb (service_requests db) (mechanic_profiles db) (customer_vehicles db)
    (wallet_transactions db) t.

(** ** Handlers: a store-passing monad with [throw] *)

Record CustomError := mkCustomError {
  message : string;
  statusCode : Z
}.

Inductive Outcome (A : Type) :=
| Sent (a : A)
| Thrown (e : CustomError).
Arguments Sent {A} a.
Arguments Thrown {A} e.

Definition Handler (A : Type) : Type := Db -> Db * Outcome A.

Definition ret {A} (a : A) : Handler A := fun db => (db, Sent a).

Definition throw {A} (msg : string) (code : Z) : Handler A :=
  fun db => (db, Thrown (mkCustomError msg code)).

Definition bind {A B} (c : Handler A) (k : A -> Handler B) : Handler B :=
  fun db =>
    match c db with
    | (db', Sent a) => k a db'
    | (db', Thrown e) => (db', Thrown e)
    end.

Notation "'await' x <-- c ;; k" := (bind c (fun x => k))
  (at level 10, x name, c at level 99, k at level 200).
Notation "'run' c ;; k" := (bind c (fun _ => k))
  (at level 10, c at level 99, k at level 200).

(** [if (cond) throw new CustomError(msg, code)] *)
Definition throw_if (cond : bool) (msg : string) (code : Z) : Handler unit :=
  if cond then throw msg code else ret tt.

(** [if (!x) throw ...] on a possibly absent value, then use it. *)
Definition require {A} (x : option A) (msg : string) (code : Z) : Handler A :=
  match x with
  | Some a => ret a
  | None => throw msg code
  end.

Definition when (cond : bool) (c : Handler unit) : Handler unit :=
  if cond then c else ret tt.

Definition read {A} (f : Db -> A) : Handler A := fun db => (db, Sent (f db)).

Definition write (f : Db -> Db) : Handler unit := fun db => (f db, Sent tt).

(** What the surroundings decide in one call: the clock, the key the
    database generates for an inserted request, and whether a write whose
    error the handler inspects fails.  Writes whose error is not inspected
    are taken to succeed. *)
Record Io := mkIo {
  now : Timestamp;
  generated_id : Id;
  updateError : bool;
  insertError : bool
}.

(** ** The Supabase queries the handlers make *)

(** [.single()]: a row when exactly one row matches, otherwise no data. *)
Definition single {A} (rows : list A) : option A :=
  match rows with
  | [x] => Some x
  | _ => None
  end.

(** [from('service_requests').select('*').eq('id', id).single()] *)
Definition select_request (id : Id) : Handler (option ServiceRequest) :=
  read (fun db => service_requests db !! id).

(** [from('service_requests').update(u).eq('id', id).select().single()];
    no data stands for a reported error. *)
Definition update_request (fails : bool) (id : Id) (u : RequestUpdate)
  : Handler (option ServiceRequest) :=
  if fails then ret None
  else
    run write (fun db =>
      set_service_requests (alter (apply_update u) id (service_requests db)) db) ;;
    read (fun db => service_requests db !! id).

(** [from('mechanic_profiles').select(...).eq('user_id', user).single()] *)
Definition select_profile (user : Id) : Handler (option MechanicProfile) :=
  read (fun db => mechanic_profiles db !! user).

(** [from('mechanic_profiles').update(...).eq('user_id', user)] *)
Definition update_profile (user : Id) (f : MechanicProfile -> MechanicProfile)
  : Handler unit :=
  write (fun db => set_mechanic_profiles (alter f user (mechanic_profiles db)) db).

Definition is_commission_for (id : Id) (t : WalletTransaction) : bool :=
  bool_decide (reference_id t = Some id)
  && bool_decide (reference_type t = Some "service_request")
  && bool_decide (transaction_type t = commission_deduction).

(** [from('wallet_transactions').select('id').eq('reference_id', id)
      .eq('reference_type', 'service_request')
      .eq('transaction_type', 'commission_deduction').single()] *)
Definition select_commission (id : Id) : Handler (option WalletTransaction) :=
  read (fun db => single (List.filter (is_commission_for id) (wallet_transactions db))).

(** [from('wallet_transactions').insert(t)] *)
Definition insert_transaction (t : WalletTransaction) : Handler unit :=
  write (fun db => set_wallet_transactions (wallet_transactions db ++ [t]) db).

(** [from('notifications').insert(n)] *)
Definition insert_notification (n : Notification) : Handler unit :=
  write (fun db => set_notifications (notifications db ++ [n]) db).

Definition rating_of (mechanic : Id) (row : string * ServiceRequest) : option Z :=
  if bool_decide (mechanic_id row.2 = mechanic) then customer_rating row.2 else None.

(** [from('service_requests').select('customer_rating')
      .eq('mechanic_id', mechanic).not('customer_rating', 'is', null)] *)
Definition select_ratings (mechanic : Id) : Handler (list Z) :=
  read (fun db => omap (rating_of mechanic) (map_to_list (service_requests db))).

(** ** serviceRequestController.ts *)

Definition truthy_str (x : option string) : bool :=
  match x with
  | Some s => negb (String.eqb s "")
  | None => false
  end.

(** [req.user?.id], then [if (!userId) throw new CustomError('Unauthorized', 401)] *)
Definition require_user (user : option Id) : Handler Id :=
  match user with
  | Some u => if String.eqb u "" then throw "Unauthorized" 401 else ret u
  | None => throw "Unauthorized" 401
  end.

Record Location := mkLocation {
  lat : Q;
  lng : Q;
  address : option string
}.

Record CreateBody := mkCreateBody {
  b_mechanic_id : option Id;
  b_vehicle_id : option Id;
  b_category_id : option Id;
  b_problem_description : option string;
  b_location : option Location
}.

Definition service_request_notification (user : Id) (title body : string) (ref : Id)
  : Notification :=
  mkNotification user title body "service_request" ref.

Definition createServiceRequest (io : Io) (user : option Id) (body : CreateBody)
  : Handler (Id * ServiceRequest) :=
  await customer <-- require_user user ;;
  match b_mechanic_id body, b_vehicle_id body, b_category_id body,
        b_problem_description body, b_location body with
  | Some mechanic, Some vehicle, Some category, Some problem, Some location =>
      run throw_if (String.eqb mechanic "" || String.eqb vehicle ""
                    || String.eqb category "" || String.eqb problem "")
            "Missing required fields" 400 ;;
      await found <-- select_profile mechanic ;;
      await mechanicProfile <-- require found "Mechanic not found" 404 ;;
      run throw_if (negb (bool_decide (verification_status mechanicProfile = approved)))
            "Mechanic is not verified" 400 ;;
      run throw_if (negb (is_available mechanicProfile))
            "Mechanic is not available" 400 ;;
      await owner <-- read (fun db => customer_vehicles db !! vehicle) ;;
      run throw_if (negb (bool_decide (owner = Some customer)))
            "Vehicle not found" 404 ;;
      let serviceRequest :=
        {| customer_id := customer;
           mechanic_id := mechanic;
           vehicle_id := vehicle;
           category_id := category;
           problem_description := problem;
           customer_location_lat := lat location;
           customer_location_lng := lng location;
           customer_location_address :=
             if truthy_str (address location) then address location else None;
           status := pending;
           material_cost := None;
           labor_cost := None;
           total_cost := None;
           customer_rating := None;
           customer_review := None;
           mechanic_confirmed := false;
           customer_confirmed := false;
           arrived_at := None;
           completed_at := None |} in
      await taken <-- read (fun db => service_requests db !! generated_id io) ;;
      run throw_if (insertError io || bool_decide (is_Some taken))
            "Failed to create service request" 500 ;;
      run write (fun db =>
            set_service_requests
              (<[generated_id io := serviceRequest]> (service_requests db)) db) ;;
      run insert_notification
            (service_request_notification mechanic "New Service Request"
               "You have a new service request from a customer" (generated_id io)) ;;
      ret (generated_id io, serviceRequest)
  | _, _, _, _, _ => throw "Missing required fields" 400
  end.

Definition cancelServiceRequest (io : Io) (user : option Id) (id : Id)
  : Handler ServiceRequest :=
  await userId <-- require_user user ;;
  await found <-- select_request id ;;
  await serviceRequest <-- require found "Service request not found" 404 ;;
  run throw_if (negb (bool_decide (customer_id serviceRequest = userId)))
        "Only the customer can cancel this request" 403 ;;
  run throw_if (negb (bool_decide (status serviceRequest = pending))
                && negb (bool_decide (status serviceRequest = accepted)))
        "Cannot cancel request in current status" 400 ;;
  await updated <-- update_request (updateError io) id (set_u_status cancelled no_update) ;;
  await updatedRequest <-- require updated "Failed to cancel service request" 500 ;;
  run insert_notification
        (service_request_notification (mechanic_id serviceRequest)
           "Service Request Cancelled"
           "A service request has been cancelled by the customer" id) ;;
  ret updatedRequest.

Record CompleteBody := mkCompleteBody {
  b_material_cost : Js.Value;
  b_labor_cost : Js.Value;
  b_rating : Js.Value;
  b_review : option string
}.

Definition commission_description (id : Id) : string :=
  "Commission deduction (15%) for service request " ++ id.

Definition commission_transaction (mechanic : Id) (commission : Q) (id : Id)
  : WalletTransaction :=
  {| user_id := mechanic;
     amount := - commission;
     transaction_type := commission_deduction;
     description := commission_description id;
     reference_id := Some id;
     reference_type := Some "service_request";
     tx_status := None;
     bank_details := None |}.

Definition sum_ratings (allRatings : list Z) : Z :=
  fold_left (fun sum r => (sum + r)%Z) allRatings 0%Z.

Definition completeServiceRequest (io : Io) (user : option Id) (id : Id)
    (body : CompleteBody) : Handler ServiceRequest :=
  await userId <-- require_user user ;;
  run throw_if (negb (Js.truthy (b_material_cost body))
                || negb (Js.truthy (b_labor_cost body))
                || negb (Js.truthy (b_rating body)))
        "Missing required fields" 400 ;;
  await materialCost <--
    require (Js.parseFloat (b_material_cost body)) "Invalid cost or rating values" 400 ;;
  await laborCost <--
    require (Js.parseFloat (b_labor_cost body)) "Invalid cost or rating values" 400 ;;
  await customerRating <--
    require (Js.parseInt (b_rating body)) "Invalid cost or rating values" 400 ;;
  run throw_if ((customerRating <? 1)%Z || (5 <? customerRating)%Z)
        "Rating must be between 1 and 5" 400 ;;
  await found <-- select_request id ;;
  await serviceRequest <-- require found "Service request not found" 404 ;;
  run throw_if (negb (bool_decide (customer_id serviceRequest = userId)))
        "Only the customer can complete this request" 403 ;;
  run throw_if (negb (bool_decide (status serviceRequest = in_progress)))
        "Service request is not in progress" 400 ;;
  let totalCost := materialCost + laborCost in
  let commission := laborCost * 0.15 in
  let mechanicEarnings := laborCost - commission in
  let updateData :=
    {| u_status := None;
       u_material_cost := Some materialCost;
       u_labor_cost := Some laborCost;
       u_total_cost := Some totalCost;
       u_customer_rating := Some customerRating;
       u_customer_review := Some (if truthy_str (b_review body) then b_review body else None);
       u_mechanic_confirmed := None;
       u_customer_confirmed := Some true;
       u_arrived_at := None;
       u_completed_at := None |} in
  let updateData :=
    if mechanic_confirmed serviceRequest
    then set_u_completed_at (now io) (set_u_status completed updateData)
    else updateData in
  await updated <-- update_request (updateError io) id updateData ;;
  await updatedRequest <-- require updated "Failed to complete service request" 500 ;;
  run when (bool_decide (u_status updateData = Some completed))
        (await existingTransaction <-- select_commission id ;;
         match existingTransaction with
         | Some _ => ret tt
         | None =>
             await mechanicProfile <-- select_profile (mechanic_id serviceRequest) ;;
             match mechanicProfile with
             | Some mechanicProfile =>
                 let currentBalance := Js.or_zero (wallet_balance mechanicProfile) in
                 let newBalance := currentBalance + mechanicEarnings in
                 run update_profile (mechanic_id serviceRequest)
                       (set_wallet_balance newBalance) ;;
                 insert_transaction
                   (commission_transaction (mechanic_id serviceRequest) commission id)
             | None => ret tt
             end
         end) ;;
  await allRatings <-- select_ratings (mechanic_id serviceRequest) ;;
  run when (0 <? length allRatings)%nat
        (let totalRating := sum_ratings allRatings in
         let averageRating :=
           inject_Z totalRating / inject_Z (Z.of_nat (length allRatings)) in
         update_profile (mechanic_id serviceRequest)
           (set_rating (inject_Z (Js.Math_round (averageRating * 10)) / 10))) ;;
  ret updatedRequest.

(** ** mechanicController.ts *)

Definition toggleAvailability (io : Io) (user : option Id) : Handler bool :=
  await userId <-- require_user user ;;
  await found <-- select_profile userId ;;
  await mechanicProfile <-- require found "Mechanic profile not found" 404 ;;
  let newAvailability := negb (is_available mechanicProfile) in
  run throw_if (updateError io) "Failed to update availability" 500 ;;
  run update_profile userId (set_is_available newAvailability) ;;
  ret newAvailability.

Definition acceptServiceRequest (io : Io) (user : option Id) (id : Id)
  : Handler ServiceRequest :=
  await userId <-- require_user user ;;
  await profile <-- select_profile userId ;;
  await mechanicProfile <-- require profile "Mechanic profile not found" 404 ;;
  run throw_if (negb (is_available mechanicProfile)) "Mechanic is not available" 400 ;;
  await found <-- select_request id ;;
  await serviceRequest <-- require found "Service request not found" 404 ;;
  run throw_if (negb (bool_decide (mechanic_id serviceRequest = userId)))
        "Service request not assigned to this mechanic" 403 ;;
  run throw_if (negb (bool_decide (status serviceRequest = pending)))
        "Service request is not pending" 400 ;;
  await updated <-- update_request (updateError io) id (set_u_status accepted no_update) ;;
  await updatedRequest <-- require updated "Failed to accept service request" 500 ;;
  run insert_notification
        (service_request_notification (customer_id serviceRequest)
           "Service Request Accepted"
           "A mechanic has accepted your service request" id) ;;
  ret updatedRequest.

Definition declineServiceRequest (io : Io) (user : option Id) (id : Id)
  : Handler ServiceRequest :=
  await userId <-- require_user user ;;
  await found <-- select_request id ;;
  await serviceRequest <-- require found "Service request not found" 404 ;;
  run throw_if (negb (bool_decide (mechanic_id serviceRequest = userId)))
        "Service request not assigned to this mechanic" 403 ;;
  run throw_if (negb (bool_decide (status serviceRequest = pending)))
        "Service request is not pending" 400 ;;
  await updated <-- update_request (updateError io) id (set_u_status cancelled no_update) ;;
  await updatedRequest <-- require updated "Failed to decline service request" 500 ;;
  ret updatedRequest.

Definition markArrived (io : Io) (user : option Id) (id : Id)
  : Handler ServiceRequest :=
  await userId <-- require_user user ;;
  await found <-- select_request id ;;
  await serviceRequest <-- require found "Service request not found" 404 ;;
  run throw_if (negb (bool_decide (mechanic_id serviceRequest = userId)))
        "Service request not assigned to this mechanic" 403 ;;
  run throw_if (negb (bool_decide (status serviceRequest = accepted)))
        "Service request must be accepted first" 400 ;;
  await updated <--
    update_request (updateError io) id
      (set_u_arrived_at (now io) (set_u_status in_progress no_update)) ;;
  await updatedRequest <-- require updated "Failed to mark as arrived" 500 ;;
  run insert_notification
        (service_request_notification (customer_id serviceRequest)
           "Mechanic Arrived" "The mechanic has arrived at your location" id) ;;
  ret updatedRequest.

Definition completeServiceRequestMechanic (io : Io) (user : option Id) (id : Id)
  : Handler ServiceRequest :=
  await userId <-- require_user user ;;
  await found <-- select_request id ;;
  await serviceRequest <-- require found "Service request not found" 404 ;;
  run throw_if (negb (bool_decide (mechanic_id serviceRequest = userId)))
        "Service request not assigned to this mechanic" 403 ;;
  run throw_if (negb (bool_decide (status serviceRequest = in_progress)))
        "Service request must be in progress" 400 ;;
  let updateData :=
    {| u_status := None;
       u_material_cost := None;
       u_labor_cost := None;
       u_total_cost := None;
       u_customer_rating := None;
       u_customer_review := None;
       u_mechanic_confirmed := Some true;
       u_customer_confirmed := None;
       u_arrived_at := None;
       u_completed_at := None |} in
  let updateData :=
    if customer_confirmed serviceRequest
    then set_u_completed_at (now io) (set_u_status completed updateData)
    else updateData in
  await updated <-- update_request (updateError io) id updateData ;;
  await updatedRequest <-- require updated "Failed to complete service request" 500 ;;
  run when (bool_decide (u_status updateData = Some completed)
            && Js.truthy_num (labor_cost serviceRequest))
        (await existingTransaction <-- select_commission id ;;
         run match existingTransaction with
             | Some _ => ret tt
             | None =>
                 (* parseFloat of the numeric column is the number itself *)
                 let laborCost := Js.or_zero (labor_cost serviceRequest) in
                 let commission := laborCost * 0.15 in
                 let mechanicEarnings := laborCost - commission in
                 await mechanicProfile <-- select_profile userId ;;
                 match mechanicProfile with
                 | Some mechanicProfile =>
                     let currentBalance := Js.or_zero (wallet_balance mechanicProfile) in
                     let newBalance := currentBalance + mechanicEarnings in
                     run update_profile userId (set_wallet_balance newBalance) ;;
                     insert_transaction (commission_transaction userId commission id)
                 | None => ret tt
                 end
             end ;;
         insert_notification
           (service_request_notification (customer_id serviceRequest)
              "Service Completed" "Your service request has been completed" id)) ;;
  ret updatedRequest.

(** ** The wallet controller *)

Record WithdrawBody := mkWithdrawBody {
  b_amount : Js.Value;
  b_bank_details : option string
}.

Record WithdrawResponse := mkWithdrawResponse {
  balance : Q;
  transaction : WalletTransaction
}.

Definition withdrawal_transaction (user : Id) (withdrawalAmount : Q)
    (details : option string) : WalletTransaction :=
  {| user_id := user;
     amount := - withdrawalAmount;
     transaction_type := withdrawal;
     description := "Withdrawal request";
     reference_id := None;
     reference_type := None;
     tx_status := Some withdrawal_pending;
     bank_details := if truthy_str details then details else None |}.

Definition Qlt_bool (a b : Q) : bool := negb (Qle_bool b a).

Definition withdrawFromWallet (io : Io) (user : option Id) (body : WithdrawBody)
  : Handler WithdrawResponse :=
  await userId <-- require_user user ;;
  run throw_if (negb (Js.truthy (b_amount body))) "Amount is required" 400 ;;
  await withdrawalAmount <-- require (Js.parseFloat (b_amount body)) "Invalid amount" 400 ;;
  run throw_if (Qle_bool withdrawalAmount 0) "Invalid amount" 400 ;;
  await found <-- select_profile userId ;;
  await mechanicProfile <-- require found "Mechanic profile not found" 404 ;;
  let currentBalance := Js.or_zero (wallet_balance mechanicProfile) in
  run throw_if (Qlt_bool currentBalance withdrawalAmount) "Insufficient balance" 400 ;;
  let newBalance := currentBalance - withdrawalAmount in
  run throw_if (updateError io) "Failed to update wallet balance" 500 ;;
  run update_profile userId (set_wallet_balance newBalance) ;;
  let transaction :=
    withdrawal_transaction userId withdrawalAmount (b_bank_details body) in
  if insertError io then
    run update_profile userId (set_wallet_balance currentBalance) ;;
    throw "Failed to create withdrawal transaction" 500
  else
    run insert_transaction transaction ;;
    ret {| balance := newBalance; transaction := transaction |}.

(** ** Calls and reachable stores *)

Inductive Call :=
| CreateServiceRequest (user : option Id) (body : CreateBody)
| CancelServiceRequest (user : option Id) (id : Id)
| CompleteServiceRequest (user : option Id) (id : Id) (body : CompleteBody)
| ToggleAvailability (user : option Id)
| AcceptServiceRequest (user : option Id) (id : Id)
| DeclineServiceRequest (user : option Id) (id : Id)
| MarkArrived (user : option Id) (id : Id)
| CompleteServiceRequestMechanic (user : option Id) (id : Id)
| WithdrawFromWallet (user : option Id) (body : WithdrawBody).

(** The error, if the call threw one. *)
Definition thrown {A} (o : Outcome A) : option CustomError :=
  match o with
  | Sent _ => None
  | Thrown e => Some e
  end.

Definition outcome_of {A} (r : Db * Outcome A) : Db * option CustomError :=
  (r.1, thrown r.2).

(** One call served to the end before the next one starts. *)
Definition handle (io : Io) (c : Call) (db : Db) : Db * option CustomError :=
  match c with
  | CreateServiceRequest user body => outcome_of (createServiceRequest io user body db)
  | CancelServiceRequest user id => outcome_of (cancelServiceRequest io user id db)
  | CompleteServiceRequest user id body =>
      outcome_of (completeServiceRequest io user id body db)
  | ToggleAvailability user => outcome_of (toggleAvailability io user db)
  | AcceptServiceRequest user id => outcome_of (acceptServiceRequest io user id db)
  | DeclineServiceRequest user id => outcome_of (declineServiceRequest io user id db)
  | MarkArrived user id => outcome_of (markArrived io user id db)
  | CompleteServiceRequestMechanic user id =>
      outcome_of (completeServiceRequestMechanic io user id db)
  | WithdrawFromWallet user body => outcome_of (withdrawFromWallet io user body db)
  end.

(** A store before any request or ledger row exists: the wallets hold the
    column default. *)
Definition initial (db : Db) : Prop :=
  service_requests db = ∅
  /\ wallet_transactions db = []
  /\ forall user p, mechanic_profiles db !! user = Some p ->
       wallet_balance p = Some 0 \/ wallet_balance p = None.

Inductive reachable : Db -> Prop :=
| reachable_initial db : initial db -> reachable db
| reachable_handle db io c : reachable db -> reachable (handle io c db).1.


(** A sequence of calls, each served to the end, with what the
    surroundings decided for it. *)
Definition serve (calls : list (Io * Call)) (db : Db) : Db :=
  fold_left (fun d c => (handle c.1 c.2 d).1) calls db.


(** ** The steps of a completion, named

    The two completion handlers inline the same settlement; the lemmas
    below show that a call that passes its guards is the composition of
    these store transformers. *)

Definition customer_update (t : Timestamp) (finalize : bool) (materialCost laborCost : Q)
    (customerRating : Z) (review : option string) : RequestUpdate :=
  {| u_status := if finalize then Some completed else None;
     u_material_cost := Some materialCost;
     u_labor_cost := Some laborCost;
     u_total_cost := Some (materialCost + laborCost);
     u_customer_rating := Some customerRating;
     u_customer_review := Some (if truthy_str review then review else None);
     u_mechanic_confirmed := None;
     u_customer_confirmed := Some true;
     u_arrived_at := None;
     u_completed_at := if finalize then Some t else None |}.

Definition mechanic_update (t : Timestamp) (finalize : bool) : RequestUpdate :=
  {| u_status := if finalize then Some completed else None;
     u_material_cost := None;
     u_labor_cost := None;
     u_total_cost := None;
     u_customer_rating := None;
     u_customer_review := None;
     u_mechanic_confirmed := Some true;
     u_customer_confirmed := None;
     u_arrived_at := None;
     u_completed_at := if finalize then Some t else None |}.

Definition update_row (id : Id) (u : RequestUpdate) (db : Db) : Db :=
  set_service_requests (alter (apply_update u) id (service_requests db)) db.

(** The settlement block: idempotency check, credit, commission row. *)
Definition settle (mechanic : Id) (laborCost : Q) (id : Id) (db : Db) : Db :=
  match single (List.filter (is_commission_for id) (wallet_transactions db)) with
  | Some _ => db
  | None =>
      match mechanic_profiles db !! mechanic with
      | Some mechanicProfile =>
          set_wallet_transactions
            (wallet_transactions db
               ++ [commission_transaction mechanic (laborCost * 0.15) id])
            (set_mechanic_profiles
               (alter
                  (set_wallet_balance
                     (Js.or_zero (wallet_balance mechanicProfile)
                      + (laborCost - laborCost * 0.15)))
                  mechanic (mechanic_profiles db))
               db)
      | None => db
      end
  end.

Definition ratings_of (mechanic : Id) (requests : gmap string ServiceRequest) : list Z :=
  omap (rating_of mechanic) (map_to_list requests).

(** [Math.round(averageRating * 10) / 10] of the listed ratings. *)
Definition rounded_average (allRatings : list Z) : Q :=
  inject_Z
    (Js.Math_round
       (inject_Z (sum_ratings allRatings) / inject_Z (Z.of_nat (length allRatings)) * 10))
  / 10.

(** The rating block at the end of the customer's completion. *)
Definition rate (mechanic : Id) (db : Db) : Db :=
  let allRatings := ratings_of mechanic (service_requests db) in
  if (0 <? length allRatings)%nat
  then set_mechanic_profiles
         (alter (set_rating (rounded_average allRatings)) mechanic (mechanic_profiles db))
         db
  else db.

Definition notify (n : Notification) (db : Db) : Db :=
  set_notifications (notifications db ++ [n]) db.

(** A body the customer's completion accepts, with what it parses to. *)
Definition valid_completion (body : CompleteBody) (materialCost laborCost : Q)
    (customerRating : Z) : Prop :=
  Js.truthy (b_material_cost body) = true
  /\ Js.truthy (b_labor_cost body) = true
  /\ Js.truthy (b_rating body) = true
  /\ Js.parseFloat (b_material_cost body) = Some materialCost
  /\ Js.parseFloat (b_labor_cost body) = Some laborCost
  /\ Js.parseInt (b_rating body) = Some customerRating
  /\ (1 <= customerRating <= 5)%Z.

(** ** What one call can do to the store

    The relation below abstracts the handlers: every call, whatever its
    outcome, changes the tables in one of these ways
    ([handle_transition]).  The invariants are proved on it. *)

(** The updates the handlers send, each with the status guard it passed. *)
Inductive legal_update : ServiceRequest -> RequestUpdate -> Prop :=
| update_accept r :
    status r = pending -> legal_update r (set_u_status accepted no_update)
| update_cancel r :
    status r = pending \/ status r = accepted ->
    legal_update r (set_u_status cancelled no_update)
| update_arrive r t :
    status r = accepted ->
    legal_update r (set_u_arrived_at t (set_u_status in_progress no_update))
| update_customer r t M L k review :
    status r = in_progress -> (1 <= k <= 5)%Z ->
    legal_update r (customer_update t (mechanic_confirmed r) M L k review)
| update_mechanic r t :
    status r = in_progress ->
    legal_update r (mechanic_update t (customer_confirmed r)).

(** A row as [createServiceRequest] inserts it. *)
Definition fresh_row (r : ServiceRequest) : Prop :=
  status r = pending
  /\ mechanic_confirmed r = false /\ customer_confirmed r = false
  /\ material_cost r = None /\ labor_cost r = None /\ total_cost r = None
  /\ customer_rating r = None.

Inductive request_effect (db db' : Db) : Prop :=
| requests_same :
    service_requests db' = service_requests db -> request_effect db db'
| requests_insert id row :
    service_requests db !! id = None ->
    fresh_row row ->
    is_Some (mechanic_profiles db !! mechanic_id row) ->
    service_requests db' = <[id := row]> (service_requests db) ->
    request_effect db db'
| requests_update id r u :
    service_requests db !! id = Some r ->
    legal_update r u ->
    service_requests db' = <[id := apply_update u r]> (service_requests db) ->
    request_effect db db'.

Inductive wallet_effect (db db' : Db) : Prop :=
| wallet_quiet user g :
    wallet_transactions db' = wallet_transactions db ->
    mechanic_profiles db' = alter g user (mechanic_profiles db) ->
    (forall p, mechanic_profiles db !! user = Some p ->
               Js.or_zero (wallet_balance (g p)) = Js.or_zero (wallet_balance p)) ->
    wallet_effect db db'
| wallet_withdrawal user g w details :
    wallet_transactions db'
    = (wallet_transactions db ++ [withdrawal_transaction user w details])%list ->
    mechanic_profiles db' = alter g user (mechanic_profiles db) ->
    (forall p, mechanic_profiles db !! user = Some p ->
               wallet_balance (g p) = Some (Js.or_zero (wallet_balance p) - w)) ->
    wallet_effect db db'
| wallet_settlement user g id r r' L :
    wallet_transactions db'
    = (wallet_transactions db ++ [commission_transaction user (L * 0.15) id])%list ->
    mechanic_profiles db' = alter g user (mechanic_profiles db) ->
    (forall p, mechanic_profiles db !! user = Some p ->
               wallet_balance (g p)
               = Some (Js.or_zero (wallet_balance p) + (L - L * 0.15))) ->
    single (List.filter (is_commission_for id) (wallet_transactions db)) = None ->
    service_requests db !! id = Some r ->
    status r = in_progress ->
    mechanic_id r = user ->
    service_requests db' !! id = Some r' ->
    status r' = completed ->
    labor_cost r' = Some L ->
    wallet_effect db db'.

Definition transition (db db' : Db) : Prop :=
  request_effect db db'
  /\ wallet_effect db db'
  /\ customer_vehicles db' = customer_vehicles db.

(** ** The status guards, tabulated *)

(** The request a call is about. *)
Definition target (c : Call) : option Id :=
  match c with
  | CancelServiceRequest _ id | CompleteServiceRequest _ id _
  | AcceptServiceRequest _ id | DeclineServiceRequest _ id
  | MarkArrived _ id | CompleteServiceRequestMechanic _ id => Some id
  | CreateServiceRequest _ _ | ToggleAvailability _ | WithdrawFromWallet _ _ => None
  end.

(** The statuses in which the call is let through. *)
Definition required_status (c : Call) : list RequestStatus :=
  match c with
  | AcceptServiceRequest _ _ | DeclineServiceRequest _ _ => [pending]
  | MarkArrived _ _ => [accepted]
  | CompleteServiceRequest _ _ _ | CompleteServiceRequestMechanic _ _ => [in_progress]
  | CancelServiceRequest _ _ => [pending; accepted]
  | CreateServiceRequest _ _ | ToggleAvailability _ | WithdrawFromWallet _ _ => []
  end.

(** The error of the status guard. *)
Definition status_error (c : Call) : CustomError :=
  match c with
  | AcceptServiceRequest _ _ | DeclineServiceRequest _ _ =>
      mkCustomError "Service request is not pending" 400
  | MarkArrived _ _ => mkCustomError "Service request must be accepted first" 400
  | CompleteServiceRequest _ _ _ => mkCustomError "Service request is not in progress" 400
  | CompleteServiceRequestMechanic _ _ =>
      mkCustomError "Service request must be in progress" 400
  | CancelServiceRequest _ _ =>
      mkCustomError "Cannot cancel request in current status" 400
  | CreateServiceRequest _ _ | ToggleAvailability _ | WithdrawFromWallet _ _ =>
      mkCustomError "" 0
  end.

(** The call passes the checks that come before the status guard: the
    caller is the party of the row (an available provider for an accept, a
    valid body for the customer's completion). *)
Definition passes_earlier_checks (c : Call) (r : ServiceRequest) (db : Db) : Prop :=
  match c with
  | CancelServiceRequest user _ => user = Some (customer_id r) /\ customer_id r <> ""
  | CompleteServiceRequest user _ body =>
      user = Some (customer_id r) /\ customer_id r <> ""
      /\ exists M L k, valid_completion body M L k
  | AcceptServiceRequest user _ =>
      user = Some (mechanic_id r) /\ mechanic_id r <> ""
      /\ exists p, mechanic_profiles db !! mechanic_id r = Some p
                   /\ is_available p = true
  | DeclineServiceRequest user _ | MarkArrived user _
  | CompleteServiceRequestMechanic user _ =>
      user = Some (mechanic_id r) /\ mechanic_id r <> ""
  | CreateServiceRequest _ _ | ToggleAvailability _ | WithdrawFromWallet _ _ => False
  end.

(** ** The ledger, summed *)

Fixpoint total (f : WalletTransaction -> Q) (rows : list WalletTransaction) : Q :=
  match rows with
  | [] => 0
  | t :: rows' => f t + total f rows'
  end.

(** The provider's rows of [wallet_transactions]. *)
Definition rows_of (user : Id) (rows : list WalletTransaction) : list WalletTransaction :=
  List.filter (fun t => bool_decide (user_id t = user)) rows.

(** The sum of [amount] over the provider's rows. *)
Definition ledger_sum (user : Id) (rows : list WalletTransaction) : Q :=
  total amount (rows_of user rows).

(** The labor cost a commission row was computed from: its amount is
    [- (labor_cost * 0.15)]. *)
Definition commissioned_labor (t : WalletTransaction) : Q :=
  match transaction_type t with
  | commission_deduction => - amount t / 0.15
  | withdrawal | top_up | credit => 0
  end.

(** The labor cost of the provider's settled requests. *)
Definition settled_labor (user : Id) (rows : list WalletTransaction) : Q :=
  total commissioned_labor (rows_of user rows).

(** The number of commission rows that reference a request. *)
Definition commissions_for (id : Id) (db : Db) : nat :=
  length (List.filter (is_commission_for id) (wallet_transactions db)).

(** ** Invariants of the reachable stores *)

(** A row the customer has confirmed carries its prices and its rating. *)
Definition priced (r : ServiceRequest) : Prop :=
  customer_confirmed r = true ->
  exists M L k,
    material_cost r = Some M /\ labor_cost r = Some L
    /\ total_cost r = Some (M + L)
    /\ customer_rating r = Some k /\ (1 <= k <= 5)%Z.


Definition completed_rows_confirmed (db : Db) : Prop :=
  forall id r, service_requests db !! id = Some r -> status r = completed ->
    mechanic_confirmed r = true /\ customer_confirmed r = true.

(** A commission row references a completed request of its provider and
    carries minus 15% of that request's labor cost. *)
Definition commissions_on_completed (db : Db) : Prop :=
  forall t id, In t (wallet_transactions db) -> is_commission_for id t = true ->
    exists r L,
      service_requests db !! id = Some r /\ status r = completed
      /\ user_id t = mechanic_id r
      /\ labor_cost r = Some L /\ amount t = - (L * 0.15).

Definition mechanics_have_profiles (db : Db) : Prop :=
  forall id r, service_requests db !! id = Some r ->
    is_Some (mechanic_profiles db !! mechanic_id r).

Definition balance_accounted (db : Db) : Prop :=
  forall user p, mechanic_profiles db !! user = Some p ->
    Js.or_zero (wallet_balance p)
    == ledger_sum user (wallet_transactions db)
       + settled_labor user (wallet_transactions db).

(** ** The rating as the specification words it

    "the arithmetic mean of customer_rating across all of that provider's
    completed requests with a non-null rating, rounded to one decimal
    place". *)

Definition completed_rating_of (mechanic : Id) (row : string * ServiceRequest)
  : option Z :=
  if bool_decide (mechanic_id row.2 = mechanic)
     && bool_decide (status row.2 = completed)
  then customer_rating row.2
  else None.

Definition completed_mean_rating (mechanic : Id)
    (requests : gmap string ServiceRequest) : Q :=
  rounded_average (omap (completed_rating_of mechanic) (map_to_list requests)).

(** What the stored rating is in the reachable stores: the rounded mean
    of the ratings of all the provider's rated requests. *)
Definition rating_current (db : Db) : Prop :=
  forall m p, mechanic_profiles db !! m = Some p ->
    ratings_of m (service_requests db) <> [] ->
    rating p = Some (rounded_average (ratings_of m (service_requests db))).

(** One call either recomputes a provider's rating from the new table or
    leaves both the rating and the provider's rated requests alone. *)
Definition rating_effect (db db' : Db) : Prop :=
  forall m p', mechanic_profiles db' !! m = Some p' ->
    (rating p' = Some (rounded_average (ratings_of m (service_requests db')))
     /\ ratings_of m (service_requests db') <> [])
    \/ (exists p, mechanic_profiles db !! m = Some p /\ rating p' = rating p
                   /\ ratings_of m (service_requests db')
                        ≡ₚ ratings_of m (service_requests db)).

Definition at_most_one_commission (db : Db) : Prop :=
  forall id, (commissions_for id db <= 1)%nat.

(** ** Concrete stores and calls used in the examples below *)

Module Scenario.

Definition io (id : Id) : Io := mkIo "2024-05-01T10:00:00.000Z" id false false.

Definition profile (b : Q) : MechanicProfile :=
  mkMechanicProfile approved true (Some 0) (Some 0%Z) (Some b).

(** One approved, available provider with an empty wallet; one customer
    with one vehicle; no request and no ledger row. *)
Definition start : Db :=
  mkDb ∅ {[ "mechanic-1" := profile 0 ]} {[ "vehicle-1" := "customer-1" ]} [] [].

Definition body : CreateBody :=
  mkCreateBody (Some "mechanic-1") (Some "vehicle-1") (Some "category-1")
    (Some "engine does not start") (Some (mkLocation 6.5244 3.3792 None)).

Definition customer : option Id := Some "customer-1".
Definition mechanic : option Id := Some "mechanic-1".

(** Create, accept and arrive: the request [id] is in progress. *)
Definition to_in_progress (id : Id) : list (Io * Call) :=
  [ (io id, CreateServiceRequest customer body);
    (io id, AcceptServiceRequest mechanic id);
    (io id, MarkArrived mechanic id) ].

Definition priced (material labor : Js.Value) (stars : Z) : CompleteBody :=
  mkCompleteBody material labor (Js.Number (inject_Z stars)) None.

Definition clock : Timestamp := "2024-05-01T10:00:00.000Z".

(** The row [createServiceRequest] inserts for [body]. *)
Definition new_row : ServiceRequest :=
  {| customer_id := "customer-1";
     mechanic_id := "mechanic-1";
     vehicle_id := "vehicle-1";
     category_id := "category-1";
     problem_description := "engine does not start";
     customer_location_lat := 6.5244;
     customer_location_lng := 3.3792;
     customer_location_address := None;
     status := pending;
     material_cost := None;
     labor_cost := None;
     total_cost := None;
     customer_rating := None;
     customer_review := None;
     mechanic_confirmed := false;
     customer_confirmed := false;
     arrived_at := None;
     completed_at := None |}.

(** The row of a request in progress that neither party has confirmed. *)
Definition in_progress_row : ServiceRequest :=
  apply_update (set_u_arrived_at clock (set_u_status in_progress no_update)) new_row.

(** Request [request-1] in progress, neither party has confirmed. *)
Definition in_progress_db : Db := serve (to_in_progress "request-1") start.

(** The provider has confirmed [request-1], the customer has not. *)
Definition mechanic_confirmed_db : Db :=
  serve [(io "request-1", CompleteServiceRequestMechanic mechanic "request-1")]
    in_progress_db.

(** The customer has confirmed [request-1] at 50.00 of material and 100.00
    of labor with five stars, the provider has not. *)
Definition customer_confirmed_db : Db :=
  serve [(io "request-1",
          CompleteServiceRequest customer "request-1"
            (priced (Js.Number 50) (Js.Number 100) 5))]
    in_progress_db.

Definition customer_confirmed_row : ServiceRequest :=
  apply_update (customer_update clock false 50 100 5 None) in_progress_row.

(** Both have confirmed [request-1], the provider first. *)
Definition settled_db : Db :=
  serve [(io "request-1",
          CompleteServiceRequest customer "request-1"
            (priced (Js.Number 50) (Js.Number 100) 5))]
    mechanic_confirmed_db.

(** The customer has confirmed [request-1] with 50.00 of material and the
    labor cost sent as the string ["0"]; the provider has not confirmed. *)
Definition zero_labor_db : Db :=
  serve [(io "request-1",
          CompleteServiceRequest customer "request-1"
            (priced (Js.Number 50) (Js.String "0") 5))]
    in_progress_db.

(** Stores that hold the commission row of [request-1] although the
    request is still in progress, as a completion finds them when another
    completion of the same request has settled in between (the handler
    reads the row before the other one writes it, and the ledger after):
    the provider has confirmed, or the customer has. *)
Definition recorded_db : Db :=
  set_wallet_transactions
    [commission_transaction "mechanic-1" (100 * 0.15) "request-1"]
    mechanic_confirmed_db.

Definition recorded_customer_db : Db :=
  set_wallet_transactions
    [commission_transaction "mechanic-1" (100 * 0.15) "request-1"]
    customer_confirmed_db.

(** Two requests of the same provider: [request-1] is in progress and the
    customer has confirmed it with one star; [request-2] is completed, with
    five stars. *)
Definition two_requests_db : Db :=
  serve
    (to_in_progress "request-1"
     ++ [(io "request-1",
          CompleteServiceRequest customer "request-1"
            (priced (Js.Number 50) (Js.Number 100) 1))]
     ++ to_in_progress "request-2"
     ++ [(io "request-2", CompleteServiceRequestMechanic mechanic "request-2");
         (io "request-2",
          CompleteServiceRequest customer "request-2"
            (priced (Js.Number 50) (Js.Number 100) 5))])
    start.

(** The row of [request-2] and the provider's profile in that store. *)
Definition completed_row : ServiceRequest :=
  apply_update (customer_update clock true 50 100 5 None)
    (apply_update (mechanic_update clock false) in_progress_row).

Definition two_requests_profile : MechanicProfile :=
  set_rating (rounded_average [1; 5]%Z)
    (set_wallet_balance (0 + (100 - 100 * 0.15))
       (set_rating (rounded_average [1]%Z) (profile 0))).

(** [request-1] created and then cancelled by the customer. *)
Definition cancelled_db : Db :=
  serve [ (io "request-1", CreateServiceRequest customer body);
          (io "request-1", CancelServiceRequest customer "request-1") ] start.

Definition cancelled_row : ServiceRequest :=
  apply_update (set_u_status cancelled no_update) new_row.

(** A provider holding 150.00 and asking for 200.00. *)
Definition wallet_150 : Db :=
  mkDb ∅ {[ "mechanic-1" := profile 150 ]} ∅ [] [].

Definition ask (amount : Q) : WithdrawBody :=
  mkWithdrawBody (Js.Number amount) None.

End Scenario.

(** ** The geospatial matcher ([getNearbyMechanics])

    Coordinates and distances are real numbers; the coordinates of the
    query are the rationals its strings parse to. *)

Module Matcher.

Local Open Scope R_scope.

(** [Math.atan2 y x]. *)
Definition atan2 (y x : R) : R :=
  if Rlt_dec 0 x then atan (y / x)
  else if Rlt_dec x 0 then
    if Rle_dec 0 y then atan (y / x) + PI else atan (y / x) - PI
  else if Rlt_dec 0 y then PI / 2
  else if Rlt_dec y 0 then - (PI / 2)
  else 0.

(** Distance between two coordinates (haversine formula), in km. *)
Definition calculateDistance (lat1 lon1 lat2 lon2 : R) : R :=
  let R_earth := 6371 in
  let dLat := (lat2 - lat1) * PI / 180 in
  let dLon := (lon2 - lon1) * PI / 180 in
  let a :=
    sin (dLat / 2) * sin (dLat / 2)
    + cos (lat1 * PI / 180) * cos (lat2 * PI / 180)
      * sin (dLon / 2) * sin (dLon / 2) in
  let c := 2 * atan2 (sqrt a) (sqrt (1 - a)) in
  R_earth * c.

(** [Math.round(x * 10) / 10]. *)
Definition round1 (x : R) : R := IZR (Int_part (x * 10 + / 2)) / 10.

(** The joined [users] columns of a selected row. *)
Record User := mkUser {
  full_name : string;
  profile_picture_url : option string;
  location_lat : option R;
  location_lng : option R
}.

(** A row of [mechanic_profiles] with its user. *)
Record Mechanic := mkMechanic {
  id : Id;
  user_id : Id;
  rating : option Q;
  total_jobs : option Z;
  is_available : bool;
  verification_status : VerificationStatus;
  profile_photo_url : option string;
  users : User
}.

(** A row of [mechanic_specializations]. *)
Record Specialization := mkSpecialization {
  mechanic_id : Id;
  specialization : string
}.

(** An element of the answer. *)
Record Nearby := mkNearby {
  nearby_id : Id;
  name : string;
  profile_photo : option string;
  nearby_rating : Q;
  nearby_total_jobs : Z;
  specializations : list string;
  distance : R;
  nearby_is_available : bool;
  latitude : R;
  longitude : R
}.

(** [req.query]; [radius] is [Undefined] when the parameter is absent. *)
Record Query := mkQuery {
  q_lat : Js.Value;
  q_lng : Js.Value;
  q_radius : Js.Value;
  q_specialization : option string
}.

(** Truthiness of a nullable numeric column read as a real. *)
Definition truthy_coordinate (x : option R) : bool :=
  match x with
  | Some v => if Req_dec_T v 0 then false else true
  | None => false
  end.

Definition coordinate (x : option R) : R :=
  match x with
  | Some v => v
  | None => 0
  end.

(** [specMap.get(id) || []], the map being filled in the order of the rows. *)
Definition specs_of (specMap : list Specialization) (mechanic : Id) : list string :=
  map specialization
    (List.filter (fun s => bool_decide (mechanic_id s = mechanic)) specMap).

(** [a || b || null] on two nullable strings. *)
Definition first_truthy (a b : option string) : option string :=
  if truthy_str a then a else if truthy_str b then b else None.

(** The body of the [.map(...)] callback: [None] is [null]. *)
Definition nearby_of (latitude longitude radiusKm : R) (search : option string)
    (specMap : list Specialization) (mechanic : Mechanic) : option Nearby :=
  let user := users mechanic in
  if negb (truthy_coordinate (location_lat user))
     || negb (truthy_coordinate (location_lng user))
  then None
  else
    let distance :=
      calculateDistance latitude longitude
        (coordinate (location_lat user)) (coordinate (location_lng user)) in
    let mechanicSpecs := specs_of specMap (id mechanic) in
    if truthy_str search
       && negb (existsb
                  (fun s => String.eqb (Js.toLowerCase s)
                              (Js.toLowerCase (default "" search)))
                  mechanicSpecs)
    then None
    else if Rlt_dec radiusKm distance then None
    else
      Some {| nearby_id := id mechanic;
              name := full_name user;
              profile_photo :=
                first_truthy (profile_photo_url mechanic) (profile_picture_url user);
              nearby_rating := Js.or_zero (rating mechanic);
              nearby_total_jobs := default 0%Z (total_jobs mechanic);
              specializations := mechanicSpecs;
              distance := round1 distance;
              nearby_is_available := is_available mechanic;
              latitude := coordinate (location_lat user);
              longitude := coordinate (location_lng user) |}.

(** [.sort((a, b) => (a?.distance || 0) - (b?.distance || 0))]: a stable
    sort, ascending in the (rounded) distance. *)
Fixpoint insert_by_distance (x : Nearby) (l : list Nearby) : list Nearby :=
  match l with
  | [] => [x]
  | y :: l' =>
      if Rle_dec (distance x) (distance y) then x :: y :: l'
      else y :: insert_by_distance x l'
  end.

Definition sort_by_distance (l : list Nearby) : list Nearby :=
  fold_right insert_by_distance [] l.

(** [parseFloat(radius) || 10], the parameter defaulting to 10. *)
Definition radius_of (radius : Js.Value) : Q :=
  let radius := match radius with Js.Undefined => Js.Number 10 | v => v end in
  match Js.parseFloat radius with
  | Some q => if Qeq_bool q 0 then 10%Q else q
  | None => 10%Q
  end.

(** The handler: it reads the two tables and answers; no table is written.
    [specializations] is [None] when that query reports an error, which the
    handler only logs. *)
Definition getNearbyMechanics (query : Query) (mechanic_profiles : list Mechanic)
    (specializations : option (list Specialization)) : Outcome (list Nearby) :=
  if negb (Js.truthy (q_lat query)) || negb (Js.truthy (q_lng query))
  then Thrown (mkCustomError "Latitude and longitude are required" 400)
  else
    match Js.parseFloat (q_lat query), Js.parseFloat (q_lng query) with
    | Some latitude, Some longitude =>
        let radiusKm := radius_of (q_radius query) in
        let mechanics :=
          List.filter
            (fun m => bool_decide (verification_status m = approved)
                      && Bool.eqb (is_available m) true)
            mechanic_profiles in
        match mechanics with
        | [] => Sent []
        | _ =>
            let specMap := default [] specializations in
            Sent (sort_by_distance
                    (omap (nearby_of (Q2R latitude) (Q2R longitude) (Q2R radiusKm)
                             (q_specialization query) specMap)
                       mechanics))
        end
    | _, _ => Thrown (mkCustomError "Invalid coordinates or radius" 400)
    end.

(** A provider on the prime meridian (Tema, 5.6 N, 0.0 E), approved and
    available, and a customer standing at the same place. *)
Definition tema : Mechanic :=
  {| id := "profile-1";
     user_id := "mechanic-1";
     rating := Some 4.5%Q;
     total_jobs := Some 12%Z;
     is_available := true;
     verification_status := approved;
     profile_photo_url := None;
     users := {| full_name := "Kofi";
                 profile_picture_url := None;
                 location_lat := Some (Q2R 5.6);
                 location_lng := Some 0 |} |}.

Definition from_tema : Query :=
  mkQuery (Js.String "5.6") (Js.String "0") Js.Undefined None.

End Matcher.

(** * The handlers that only read, and the tables of the calls *)

(** ** serviceRequestController.ts: the two queries *)

(** [getServiceRequest]: the row of [service_requests]; the joined user,
    vehicle and category columns of the answer are not part of the model. *)
Definition getServiceRequest (user : option Id) (id : Id) : Handler ServiceRequest :=
  await userId <-- require_user user ;;
  await found <-- select_request id ;;
  await serviceRequest <-- require found "Service request not found" 404 ;;
  run throw_if (negb (bool_decide (customer_id serviceRequest = userId))
                && negb (bool_decide (mechanic_id serviceRequest = userId)))
        "Unauthorized" 403 ;;
  ret serviceRequest.

(** ** The calls, tabulated *)

(** [req.user?.id] of a call. *)
Definition caller (c : Call) : option Id :=
  match c with
  | CreateServiceRequest user _ | CancelServiceRequest user _
  | CompleteServiceRequest user _ _ | ToggleAvailability user
  | AcceptServiceRequest user _ | DeclineServiceRequest user _
  | MarkArrived user _ | CompleteServiceRequestMechanic user _
  | WithdrawFromWallet user _ => user
  end.

(** The column of the row the caller is compared with: the customer for
    the two handlers of serviceRequestController.ts, the provider for the
    four of mechanicController.ts. *)
Definition party (c : Call) (r : ServiceRequest) : Id :=
  match c with
  | CancelServiceRequest _ _ | CompleteServiceRequest _ _ _ => customer_id r
  | _ => mechanic_id r
  end.

(** The pairs (status read, status written) of the [update] calls. *)
Definition lifecycle_edge (s s' : RequestStatus) : bool :=
  match s, s' with
  | pending, accepted | pending, cancelled
  | accepted, in_progress | accepted, cancelled
  | in_progress, completed => true
  | _, _ => false
  end.

(** ** Further invariants of the reachable stores *)

(** [arrived_at] is stamped by [markArrived] and [completed_at] by the
    completion that finalizes. *)
Definition timestamps_match_status (r : ServiceRequest) : Prop :=
  (is_Some (arrived_at r) <-> status r = in_progress \/ status r = completed)
  /\ (is_Some (completed_at r) <-> status r = completed).

(** The columns of a profile no handler writes. *)
Definition same_standing (p p' : MechanicProfile) : Prop :=
  verification_status p' = verification_status p /\ total_jobs p' = total_jobs p.

(** The two kinds of ledger rows the handlers insert. *)
Definition pending_withdrawal (t : WalletTransaction) : Prop :=
  transaction_type t = withdrawal
  /\ amount t < 0
  /\ tx_status t = Some withdrawal_pending
  /\ reference_id t = None.

Definition commission_row (t : WalletTransaction) : Prop :=
  transaction_type t = commission_deduction
  /\ is_Some (reference_id t)
  /\ reference_type t = Some "service_request"
  /\ tx_status t = None.

(** A notification references a stored request and is addressed to one of
    its two parties. *)
Definition addressed_to_a_party (db : Db) (n : Notification) : Prop :=
  exists r,
    service_requests db !! n_reference_id n = Some r
    /\ (n_user_id n = customer_id r \/ n_user_id n = mechanic_id r).

(** ** serviceRequestController.ts: the customer's history *)

(** [getCustomerServiceRequests]: the rows whose customer is the caller,
    each with its key.  The handler orders them by [created_at], a column
    the model of the table does not carry: the list stands for the rows in
    some order, and the joined columns are left out as above.  [fails] is
    the error the query may report. *)
Definition getCustomerServiceRequests (fails : bool) (user : option Id)
  : Handler (list (Id * ServiceRequest)) :=
  await userId <-- require_user user ;;
  run throw_if fails "Failed to fetch service requests" 500 ;;
  read (fun db =>
          List.filter (fun row => bool_decide (customer_id row.2 = userId))
            (map_to_list (service_requests db))).

(** ** mechanicController.ts: the provider's dashboard *)

Module Stats.

(** The local midnights around the call, as [toISOString] prints them, and
    whether the query for today's jobs reports an error (which the handler
    only logs). *)
Record Clock := mkClock {
  today : Timestamp;
  tomorrow : Timestamp;
  jobsError : bool
}.

Record Response := mkResponse {
  today_earnings : Q;
  today_jobs : nat;
  total_jobs : Z;
  rating : Q;
  wallet_balance : Q;
  is_available : bool
}.

End Stats.

(** [.eq('mechanic_id', userId).eq('status', 'completed')
     .gte('completed_at', today).lt('completed_at', tomorrow)].
    The timestamps are the strings [toISOString] prints, all of one length,
    so that their order as strings is their order in time. *)
Definition completed_today (clock : Stats.Clock) (user : Id) (row : Id * ServiceRequest)
  : bool :=
  bool_decide (mechanic_id row.2 = user)
  && bool_decide (status row.2 = completed)
  && match completed_at row.2 with
     | Some t => String.leb (Stats.today clock) t && String.ltb t (Stats.tomorrow clock)
     | None => false
     end.

(** The [reduce] over today's jobs: each counts for its labor cost less
    10%.  The sum is the exact one; the handler adds in floating point, so
    that its sum can lie a few units of the last binary place off this
    one, which [Math.round] turns into one cent when the exact sum ends in
    half a cent. *)
Definition todayEarnings (todayJobs : list (Id * ServiceRequest)) : Q :=
  fold_left
    (fun sum job =>
       let laborCost := Js.or_zero (labor_cost job.2) in
       let commission := laborCost * 0.1 in
       sum + (laborCost - commission))
    todayJobs 0.

(** [Math.round(x * 100) / 100]. *)
Definition round2 (x : Q) : Q := inject_Z (Js.Math_round (x * 100)) / 100.

Definition getMechanicStats (clock : Stats.Clock) (user : option Id)
  : Handler Stats.Response :=
  await userId <-- require_user user ;;
  await found <-- select_profile userId ;;
  await mechanicProfile <-- require found "Mechanic profile not found" 404 ;;
  await todayJobs <--
    read (fun db =>
            if Stats.jobsError clock then []
            else List.filter (completed_today clock userId)
                   (map_to_list (service_requests db))) ;;
  ret {| Stats.today_earnings := round2 (todayEarnings todayJobs);
         Stats.today_jobs := length todayJobs;
         Stats.total_jobs := default 0%Z (total_jobs mechanicProfile);
         Stats.rating := Js.or_zero (rating mechanicProfile);
         Stats.wallet_balance := Js.or_zero (wallet_balance mechanicProfile);
         Stats.is_available := is_available mechanicProfile |}.

(** ** The wallet controller: the balance and a page of the ledger *)

Module Wallet.

(** [req.query]: each parameter is a string, or [Undefined] when absent. *)
Record Query := mkQuery {
  q_page : Js.Value;
  q_limit : Js.Value
}.

Record Pagination := mkPagination {
  page : Z;
  limit : Z;
  total : Z;
  total_pages : Z
}.

Record Response := mkResponse {
  balance : Q;
  recent_transactions : list WalletTransaction;
  pagination : Pagination
}.

(** What the two ledger queries report: an error each. *)
Record Faults := mkFaults {
  transactionsError : bool;
  countError : bool
}.

End Wallet.

(** [parseInt(x) || d]: NaN and zero give the default. *)
Definition parseInt_or (x : Js.Value) (d : Z) : Z :=
  match Js.parseInt x with
  | Some n => if (n =? 0)%Z then d else n
  | None => d
  end.

(** [.range(from, to)]: the rows number [from] to [to], counted from zero.
    The database refuses a negative offset and a negative number of rows;
    a range past the last row is empty. *)
Definition range {A} (from to : Z) (rows : list A) : option (list A) :=
  if ((from <? 0) || (to - from + 1 <? 0))%Z then None
  else Some (take (Z.to_nat (to - from + 1)) (drop (Z.to_nat from) rows)).

(** [.eq('user_id', userId).order('created_at', { ascending: false })]:
    the table is kept in the order of insertion, which is the order of
    [created_at]. *)
Definition newest_first (user : Id) (rows : list WalletTransaction)
  : list WalletTransaction :=
  rev (rows_of user rows).

Definition getWallet (faults : Wallet.Faults) (user : option Id) (query : Wallet.Query)
  : Handler Wallet.Response :=
  await userId <-- require_user user ;;
  await found <-- select_profile userId ;;
  await mechanicProfile <-- require found "Mechanic profile not found" 404 ;;
  let page := parseInt_or (Wallet.q_page query) 1 in
  let limit := parseInt_or (Wallet.q_limit query) 20 in
  let offset := ((page - 1) * limit)%Z in
  await fetched <--
    read (fun db =>
            if Wallet.transactionsError faults then None
            else range offset (offset + limit - 1)
                   (newest_first userId (wallet_transactions db))) ;;
  await transactions <-- require fetched "Failed to fetch transactions" 500 ;;
  await count <--
    read (fun db =>
            if Wallet.countError faults then 0%Z
            else Z.of_nat (length (rows_of userId (wallet_transactions db)))) ;;
  ret {| Wallet.balance := Js.or_zero (wallet_balance mechanicProfile);
         Wallet.recent_transactions := transactions;
         Wallet.pagination :=
           {| Wallet.page := page;
              Wallet.limit := limit;
              Wallet.total := count;
              Wallet.total_pages := Qceiling (inject_Z count / inject_Z limit) |} |}.

(** The rows an answer of [getWallet] shows; none when the call threw. *)
Definition shown (answer : Db * Outcome Wallet.Response) : list WalletTransaction :=
  match answer.2 with
  | Sent response => Wallet.recent_transactions response
  | Thrown _ => []
  end.

Definition no_faults : Wallet.Faults := Wallet.mkFaults false false.

(** ** Concrete stores used in the examples of these handlers *)

Module Tour.

(** After the settlement of the scenario (85.00 in the wallet), two
    withdrawals of 10.00 and of 20.00. *)
Definition withdrawn_db : Db :=
  serve [ (Scenario.io "w", WithdrawFromWallet Scenario.mechanic (Scenario.ask 10));
          (Scenario.io "w", WithdrawFromWallet Scenario.mechanic (Scenario.ask 20)) ]
    Scenario.settled_db.

(** The day of the scenario's clock. *)
Definition day : Stats.Clock :=
  Stats.mkClock "2024-05-01T00:00:00.000Z" "2024-05-02T00:00:00.000Z" false.

(** A provider in Lagos (6.5 N, 3.4 E), approved and available, and a
    customer asking from the same place. *)
Definition lagos : Matcher.Mechanic :=
  {| Matcher.id := "profile-2";
     Matcher.user_id := "mechanic-2";
     Matcher.rating := Some 4.0;
     Matcher.total_jobs := Some 3%Z;
     Matcher.is_available := true;
     Matcher.verification_status := approved;
     Matcher.profile_photo_url := None;
     Matcher.users := {| Matcher.full_name := "Ade";
                         Matcher.profile_picture_url := None;
                         Matcher.location_lat := Some (Q2R 6.5);
                         Matcher.location_lng := Some (Q2R 3.4) |} |}.

Definition from_lagos (radius : Js.Value) : Matcher.Query :=
  Matcher.mkQuery (Js.String "6.5") (Js.String "3.4") radius None.



(** The page number as the number itself. *)
Definition page (k : nat) : Js.Value := Js.Number (inject_Z (Z.of_nat k)).

End Tour.

(** ** The tests of the matcher, in words *)

(** Both coordinates are stored and pass the presence test, which a
    coordinate of zero does not. *)
Definition located (m : Matcher.Mechanic) (lat lng : R) : Prop :=
  Matcher.location_lat (Matcher.users m) = Some lat /\ lat <> 0%R
  /\ Matcher.location_lng (Matcher.users m) = Some lng /\ lng <> 0%R.



(** The provider has the specialization searched for, letter case aside;
    an absent or empty search asks for nothing. *)
Definition offers (specMap : list Matcher.Specialization) (search : option string)
    (m : Matcher.Mechanic) : Prop :=
  truthy_str search = true ->
  exists s, In s (Matcher.specs_of specMap (Matcher.id m))
            /\ Js.toLowerCase s = Js.toLowerCase (default "" search).

(** The element of the answer for a provider at [(lat, lng)], at distance
    [d] from the place of the query. *)
Definition listing (specMap : list Matcher.Specialization) (m : Matcher.Mechanic)
    (lat lng d : R) : Matcher.Nearby :=
  {| Matcher.nearby_id := Matcher.id m;
     Matcher.name := Matcher.full_name (Matcher.users m);
     Matcher.profile_photo :=
       Matcher.first_truthy (Matcher.profile_photo_url m)
         (Matcher.profile_picture_url (Matcher.users m));
     Matcher.nearby_rating := Js.or_zero (Matcher.rating m);
     Matcher.nearby_total_jobs := default 0%Z (Matcher.total_jobs m);
     Matcher.specializations := Matcher.specs_of specMap (Matcher.id m);
     Matcher.distance := Matcher.round1 d;
     Matcher.nearby_is_available := Matcher.is_available m;
     Matcher.latitude := lat;
     Matcher.longitude := lng |}.

(** The two confirmation flags against the status. *)
Definition confirmations_match_status (r : ServiceRequest) : Prop :=
  (status r = completed
   <-> mechanic_confirmed r = true /\ customer_confirmed r = true)
  /\ (mechanic_confirmed r = true \/ customer_confirmed r = true ->
      status r = in_progress \/ status r = completed).

(** A stored rating is one of the five marks. *)
Definition rating_in_range (r : ServiceRequest) : Prop :=
  forall k, customer_rating r = Some k -> (1 <= k <= 5)%Z.

(** ** mechanicController.ts: the provider reports a position *)



(** * Properties of the handlers *)

Ltac monad_simpl :=
  repeat (progress
            (unfold bind, ret, throw, throw_if, require, when, read, write,
               outcome_of in *;
             cbv beta iota zeta in *));
  cbn [fst snd negb andb orb thrown] in *.

Ltac db_simpl :=
  cbn [service_requests mechanic_profiles customer_vehicles wallet_transactions
       notifications set_service_requests set_mechanic_profiles
       set_wallet_transactions set_notifications] in *.

Ltac update_simpl :=
  unfold set_u_status, set_u_completed_at, set_u_arrived_at, no_update in *;
  cbn [u_status u_material_cost u_labor_cost u_total_cost u_customer_rating
       u_customer_review u_mechanic_confirmed u_customer_confirmed
       u_arrived_at u_completed_at] in *.

Ltac unfold_queries :=
  unfold select_request, update_request, select_profile, update_profile,
    select_commission, insert_transaction, insert_notification, select_ratings in *.

(** Run what is left of a handler, case by case. *)
Ltac case_query :=
  match goal with
  | |- context [match ?x with _ => _ end] =>
      lazymatch x with
      | single _ => destruct x eqn:?
      | _ !! _ => destruct x eqn:?
      | (0 <? _)%nat => destruct x eqn:?
      | Js.truthy_num _ => destruct x eqn:?
      | Js.truthy _ => destruct x eqn:?
      | Js.parseFloat _ => destruct x eqn:?
      | Js.parseInt _ => destruct x eqn:?
      | Qle_bool _ _ => destruct x eqn:?
      | Qlt_bool _ _ => destruct x eqn:?
      | bool_decide _ => destruct x eqn:?
      | String.eqb _ _ => destruct x eqn:?
      | is_available _ => destruct x eqn:?
      | updateError _ => destruct x eqn:?
      | insertError _ => destruct x eqn:?
      | mechanic_confirmed _ => destruct x eqn:?
      | customer_confirmed _ => destruct x eqn:?
      | Z.ltb _ _ => destruct x eqn:?
      end
  end.

Ltac run_out :=
  repeat first [ done | progress monad_simpl | progress db_simpl
               | progress update_simpl | case_query ].

(** ** Tables *)

Lemma alter_lookup_eq {A} (f : A -> A) (m : gmap string A) (i : string) (x : A) :
  m !! i = Some x -> alter f i m !! i = Some (f x).
Proof. intros H. by rewrite lookup_alter_eq, H. Qed.

Lemma alter_lookup_None {A} (f : A -> A) (m : gmap string A) (i j : string) :
  m !! j = None -> alter f i m !! j = None.
Proof.
  intros H. destruct (decide (i = j)) as [->|Hne].
  - by rewrite lookup_alter_eq, H.
  - by rewrite lookup_alter_ne.
Qed.

(** Updating a row that exists is an insertion of the updated row. *)
Lemma alter_as_insert {A} (f : A -> A) (m : gmap string A) (i : string) (x : A) :
  m !! i = Some x -> alter f i m = <[i := f x]> m.
Proof.
  intros H. apply map_eq. intros j. destruct (decide (i = j)) as [->|Hne].
  - by rewrite lookup_insert_eq, (alter_lookup_eq _ _ _ x).
  - by rewrite lookup_insert_ne, lookup_alter_ne.
Qed.

(** ** Comparisons and parses *)

Example parseFloat_samples :
  Qred <$> Js.parseFloat (Js.String "100.50") = Some (201 # 2)
  /\ Qred <$> Js.parseFloat (Js.String "  -2.5e1x") = Some (- 25 # 1)
  /\ Qred <$> Js.parseFloat (Js.String ".5") = Some (1 # 2)
  /\ Qred <$> Js.parseFloat (Js.String "0") = Some 0
  /\ Js.parseFloat (Js.String "abc") = None
  /\ Js.parseFloat (Js.String "") = None
  /\ Js.parseInt (Js.String "5 stars") = Some 5%Z
  /\ Js.parseInt (Js.Number 4.7) = Some 4%Z
  /\ Js.parseInt (Js.String "0x5") = Some 5%Z.
Proof. vm_compute. repeat split; reflexivity. Qed.

Lemma Qle_bool_false (a b : Q) : Qle_bool a b = false <-> b < a.
Proof.
  split; intros H.
  - apply Qnot_le_lt. intros Hle. apply Qle_bool_iff in Hle. congruence.
  - destruct (Qle_bool a b) eqn:E; [|done].
    apply Qle_bool_iff in E. apply Qlt_not_le in H. contradiction.
Qed.

Lemma Qlt_bool_true (a b : Q) : Qlt_bool a b = true <-> a < b.
Proof. unfold Qlt_bool. rewrite negb_true_iff. apply Qle_bool_false. Qed.

Lemma Qlt_bool_false (a b : Q) : Qlt_bool a b = false <-> b <= a.
Proof. unfold Qlt_bool. rewrite negb_false_iff. apply Qle_bool_iff. Qed.

Lemma Qeq_bool_false (a b : Q) : Qeq_bool a b = false <-> ~ a == b.
Proof.
  split.
  - intros H E. apply Qeq_bool_iff in E. congruence.
  - intros H. destruct (Qeq_bool a b) eqn:E; [|done].
    apply Qeq_bool_iff in E. contradiction.
Qed.

(** A value that parses to a non-zero number passes the presence test. *)
Lemma parseFloat_truthy v w :
  Js.parseFloat v = Some w -> ~ w == 0 -> Js.truthy v = true.
Proof.
  destruct v as [| |b|q|s]; cbn; try discriminate.
  - intros [= ->] H. apply negb_true_iff, Qeq_bool_false, H.
  - destruct s; [discriminate|done].
Qed.

Lemma require_user_some u db :
  u <> "" -> require_user (Some u) db = (db, Sent u).
Proof.
  intros Hu. unfold require_user.
  destruct (String.eqb_spec u ""); [contradiction|done].
Qed.

(** ** Withdrawal *)

Section Withdrawal.
Variables (io : Io) (u : string) (body : WithdrawBody) (db : Db).
Variables (p : MechanicProfile) (w : Q).
Hypothesis Huser : u <> "".
Hypothesis Hprofile : mechanic_profiles db !! u = Some p.
Hypothesis Hamount : Js.parseFloat (b_amount body) = Some w.

Lemma withdraw_not_positive :
  ~ 0 < w ->
  exists e, withdrawFromWallet io (Some u) body db = (db, Thrown e)
            /\ statusCode e = 400%Z.
Proof.
  intros Hw. unfold withdrawFromWallet.
  unfold bind at 1. rewrite require_user_some by done.
  destruct (Js.truthy (b_amount body)); monad_simpl; [|eauto].
  rewrite Hamount. monad_simpl.
  assert (Qle_bool w 0 = true) as -> by (apply Qle_bool_iff, Qnot_lt_le, Hw).
  monad_simpl. eauto.
Qed.

Lemma withdraw_amount_checks :
  0 < w -> Js.truthy (b_amount body) = true /\ Qle_bool w 0 = false.
Proof.
  intros Hw. split; [|by apply Qle_bool_false].
  apply (parseFloat_truthy _ w); [done|].
  intros E. rewrite E in Hw. by apply Qlt_irrefl in Hw.
Qed.

Lemma withdraw_insufficient :
  0 < w -> Js.or_zero (wallet_balance p) < w ->
  withdrawFromWallet io (Some u) body db
  = (db, Thrown (mkCustomError "Insufficient balance" 400)).
Proof.
  intros Hw Hlt. unfold withdrawFromWallet.
  destruct (withdraw_amount_checks Hw) as [Htruthy Hpos].
  unfold bind at 1. rewrite require_user_some by done.
  rewrite Htruthy. monad_simpl. rewrite Hamount. monad_simpl.
  rewrite Hpos. monad_simpl.
  unfold select_profile. monad_simpl. rewrite Hprofile. monad_simpl.
  assert (Qlt_bool (Js.or_zero (wallet_balance p)) w = true) as ->
    by (by apply Qlt_bool_true).
  by monad_simpl.
Qed.

Lemma withdraw_success :
  0 < w -> w <= Js.or_zero (wallet_balance p) ->
  updateError io = false -> insertError io = false ->
  let newBalance := Js.or_zero (wallet_balance p) - w in
  let t := withdrawal_transaction u w (b_bank_details body) in
  withdrawFromWallet io (Some u) body db
  = (set_wallet_transactions (wallet_transactions db ++ [t])
       (set_mechanic_profiles
          (alter (set_wallet_balance newBalance) u (mechanic_profiles db)) db),
     Sent {| balance := newBalance; transaction := t |}).
Proof.
  intros Hw Hle Hupd Hins. unfold withdrawFromWallet.
  destruct (withdraw_amount_checks Hw) as [Htruthy Hpos].
  unfold bind at 1. rewrite require_user_some by done.
  rewrite Htruthy. monad_simpl. rewrite Hamount. monad_simpl.
  rewrite Hpos. monad_simpl.
  unfold select_profile, update_profile, insert_transaction.
  monad_simpl. rewrite Hprofile. monad_simpl.
  assert (Qlt_bool (Js.or_zero (wallet_balance p)) w = false) as ->
    by (by apply Qlt_bool_false).
  rewrite Hupd, Hins. by monad_simpl.
Qed.

Lemma withdraw_rollback :
  0 < w -> w <= Js.or_zero (wallet_balance p) ->
  updateError io = false -> insertError io = true ->
  withdrawFromWallet io (Some u) body db
  = (set_mechanic_profiles
       (alter (set_wallet_balance (Js.or_zero (wallet_balance p))) u
          (alter (set_wallet_balance (Js.or_zero (wallet_balance p) - w)) u
             (mechanic_profiles db))) db,
     Thrown (mkCustomError "Failed to create withdrawal transaction" 500)).
Proof.
  intros Hw Hle Hupd Hins. unfold withdrawFromWallet.
  destruct (withdraw_amount_checks Hw) as [Htruthy Hpos].
  unfold bind at 1. rewrite require_user_some by done.
  rewrite Htruthy. monad_simpl. rewrite Hamount. monad_simpl.
  rewrite Hpos. monad_simpl.
  unfold select_profile, update_profile, insert_transaction.
  monad_simpl. rewrite Hprofile. monad_simpl.
  assert (Qlt_bool (Js.or_zero (wallet_balance p)) w = false) as ->
    by (by apply Qlt_bool_false).
  rewrite Hupd, Hins. by monad_simpl.
Qed.

End Withdrawal.

(** C6 (withdrawal guard, debit, ledger row and rollback).  For the
    authenticated provider [u] with a profile and a body whose [amount]
    parses to [w]: a non-positive amount is refused with the store
    unchanged; an amount above the balance is refused with the
    insufficient-balance error, no ledger row and the store unchanged; a
    successful call debits the balance by [w] and appends one [withdrawal]
    row with status [pending] and amount [- w]; when the insertion of that
    row fails, the balance is written back to its prior value and the
    ledger is unchanged. *)
Theorem withdrawal_contract (io : Io) (u : string) (body : WithdrawBody) (db : Db)
    (p : MechanicProfile) (w : Q) :
  u <> "" ->
  mechanic_profiles db !! u = Some p ->
  Js.parseFloat (b_amount body) = Some w ->
  let currentBalance := Js.or_zero (wallet_balance p) in
  let result := withdrawFromWallet io (Some u) body db in
  (~ 0 < w -> exists e, result = (db, Thrown e) /\ statusCode e = 400%Z)
  /\ (0 < w -> currentBalance < w ->
      result = (db, Thrown (mkCustomError "Insufficient balance" 400)))
  /\ (0 < w -> w <= currentBalance -> updateError io = false ->
      insertError io = false ->
      exists t p',
        result.2 = Sent {| balance := currentBalance - w; transaction := t |}
        /\ wallet_transactions result.1 = (wallet_transactions db ++ [t])%list
        /\ user_id t = u /\ amount t = - w
        /\ transaction_type t = withdrawal
        /\ tx_status t = Some withdrawal_pending
        /\ mechanic_profiles result.1 !! u = Some p'
        /\ wallet_balance p' = Some (currentBalance - w))
  /\ (0 < w -> w <= currentBalance -> updateError io = false ->
      insertError io = true ->
      result.2 = Thrown (mkCustomError "Failed to create withdrawal transaction" 500)
      /\ wallet_transactions result.1 = wallet_transactions db
      /\ exists p',
           mechanic_profiles result.1 !! u = Some p'
           /\ wallet_balance p' = Some currentBalance).
Proof.
  intros Hu Hp Hw currentBalance result. subst currentBalance result.
  split; [|split; [|split]].
  - intros H. by eapply withdraw_not_positive.
  - intros H1 H2. by eapply withdraw_insufficient.
  - intros H1 H2 H3 H4.
    rewrite (withdraw_success io u body db p w) by done. cbn.
    eexists _, (set_wallet_balance _ p). repeat split.
    rewrite lookup_alter_eq, Hp. reflexivity.
  - intros H1 H2 H3 H4.
    rewrite (withdraw_rollback io u body db p w) by done. cbn.
    repeat split. exists (set_wallet_balance (Js.or_zero (wallet_balance p)) p).
    split; [|reflexivity].
    rewrite !lookup_alter_eq, Hp. reflexivity.
Qed.

(** The scenario of the specification: 200.00 asked against 150.00. *)
Lemma withdrawal_contract_witness :
  withdrawFromWallet (Scenario.io "r") Scenario.mechanic (Scenario.ask 200)
    Scenario.wallet_150
  = (Scenario.wallet_150, Thrown (mkCustomError "Insufficient balance" 400)).
Proof.
  refine (proj1 (proj2 (withdrawal_contract (Scenario.io "r") "mechanic-1"
            (Scenario.ask 200) Scenario.wallet_150 (Scenario.profile 150) 200
            _ _ _)) _ _);
    try reflexivity; done.
Defined.

(** ** The completion handlers, executed *)

Lemma completeServiceRequest_exec io u id body db r M L k :
  u <> "" ->
  valid_completion body M L k ->
  service_requests db !! id = Some r ->
  customer_id r = u ->
  status r = in_progress ->
  updateError io = false ->
  let upd := customer_update (now io) (mechanic_confirmed r) M L k (b_review body) in
  let db1 := update_row id upd db in
  completeServiceRequest io (Some u) id body db
  = (rate (mechanic_id r)
       (if mechanic_confirmed r then settle (mechanic_id r) L id db1 else db1),
     Sent (apply_update upd r)).
Proof.
  intros Hu (Ht1 & Ht2 & Ht3 & Hp1 & Hp2 & Hp3 & Hk1 & Hk2) Hr Hc Hs Hupd upd db1.
  unfold completeServiceRequest. unfold bind at 1.
  rewrite require_user_some by done.
  rewrite Ht1, Ht2, Ht3, Hp1, Hp2, Hp3. monad_simpl.
  assert ((k <? 1)%Z = false) as -> by lia.
  assert ((5 <? k)%Z = false) as -> by lia.
  unfold_queries. monad_simpl. rewrite Hr. monad_simpl.
  rewrite (bool_decide_eq_true_2 _ Hc), (bool_decide_eq_true_2 _ Hs). monad_simpl.
  rewrite Hupd. monad_simpl.
  subst upd db1.
  unfold customer_update, update_row, settle, rate, ratings_of, rounded_average.
  destruct (mechanic_confirmed r) eqn:Hm.
  - update_simpl. db_simpl. rewrite (alter_lookup_eq _ _ _ _ Hr). monad_simpl.
    rewrite bool_decide_eq_true_2 by done. run_out.
  - db_simpl. rewrite (alter_lookup_eq _ _ _ _ Hr). monad_simpl.
    rewrite bool_decide_eq_false_2 by done. run_out.
Qed.

Lemma completeServiceRequestMechanic_exec io u id db r :
  u <> "" ->
  service_requests db !! id = Some r ->
  mechanic_id r = u ->
  status r = in_progress ->
  updateError io = false ->
  let upd := mechanic_update (now io) (customer_confirmed r) in
  let db1 := update_row id upd db in
  completeServiceRequestMechanic io (Some u) id db
  = (if customer_confirmed r && Js.truthy_num (labor_cost r)
     then notify
            (service_request_notification (customer_id r) "Service Completed"
               "Your service request has been completed" id)
            (settle u (Js.or_zero (labor_cost r)) id db1)
     else db1,
     Sent (apply_update upd r)).
Proof.
  intros Hu Hr Hm Hs Hupd upd db1.
  unfold completeServiceRequestMechanic. unfold bind at 1.
  rewrite require_user_some by done.
  unfold_queries. monad_simpl. rewrite Hr. monad_simpl.
  rewrite (bool_decide_eq_true_2 _ Hm), (bool_decide_eq_true_2 _ Hs). monad_simpl.
  rewrite Hupd. monad_simpl.
  subst upd db1. unfold mechanic_update, update_row, settle, notify.
  destruct (customer_confirmed r) eqn:Hc.
  - update_simpl. db_simpl. rewrite (alter_lookup_eq _ _ _ _ Hr). monad_simpl.
    rewrite bool_decide_eq_true_2 by done. run_out.
  - db_simpl. rewrite (alter_lookup_eq _ _ _ _ Hr). monad_simpl.
    rewrite bool_decide_eq_false_2 by done. run_out.
Qed.

(** ** What each step of a completion touches *)

Lemma settle_requests m L id db :
  service_requests (settle m L id db) = service_requests db.
Proof. unfold settle. by repeat case_match. Qed.

Lemma rate_requests m db : service_requests (rate m db) = service_requests db.
Proof. unfold rate. by case_match. Qed.

Lemma rate_transactions m db :
  wallet_transactions (rate m db) = wallet_transactions db.
Proof. unfold rate. by case_match. Qed.

Lemma rate_balance m db user :
  wallet_balance <$> (mechanic_profiles (rate m db) !! user)
  = wallet_balance <$> (mechanic_profiles db !! user).
Proof.
  unfold rate. case_match; [|done]. db_simpl.
  destruct (decide (m = user)) as [->|Hne].
  - rewrite lookup_alter_eq. by destruct (mechanic_profiles db !! user).
  - by rewrite lookup_alter_ne.
Qed.

Lemma notify_requests n db : service_requests (notify n db) = service_requests db.
Proof. done. Qed.

Lemma update_row_lookup id u db r :
  service_requests db !! id = Some r ->
  service_requests (update_row id u db) !! id = Some (apply_update u r).
Proof. intros H. unfold update_row. db_simpl. by apply alter_lookup_eq. Qed.

Lemma completion_requests (b : bool) m m' L id db1 :
  service_requests (rate m (if b then settle m' L id db1 else db1))
  = service_requests db1.
Proof. rewrite rate_requests. destruct b; [apply settle_requests|done]. Qed.

(** C4 (dual confirmation).  On a request in progress, the customer's
    completion (valid body) sets [customer_confirmed] and the provider's
    completion sets [mechanic_confirmed]; the status becomes [completed] and
    [completed_at] is stamped exactly when the other party's flag was
    already set, and otherwise the status stays [in_progress]. *)
Theorem dual_confirmation (io : Io) (id : string) (db : Db) (r : ServiceRequest) :
  service_requests db !! id = Some r ->
  status r = in_progress ->
  updateError io = false ->
  (forall body M L k,
     customer_id r <> "" -> valid_completion body M L k ->
     let result := completeServiceRequest io (Some (customer_id r)) id body db in
     exists r',
       result.2 = Sent r'
       /\ service_requests result.1 !! id = Some r'
       /\ customer_confirmed r' = true
       /\ mechanic_confirmed r' = mechanic_confirmed r
       /\ (status r' = completed <-> mechanic_confirmed r = true)
       /\ (mechanic_confirmed r = false -> status r' = in_progress)
       /\ completed_at r'
          = if mechanic_confirmed r then Some (now io) else completed_at r)
  /\ (mechanic_id r <> "" ->
      let result := completeServiceRequestMechanic io (Some (mechanic_id r)) id db in
      exists r',
        result.2 = Sent r'
        /\ service_requests result.1 !! id = Some r'
        /\ mechanic_confirmed r' = true
        /\ customer_confirmed r' = customer_confirmed r
        /\ (status r' = completed <-> customer_confirmed r = true)
        /\ (customer_confirmed r = false -> status r' = in_progress)
        /\ completed_at r'
           = if customer_confirmed r then Some (now io) else completed_at r).
Proof.
  intros Hr Hs Hupd. split.
  - intros body M L k Hu Hvalid result. subst result.
    rewrite (completeServiceRequest_exec io _ id body db r M L k) by done.
    eexists. split; [reflexivity|]. cbn [fst snd].
    rewrite completion_requests. split; [by apply update_row_lookup|].
    unfold customer_update. cbn. rewrite Hs.
    destruct (mechanic_confirmed r); cbn; repeat split; try done.
  - intros Hu result. subst result.
    rewrite (completeServiceRequestMechanic_exec io _ id db r) by done.
    eexists. split; [reflexivity|]. cbn [fst snd].
    assert (service_requests
              (if customer_confirmed r && Js.truthy_num (labor_cost r)
               then notify
                      (service_request_notification (customer_id r)
                         "Service Completed"
                         "Your service request has been completed" id)
                      (settle (mechanic_id r) (Js.or_zero (labor_cost r)) id
                         (update_row id
                            (mechanic_update (now io) (customer_confirmed r)) db))
               else update_row id (mechanic_update (now io) (customer_confirmed r)) db)
            = service_requests
                (update_row id (mechanic_update (now io) (customer_confirmed r)) db))
      as ->.
    { case_match; [|done]. by rewrite notify_requests, settle_requests. }
    split; [by apply update_row_lookup|].
    unfold mechanic_update. cbn. rewrite Hs.
    destruct (customer_confirmed r); cbn; repeat split; try done.
Qed.

Lemma in_progress_db_lookup :
  service_requests Scenario.in_progress_db !! "request-1"
  = Some Scenario.in_progress_row.
Proof. vm_compute. reflexivity. Qed.

Lemma dual_confirmation_witness :
  exists r',
    (completeServiceRequestMechanic (Scenario.io "request-1") Scenario.mechanic
       "request-1" Scenario.in_progress_db).2 = Sent r'
    /\ mechanic_confirmed r' = true
    /\ status r' = in_progress.
Proof.
  destruct (dual_confirmation (Scenario.io "request-1") "request-1"
              Scenario.in_progress_db Scenario.in_progress_row
              in_progress_db_lookup eq_refl eq_refl) as [_ H].
  destruct (H ltac:(done)) as (r' & H1 & _ & H3 & _ & _ & H6 & _).
  exists r'. split; [exact H1|]. split; [exact H3|]. by apply H6.
Defined.

(** ** The presence test of the customer's completion *)

Lemma mechanic_confirmed_db_lookup :
  service_requests Scenario.mechanic_confirmed_db !! "request-1"
  = Some (apply_update (mechanic_update Scenario.clock false) Scenario.in_progress_row).
Proof. vm_compute. reflexivity. Qed.

Lemma reachable_serve calls db : reachable db -> reachable (serve calls db).
Proof.
  revert db. induction calls as [|c calls IH]; intros db H; [done|].
  apply IH. by constructor.
Qed.

Lemma reachable_start : reachable Scenario.start.
Proof.
  apply reachable_initial. repeat split.
  intros user p. unfold Scenario.start. db_simpl.
  intros H. apply lookup_singleton_Some in H as [_ <-]. by left.
Qed.

Lemma reachable_mechanic_confirmed_db : reachable Scenario.mechanic_confirmed_db.
Proof. do 2 apply reachable_serve. apply reachable_start. Qed.

(** C10, refuted as stated: the strings ["0"] are truthy, so the body
    passes the presence test and the zero-cost job is completed through the
    customer's path. *)
Lemma zero_cost_strings_complete :
  let result :=
    completeServiceRequest (Scenario.io "request-1") Scenario.customer "request-1"
      (Scenario.priced (Js.String "0") (Js.String "0") 5)
      Scenario.mechanic_confirmed_db in
  reachable Scenario.mechanic_confirmed_db
  /\ thrown result.2 = None
  /\ exists r' M L,
       service_requests result.1 !! "request-1" = Some r'
       /\ status r' = completed
       /\ material_cost r' = Some M /\ M == 0
       /\ labor_cost r' = Some L /\ L == 0.
Proof.
  split; [apply reachable_mechanic_confirmed_db|].
  vm_compute. split; [reflexivity|].
  eexists _, _, _. repeat split; reflexivity.
Qed.

Lemma numeric_zero_falsy q : q == 0 -> Js.truthy (Js.Number q) = false.
Proof. intros H. cbn. by apply negb_false_iff, Qeq_bool_iff. Qed.

(** C10, amended.  The customer's completion refuses a [material_cost] or
    [labor_cost] that is the number zero with the missing-required-fields
    error and leaves the store as it was; the string ["0"] is truthy, passes
    the presence test and parses to zero, so a job priced ["0"] and ["0"] is
    accepted on a request in progress, and completed when the provider had
    confirmed. *)
Theorem presence_test_on_costs (io : Io) (u id : string) (body : CompleteBody) (db : Db) :
  u <> "" ->
  ((exists q, b_material_cost body = Js.Number q /\ q == 0)
   \/ (exists q, b_labor_cost body = Js.Number q /\ q == 0) ->
   completeServiceRequest io (Some u) id body db
   = (db, Thrown (mkCustomError "Missing required fields" 400)))
  /\ (forall r k,
        b_material_cost body = Js.String "0" ->
        b_labor_cost body = Js.String "0" ->
        b_rating body = Js.Number (inject_Z k) -> (1 <= k <= 5)%Z ->
        service_requests db !! id = Some r ->
        customer_id r = u -> status r = in_progress -> updateError io = false ->
        let result := completeServiceRequest io (Some u) id body db in
        exists r' M L,
          result.2 = Sent r'
          /\ service_requests result.1 !! id = Some r'
          /\ customer_confirmed r' = true
          /\ material_cost r' = Some M /\ M == 0
          /\ labor_cost r' = Some L /\ L == 0
          /\ (mechanic_confirmed r = true -> status r' = completed)).
Proof.
  intros Hu. split.
  - intros Hzero. unfold completeServiceRequest. unfold bind at 1.
    rewrite require_user_some by done.
    destruct Hzero as [(q & -> & Hq)|(q & -> & Hq)];
      rewrite (numeric_zero_falsy q Hq); monad_simpl; [done|].
    by destruct (Js.truthy (b_material_cost body)).
  - intros r k Hm Hl Hk Hrange Hr Hc Hs Hupd result. subst result.
    assert (Js.parseInt (Js.Number (inject_Z k)) = Some k) as Hparse.
    { cbn. unfold Js.Qtrunc. f_equal.
      destruct (Qle_bool 0 (inject_Z k)); [apply Qfloor_Z|apply Qceiling_Z]. }
    assert (valid_completion body
              (inject_Z 0 + inject_Z 0 * Js.pow10 (- 0) * Js.pow10 0)
              (inject_Z 0 + inject_Z 0 * Js.pow10 (- 0) * Js.pow10 0) k) as Hvalid.
    { unfold valid_completion. rewrite Hm, Hl, Hk, Hparse.
      repeat split; try done; try lia.
      cbn. apply negb_true_iff, Qeq_bool_false. intros E.
      assert (inject_Z 1 <= inject_Z k) as H1 by (rewrite <- Zle_Qle; lia).
      rewrite E in H1. by apply Qle_not_lt in H1. }
    rewrite (completeServiceRequest_exec io u id body db r _ _ k Hu Hvalid) by done.
    eexists _, _, _. split; [reflexivity|]. cbn [fst snd].
    rewrite completion_requests.
    split; [by apply update_row_lookup|].
    cbn. repeat split; try reflexivity.
    intros ->. reflexivity.
Qed.

Lemma presence_test_on_costs_witness :
  completeServiceRequest (Scenario.io "request-1") Scenario.customer "request-1"
    (Scenario.priced (Js.Number 0) (Js.Number 100) 5) Scenario.mechanic_confirmed_db
  = (Scenario.mechanic_confirmed_db,
     Thrown (mkCustomError "Missing required fields" 400)).
Proof.
  refine (proj1 (presence_test_on_costs (Scenario.io "request-1") "customer-1"
                   "request-1" (Scenario.priced (Js.Number 0) (Js.Number 100) 5)
                   Scenario.mechanic_confirmed_db _) _); [done|].
  left. exists 0. split; reflexivity.
Defined.

(** ** Every call is a transition *)

Lemma wallet_unchanged db db' :
  wallet_transactions db' = wallet_transactions db ->
  mechanic_profiles db' = mechanic_profiles db ->
  wallet_effect db db'.
Proof.
  intros Ht Hp. apply (wallet_quiet db db' "" (fun p => p)); [done| |done].
  rewrite Hp. symmetry. by apply alter_id.
Qed.

Lemma transition_same_tables db db' :
  service_requests db' = service_requests db ->
  mechanic_profiles db' = mechanic_profiles db ->
  wallet_transactions db' = wallet_transactions db ->
  customer_vehicles db' = customer_vehicles db ->
  transition db db'.
Proof.
  intros Hr Hp Ht Hv. split; [by apply requests_same|].
  split; [by apply wallet_unchanged|done].
Qed.

Lemma transition_update db db' id r u :
  service_requests db !! id = Some r ->
  legal_update r u ->
  service_requests db' = alter (apply_update u) id (service_requests db) ->
  mechanic_profiles db' = mechanic_profiles db ->
  wallet_transactions db' = wallet_transactions db ->
  customer_vehicles db' = customer_vehicles db ->
  transition db db'.
Proof.
  intros Hr Hu Hreq Hp Ht Hv. split; [|split; [by apply wallet_unchanged|done]].
  apply (requests_update db db' id r u); [done..|].
  by rewrite Hreq, (alter_as_insert _ _ _ r).
Qed.

Ltac case_atom x :=
  match x with
  | negb ?b => case_atom b
  | andb ?a ?b => first [ case_atom a | case_atom b ]
  | orb ?a ?b => first [ case_atom a | case_atom b ]
  | bool_decide ?P => destruct (bool_decide_reflect P)
  | _ !! _ => destruct x eqn:?
  | single _ => destruct x eqn:?
  | String.eqb _ _ => destruct x eqn:?
  | is_available _ => destruct x eqn:?
  | updateError _ => destruct x eqn:?
  | insertError _ => destruct x eqn:?
  | mechanic_confirmed _ => destruct x eqn:?
  | customer_confirmed _ => destruct x eqn:?
  | Js.truthy _ => destruct x eqn:?
  | Js.truthy_num _ => destruct x eqn:?
  | Js.parseFloat _ => destruct x eqn:?
  | Js.parseInt _ => destruct x eqn:?
  | Qle_bool _ _ => destruct x eqn:?
  | Qlt_bool _ _ => destruct x eqn:?
  | Z.ltb _ _ => destruct x eqn:?
  | Nat.ltb _ _ => destruct x eqn:?
  | ?y => is_var y; destruct y eqn:?
  | ?f ?y => is_var y; is_const f; destruct x eqn:?
  end.

Ltac case_branch :=
  match goal with
  | |- context [match ?x with _ => _ end] => case_atom x
  end.

Ltac explore :=
  repeat first [ progress monad_simpl | progress db_simpl | progress update_simpl
               | case_branch ].

Ltac unchanged := by (apply transition_same_tables).

Lemma cancel_transition io user id db :
  transition db (cancelServiceRequest io user id db).1.
Proof.
  unfold cancelServiceRequest, require_user. unfold_queries.
  explore; try unchanged.
  all: eapply transition_update; eauto; apply update_cancel; naive_solver.
Qed.

Lemma accept_transition io user id db :
  transition db (acceptServiceRequest io user id db).1.
Proof.
  unfold acceptServiceRequest, require_user. unfold_queries.
  explore; try unchanged.
  all: eapply transition_update; eauto; by apply update_accept.
Qed.

Lemma decline_transition io user id db :
  transition db (declineServiceRequest io user id db).1.
Proof.
  unfold declineServiceRequest, require_user. unfold_queries.
  explore; try unchanged.
  all: eapply transition_update; eauto; apply update_cancel; by left.
Qed.

Lemma arrive_transition io user id db :
  transition db (markArrived io user id db).1.
Proof.
  unfold markArrived, require_user. unfold_queries.
  explore; try unchanged.
  all: eapply transition_update; eauto;
    by apply (update_arrive _ (now io)).
Qed.

Lemma transition_profile db db' user g :
  service_requests db' = service_requests db ->
  wallet_transactions db' = wallet_transactions db ->
  customer_vehicles db' = customer_vehicles db ->
  mechanic_profiles db' = alter g user (mechanic_profiles db) ->
  (forall p, Js.or_zero (wallet_balance (g p)) = Js.or_zero (wallet_balance p)) ->
  transition db db'.
Proof.
  intros Hr Ht Hv Hp Hg. split; [by apply requests_same|]. split; [|done].
  apply (wallet_quiet db db' user g); auto.
Qed.

Lemma toggle_transition io user db :
  transition db (toggleAvailability io user db).1.
Proof.
  unfold toggleAvailability, require_user. unfold_queries.
  explore; try unchanged.
  all: by eapply transition_profile.
Qed.

Lemma create_transition io user body db :
  transition db (createServiceRequest io user body db).1.
Proof.
  unfold createServiceRequest, require_user. unfold_queries.
  explore; try unchanged.
  all: split; [|split; [by apply wallet_unchanged|done]].
  all: eapply requests_insert; [ | | |reflexivity].
  all: try (by repeat split).
  all: try (cbn; eauto).
  all: match goal with
       | H : ¬ is_Some ?x |- _ => by destruct x; [destruct H; eauto|]
       end.
Qed.

Lemma withdraw_transition io user body db :
  transition db (withdrawFromWallet io user body db).1.
Proof.
  unfold withdrawFromWallet, require_user. unfold_queries.
  explore; try unchanged.
  - split; [by apply requests_same|]. split; [|done].
    eapply wallet_quiet; [done|db_simpl; apply alter_alter_eq|].
    intros p Hp. cbn. congruence.
  - split; [by apply requests_same|]. split; [|done].
    eapply wallet_withdrawal; [reflexivity|reflexivity|].
    intros p Hp. cbn. congruence.
Qed.

(** A completion either leaves the store as it was or passed every guard. *)
Lemma completeServiceRequest_cases io user id body db :
  (completeServiceRequest io user id body db).1 = db
  \/ exists u r M L k,
       user = Some u /\ u <> "" /\ valid_completion body M L k
       /\ service_requests db !! id = Some r /\ customer_id r = u
       /\ status r = in_progress /\ updateError io = false.
Proof.
  unfold completeServiceRequest, require_user. unfold_queries.
  destruct user as [u|]; [|by left].
  destruct (String.eqb_spec u ""); [by left|]. monad_simpl.
  destruct (Js.truthy (b_material_cost body)) eqn:?; monad_simpl; [|by left].
  destruct (Js.truthy (b_labor_cost body)) eqn:?; monad_simpl; [|by left].
  destruct (Js.truthy (b_rating body)) eqn:?; monad_simpl; [|by left].
  destruct (Js.parseFloat (b_material_cost body)) as [M|] eqn:?; monad_simpl; [|by left].
  destruct (Js.parseFloat (b_labor_cost body)) as [L|] eqn:?; monad_simpl; [|by left].
  destruct (Js.parseInt (b_rating body)) as [k|] eqn:?; monad_simpl; [|by left].
  destruct (k <? 1)%Z eqn:?; monad_simpl; [by left|].
  destruct (5 <? k)%Z eqn:?; monad_simpl; [by left|].
  destruct (service_requests db !! id) as [r|] eqn:?; monad_simpl; [|by left].
  destruct (bool_decide_reflect (customer_id r = u)); monad_simpl; [|by left].
  destruct (bool_decide_reflect (status r = in_progress)); monad_simpl; [|by left].
  destruct (updateError io) eqn:?; monad_simpl; [by left|].
  right. exists u, r, M, L, k. unfold valid_completion.
  repeat split; try done; lia.
Qed.

Lemma completeServiceRequestMechanic_cases io user id db :
  (completeServiceRequestMechanic io user id db).1 = db
  \/ exists u r,
       user = Some u /\ u <> ""
       /\ service_requests db !! id = Some r /\ mechanic_id r = u
       /\ status r = in_progress /\ updateError io = false.
Proof.
  unfold completeServiceRequestMechanic, require_user. unfold_queries.
  destruct user as [u|]; [|by left].
  destruct (String.eqb_spec u ""); [by left|]. monad_simpl.
  destruct (service_requests db !! id) as [r|] eqn:?; monad_simpl; [|by left].
  destruct (bool_decide_reflect (mechanic_id r = u)); monad_simpl; [|by left].
  destruct (bool_decide_reflect (status r = in_progress)); monad_simpl; [|by left].
  destruct (updateError io) eqn:?; monad_simpl; [by left|].
  right. by exists u, r.
Qed.

Lemma rate_profiles m db :
  exists g,
    mechanic_profiles (rate m db) = alter g m (mechanic_profiles db)
    /\ forall p, wallet_balance (g p) = wallet_balance p.
Proof.
  unfold rate. case_match.
  - eexists. split; [reflexivity|done].
  - exists (fun p => p). split; [|done]. symmetry. by apply alter_id.
Qed.

Lemma rate_vehicles m db : customer_vehicles (rate m db) = customer_vehicles db.
Proof. unfold rate. by case_match. Qed.

Lemma settle_vehicles m L id db :
  customer_vehicles (settle m L id db) = customer_vehicles db.
Proof. unfold settle. by repeat case_match. Qed.

Lemma settle_cases m L id db :
  settle m L id db = db
  \/ exists p,
       single (List.filter (is_commission_for id) (wallet_transactions db)) = None
       /\ mechanic_profiles db !! m = Some p
       /\ settle m L id db
          = set_wallet_transactions
              (wallet_transactions db ++ [commission_transaction m (L * 0.15) id])
              (set_mechanic_profiles
                 (alter
                    (set_wallet_balance
                       (Js.or_zero (wallet_balance p) + (L - L * 0.15)))
                    m (mechanic_profiles db))
                 db).
Proof.
  unfold settle. destruct (single _); [by left|].
  destruct (mechanic_profiles db !! m) as [p|]; [|by left].
  right. by exists p.
Qed.

(** A settlement on top of the row update, seen as a wallet effect. *)
Lemma settled_wallet_effect db db1 id r u L m :
  service_requests db !! id = Some r ->
  status r = in_progress ->
  mechanic_id r = m ->
  db1 = update_row id u db ->
  status (apply_update u r) = completed ->
  labor_cost (apply_update u r) = Some L ->
  forall db' g,
    (forall p, wallet_balance (g p) = wallet_balance p) ->
    service_requests db' = service_requests db1 ->
    wallet_transactions db' = wallet_transactions (settle m L id db1) ->
    mechanic_profiles db' = alter g m (mechanic_profiles (settle m L id db1)) ->
    wallet_effect db db'.
Proof.
  intros Hr Hs Hm -> Hdone Hlabor db' g Hg Hreq Htx Hprof.
  destruct (settle_cases m L id (update_row id u db)) as [E|(p & Hnone & Hp & E)];
    rewrite E in Htx, Hprof; unfold update_row in *; db_simpl.
  - eapply wallet_quiet; [done..|]. intros p _. by rewrite Hg.
  - eapply (wallet_settlement db db' m (g ∘ set_wallet_balance _) id r _ L);
      [done| by rewrite Hprof, alter_alter_eq | | done..| | done | done].
    + intros p' Hp'. cbn. rewrite Hg. cbn. congruence.
    + rewrite Hreq. db_simpl. by apply alter_lookup_eq.
Qed.

Lemma complete_transition io user id body db :
  transition db (completeServiceRequest io user id body db).1.
Proof.
  destruct (completeServiceRequest_cases io user id body db)
    as [->|(u & r & M & L & k & -> & Hu & Hvalid & Hr & Hc & Hs & Hupd)];
    [unchanged|].
  rewrite (completeServiceRequest_exec io u id body db r M L k) by done.
  cbn [fst].
  set (upd := customer_update (now io) (mechanic_confirmed r) M L k (b_review body)).
  set (db1 := update_row id upd db).
  set (db2 := if mechanic_confirmed r then settle (mechanic_id r) L id db1 else db1).
  assert (service_requests (rate (mechanic_id r) db2) = service_requests db1) as Hreq.
  { rewrite rate_requests. subst db2. destruct (mechanic_confirmed r); [|done].
    apply settle_requests. }
  destruct (rate_profiles (mechanic_id r) db2) as (g & Hprof & Hg).
  split; [|split].
  - apply (requests_update _ _ id r upd); [done| |].
    + apply update_customer; [done|]. destruct Hvalid as (_ & _ & _ & _ & _ & _ & ?). lia.
    + rewrite Hreq. subst db1. unfold update_row. db_simpl.
      by apply alter_as_insert.
  - subst db2. destruct (mechanic_confirmed r) eqn:Hmc.
    + eapply (settled_wallet_effect db db1 id r upd L (mechanic_id r));
        [done..| | |exact Hg|exact Hreq|by rewrite rate_transactions|exact Hprof];
        subst upd; unfold customer_update; try rewrite Hmc; done.
    + eapply wallet_quiet; [by rewrite rate_transactions|exact Hprof|].
      intros p _. by rewrite Hg.
  - rewrite rate_vehicles. subst db2.
    destruct (mechanic_confirmed r); [by rewrite settle_vehicles|done].
Qed.

Lemma complete_mechanic_transition io user id db :
  transition db (completeServiceRequestMechanic io user id db).1.
Proof.
  destruct (completeServiceRequestMechanic_cases io user id db)
    as [->|(u & r & -> & Hu & Hr & Hm & Hs & Hupd)]; [unchanged|].
  rewrite (completeServiceRequestMechanic_exec io u id db r) by done.
  cbn [fst].
  set (upd := mechanic_update (now io) (customer_confirmed r)).
  set (db1 := update_row id upd db).
  assert (legal_update r upd) as Hlegal by (by apply update_mechanic).
  assert (service_requests db1 = <[id := apply_update upd r]> (service_requests db))
    as Hreq1.
  { subst db1. unfold update_row. db_simpl. by apply alter_as_insert. }
  destruct (customer_confirmed r && Js.truthy_num (labor_cost r)) eqn:Hfinal.
  - apply andb_true_iff in Hfinal as [Hcc Htruthy].
    destruct (labor_cost r) as [L|] eqn:Hlabor; [|done]. cbn [Js.or_zero].
    split; [|split].
    + apply (requests_update _ _ id r upd); [done..|].
      by rewrite notify_requests, settle_requests.
    + eapply settled_wallet_effect
        with (db1 := db1) (r := r) (u := upd) (L := L) (m := u) (g := fun p => p);
        [done..| | |done| | |].
      * subst upd. unfold mechanic_update. by rewrite Hcc.
      * subst upd. unfold mechanic_update. by rewrite Hcc.
      * by rewrite notify_requests, settle_requests.
      * done.
      * cbn. symmetry. by apply alter_id.
    + cbn. by rewrite settle_vehicles.
  - split; [|split; [by apply wallet_unchanged|done]].
    by apply (requests_update _ _ id r upd).
Qed.

Theorem handle_transition io c db : transition db (handle io c db).1.
Proof.
  destruct c; cbn [handle]; unfold outcome_of; cbn [fst].
  - apply create_transition.
  - apply cancel_transition.
  - apply complete_transition.
  - apply toggle_transition.
  - apply accept_transition.
  - apply decline_transition.
  - apply arrive_transition.
  - apply complete_mechanic_transition.
  - apply withdraw_transition.
Qed.

(** ** The lifecycle *)

Lemma legal_update_not_terminal r u :
  legal_update r u -> status r <> completed /\ status r <> cancelled.
Proof.
  destruct 1; split; intros E;
    repeat match goal with H : _ \/ _ |- _ => destruct H end; congruence.
Qed.

Lemma terminal_row_kept db db' id r :
  request_effect db db' ->
  service_requests db !! id = Some r ->
  status r = completed \/ status r = cancelled ->
  service_requests db' !! id = Some r.
Proof.
  intros [Hsame|id0 row Hnone _ _ Hins|id0 r0 u Hr0 Hlegal Hupd] Hr Hterminal.
  - by rewrite Hsame.
  - rewrite Hins, lookup_insert_ne; [done|]. intros ->. congruence.
  - rewrite Hupd. destruct (decide (id0 = id)) as [->|Hne].
    + assert (r0 = r) as -> by congruence.
      apply legal_update_not_terminal in Hlegal. naive_solver.
    + by rewrite lookup_insert_ne.
Qed.

Ltac string_facts :=
  repeat match goal with
         | H : (_ =? _)%string = true |- _ => apply String.eqb_eq in H
         | H : (_ =? _)%string = false |- _ => apply String.eqb_neq in H
         end.

(** A leaf of a guarded handler: the store is as it was and the error is
    the status guard's as soon as the earlier checks are passed. *)
Ltac open_hyps :=
  repeat match goal with
         | H : _ /\ _ |- _ => destruct H
         | H : exists _, _ |- _ => destruct H
         end.

Ltac guard_leaf :=
  string_facts; simplify_eq; try done;
  eexists; (split; [reflexivity|]);
  intros; open_hyps; string_facts; simplify_eq; try done; try congruence.

Lemma cancel_guard io user id db r :
  service_requests db !! id = Some r ->
  status r ∉ [pending; accepted] ->
  exists e,
    cancelServiceRequest io user id db = (db, Thrown e)
    /\ (passes_earlier_checks (CancelServiceRequest user id) r db ->
        e = status_error (CancelServiceRequest user id)).
Proof.
  intros Hr Hs. rewrite !not_elem_of_cons in Hs. destruct Hs as (Hp & Ha & _).
  unfold passes_earlier_checks, status_error.
  unfold cancelServiceRequest, require_user. unfold_queries.
  explore; guard_leaf.
Qed.

Lemma accept_guard io user id db r :
  service_requests db !! id = Some r ->
  status r ∉ [pending] ->
  exists e,
    acceptServiceRequest io user id db = (db, Thrown e)
    /\ (passes_earlier_checks (AcceptServiceRequest user id) r db ->
        e = status_error (AcceptServiceRequest user id)).
Proof.
  intros Hr Hs. rewrite !not_elem_of_cons in Hs. destruct Hs as (Hp & _).
  unfold passes_earlier_checks, status_error.
  unfold acceptServiceRequest, require_user. unfold_queries.
  explore; guard_leaf.
Qed.

Lemma decline_guard io user id db r :
  service_requests db !! id = Some r ->
  status r ∉ [pending] ->
  exists e,
    declineServiceRequest io user id db = (db, Thrown e)
    /\ (passes_earlier_checks (DeclineServiceRequest user id) r db ->
        e = status_error (DeclineServiceRequest user id)).
Proof.
  intros Hr Hs. rewrite !not_elem_of_cons in Hs. destruct Hs as (Hp & _).
  unfold passes_earlier_checks, status_error.
  unfold declineServiceRequest, require_user. unfold_queries.
  explore; guard_leaf.
Qed.

Lemma arrive_guard io user id db r :
  service_requests db !! id = Some r ->
  status r ∉ [accepted] ->
  exists e,
    markArrived io user id db = (db, Thrown e)
    /\ (passes_earlier_checks (MarkArrived user id) r db ->
        e = status_error (MarkArrived user id)).
Proof.
  intros Hr Hs. rewrite !not_elem_of_cons in Hs. destruct Hs as (Hp & _).
  unfold passes_earlier_checks, status_error.
  unfold markArrived, require_user. unfold_queries.
  explore; guard_leaf.
Qed.

Lemma complete_mechanic_guard io user id db r :
  service_requests db !! id = Some r ->
  status r ∉ [in_progress] ->
  exists e,
    completeServiceRequestMechanic io user id db = (db, Thrown e)
    /\ (passes_earlier_checks (CompleteServiceRequestMechanic user id) r db ->
        e = status_error (CompleteServiceRequestMechanic user id)).
Proof.
  intros Hr Hs. rewrite !not_elem_of_cons in Hs. destruct Hs as (Hp & _).
  unfold passes_earlier_checks, status_error.
  unfold completeServiceRequestMechanic, require_user. unfold_queries.
  destruct user as [u|]; [destruct (String.eqb u "") eqn:?|];
    monad_simpl; try guard_leaf.
  rewrite Hr. monad_simpl.
  destruct (bool_decide_reflect (mechanic_id r = u)); monad_simpl; [|guard_leaf].
  rewrite bool_decide_eq_false_2 by done. monad_simpl. guard_leaf.
Qed.

Lemma complete_guard io user id body db r :
  service_requests db !! id = Some r ->
  status r ∉ [in_progress] ->
  exists e,
    completeServiceRequest io user id body db = (db, Thrown e)
    /\ (passes_earlier_checks (CompleteServiceRequest user id body) r db ->
        e = status_error (CompleteServiceRequest user id body)).
Proof.
  intros Hr Hs. rewrite !not_elem_of_cons in Hs. destruct Hs as (Hp & _).
  unfold passes_earlier_checks, status_error, valid_completion.
  unfold completeServiceRequest, require_user. unfold_queries.
  destruct user as [u|]; [destruct (String.eqb u "") eqn:?|];
    monad_simpl; try guard_leaf.
  destruct (Js.truthy (b_material_cost body)) eqn:?; monad_simpl; [|guard_leaf].
  destruct (Js.truthy (b_labor_cost body)) eqn:?; monad_simpl; [|guard_leaf].
  destruct (Js.truthy (b_rating body)) eqn:?; monad_simpl; [|guard_leaf].
  destruct (Js.parseFloat (b_material_cost body)) as [M|] eqn:?; monad_simpl;
    [|guard_leaf].
  destruct (Js.parseFloat (b_labor_cost body)) as [L|] eqn:?; monad_simpl;
    [|guard_leaf].
  destruct (Js.parseInt (b_rating body)) as [k|] eqn:?; monad_simpl; [|guard_leaf].
  destruct (k <? 1)%Z eqn:?; monad_simpl;
    [eexists; split; [reflexivity|]; intros (_ & _ & ? & ? & k' & H);
     destruct H as (_ & _ & _ & _ & _ & ? & ?); simplify_eq; lia|].
  destruct (5 <? k)%Z eqn:?; monad_simpl;
    [eexists; split; [reflexivity|]; intros (_ & _ & ? & ? & k' & H);
     destruct H as (_ & _ & _ & _ & _ & ? & ?); simplify_eq; lia|].
  rewrite Hr. monad_simpl.
  destruct (bool_decide_reflect (customer_id r = u)); monad_simpl; [|guard_leaf].
  rewrite bool_decide_eq_false_2 by done. monad_simpl. guard_leaf.
Qed.

(** C5 (monotonic lifecycle).  A row whose status is [completed] or
    [cancelled] is left exactly as it is by every call; and a call about a
    request whose status is not one the call requires (pending for accept
    and decline, accepted for arrive, in progress for both completions,
    pending or accepted for cancel) throws and leaves the whole store
    unchanged, the error being the status guard's business-rule error once
    the caller has passed the checks that precede it. *)
Theorem lifecycle_guards (io : Io) (c : Call) (db : Db) (id : string)
    (r : ServiceRequest) :
  service_requests db !! id = Some r ->
  (status r = completed \/ status r = cancelled ->
   service_requests (handle io c db).1 !! id = Some r)
  /\ (target c = Some id -> status r ∉ required_status c ->
      exists e,
        handle io c db = (db, Some e)
        /\ (passes_earlier_checks c r db -> e = status_error c)).
Proof.
  intros Hr. split.
  - intros Hterminal.
    destruct (handle_transition io c db) as (Hreq & _ & _).
    by apply (terminal_row_kept db).
  - intros Htarget Hstatus.
    destruct c; cbn [target] in Htarget; simplify_eq; cbn [handle required_status] in *.
    + destruct (cancel_guard io user id db r Hr Hstatus) as (e & -> & He).
      by exists e.
    + destruct (complete_guard io user id body db r Hr Hstatus) as (e & -> & He).
      by exists e.
    + destruct (accept_guard io user id db r Hr Hstatus) as (e & -> & He).
      by exists e.
    + destruct (decline_guard io user id db r Hr Hstatus) as (e & -> & He).
      by exists e.
    + destruct (arrive_guard io user id db r Hr Hstatus) as (e & -> & He).
      by exists e.
    + destruct (complete_mechanic_guard io user id db r Hr Hstatus) as (e & -> & He).
      by exists e.
Qed.

Lemma cancelled_db_lookup :
  service_requests Scenario.cancelled_db !! "request-1" = Some Scenario.cancelled_row.
Proof. vm_compute. reflexivity. Qed.

(** The scenario of the specification: after the customer's cancel, an
    accept fails on the status guard and the row stays cancelled. *)
Lemma lifecycle_guards_witness :
  service_requests
    (handle (Scenario.io "request-1")
       (AcceptServiceRequest Scenario.mechanic "request-1") Scenario.cancelled_db).1
    !! "request-1" = Some Scenario.cancelled_row
  /\ exists e,
       handle (Scenario.io "request-1")
         (AcceptServiceRequest Scenario.mechanic "request-1") Scenario.cancelled_db
       = (Scenario.cancelled_db, Some e)
       /\ e = mkCustomError "Service request is not pending" 400.
Proof.
  destruct (lifecycle_guards (Scenario.io "request-1")
              (AcceptServiceRequest Scenario.mechanic "request-1")
              Scenario.cancelled_db "request-1" Scenario.cancelled_row
              cancelled_db_lookup) as [H1 H2].
  split; [apply H1; by right|].
  destruct (H2 eq_refl) as (e & He & Hguard).
  { cbn. rewrite not_elem_of_cons. split; [done|apply not_elem_of_nil]. }
  exists e. split; [exact He|]. apply Hguard.
  cbn. split; [reflexivity|]. split; [done|].
  eexists. split; [vm_compute; reflexivity|reflexivity].
Defined.

(** A call that answers has passed every guard. *)
Lemma completeServiceRequestMechanic_sent io user id db r' :
  (completeServiceRequestMechanic io user id db).2 = Sent r' ->
  exists u r,
    user = Some u /\ u <> ""
    /\ service_requests db !! id = Some r /\ mechanic_id r = u
    /\ status r = in_progress /\ updateError io = false.
Proof.
  unfold completeServiceRequestMechanic, require_user. unfold_queries.
  destruct user as [u|]; [|done].
  destruct (String.eqb_spec u ""); [done|]. monad_simpl.
  destruct (service_requests db !! id) as [r|] eqn:?; monad_simpl; [|done].
  destruct (bool_decide_reflect (mechanic_id r = u)); monad_simpl; [|done].
  destruct (bool_decide_reflect (status r = in_progress)); monad_simpl; [|done].
  destruct (updateError io) eqn:?; monad_simpl; [done|].
  intros _. by exists u, r.
Qed.

Lemma completeServiceRequest_sent io user id body db r' :
  (completeServiceRequest io user id body db).2 = Sent r' ->
  exists u r M L k,
    user = Some u /\ u <> "" /\ valid_completion body M L k
    /\ service_requests db !! id = Some r /\ customer_id r = u
    /\ status r = in_progress /\ updateError io = false.
Proof.
  unfold completeServiceRequest, require_user. unfold_queries.
  destruct user as [u|]; [|done].
  destruct (String.eqb_spec u ""); [done|]. monad_simpl.
  destruct (Js.truthy (b_material_cost body)) eqn:?; monad_simpl; [|done].
  destruct (Js.truthy (b_labor_cost body)) eqn:?; monad_simpl; [|done].
  destruct (Js.truthy (b_rating body)) eqn:?; monad_simpl; [|done].
  destruct (Js.parseFloat (b_material_cost body)) as [M|] eqn:?; monad_simpl; [|done].
  destruct (Js.parseFloat (b_labor_cost body)) as [L|] eqn:?; monad_simpl; [|done].
  destruct (Js.parseInt (b_rating body)) as [k|] eqn:?; monad_simpl; [|done].
  destruct (k <? 1)%Z eqn:?; monad_simpl; [done|].
  destruct (5 <? k)%Z eqn:?; monad_simpl; [done|].
  destruct (service_requests db !! id) as [r|] eqn:?; monad_simpl; [|done].
  destruct (bool_decide_reflect (customer_id r = u)); monad_simpl; [|done].
  destruct (bool_decide_reflect (status r = in_progress)); monad_simpl; [|done].
  destruct (updateError io) eqn:?; monad_simpl; [done|].
  intros _. exists u, r, M, L, k. unfold valid_completion.
  repeat split; try done; lia.
Qed.

(** ** Invariants *)

Lemma reachable_invariant (P : Db -> Prop) :
  (forall db, initial db -> P db) ->
  (forall db db', P db -> transition db db' -> P db') ->
  forall db, reachable db -> P db.
Proof.
  intros Hinit Hstep db H. induction H as [db H|db io c H IH].
  - by apply Hinit.
  - apply (Hstep db); [done|apply handle_transition].
Qed.




Lemma legal_update_confirmed r u :
  legal_update r u ->
  status (apply_update u r) = completed ->
  mechanic_confirmed (apply_update u r) = true
  /\ customer_confirmed (apply_update u r) = true.
Proof.
  destruct 1; cbn; try done.
  - destruct (mechanic_confirmed r); cbn; intros; split; congruence.
  - destruct (customer_confirmed r); cbn; intros; split; congruence.
Qed.

Lemma completed_rows_confirmed_step db db' :
  completed_rows_confirmed db -> transition db db' -> completed_rows_confirmed db'.
Proof.
  intros Hinv (Hreq & _ & _) id r Hr Hdone.
  destruct Hreq as [Hsame|id0 row Hnone Hfresh _ Hins|id0 r0 u Hr0 Hlegal Hupd].
  - rewrite Hsame in Hr. by apply (Hinv id).
  - rewrite Hins in Hr. apply lookup_insert_Some in Hr as [[<- <-]|[_ Hr]].
    + destruct Hfresh as (Hp & _). congruence.
    + by apply (Hinv id).
  - rewrite Hupd in Hr. apply lookup_insert_Some in Hr as [[<- <-]|[_ Hr]].
    + by apply legal_update_confirmed.
    + by apply (Hinv id).
Qed.

Lemma completed_rows_confirmed_reachable db :
  reachable db -> completed_rows_confirmed db.
Proof.
  apply reachable_invariant; [|apply completed_rows_confirmed_step].
  intros db0 (Hempty & _) id r Hr. rewrite Hempty in Hr. done.
Qed.


Lemma customer_confirmed_db_lookup :
  service_requests Scenario.customer_confirmed_db !! "request-1"
  = Some Scenario.customer_confirmed_row.
Proof. vm_compute. reflexivity. Qed.



(** ** At most one commission row per request *)

Lemma filter_app_one {A} (f : A -> bool) (l : list A) (x : A) :
  List.filter f (l ++ [x]) = (List.filter f l ++ (if f x then [x] else []))%list.
Proof. rewrite List.filter_app. cbn. by destruct (f x). Qed.

Lemma commission_for_other id id' m c :
  id <> id' -> is_commission_for id (commission_transaction m c id') = false.
Proof.
  intros Hne. unfold is_commission_for. cbn.
  rewrite bool_decide_eq_false_2; [done|]. congruence.
Qed.

Lemma withdrawal_is_no_commission id user w details :
  is_commission_for id (withdrawal_transaction user w details) = false.
Proof. done. Qed.

Lemma single_None_short {A} (l : list A) :
  single l = None -> (length l <= 1)%nat -> l = [].
Proof. destruct l as [|x [|y l]]; cbn; intros; (done || lia). Qed.

Lemma at_most_one_commission_step db db' :
  at_most_one_commission db -> transition db db' -> at_most_one_commission db'.
Proof.
  intros Hinv (_ & Hwallet & _) id. unfold commissions_for.
  destruct Hwallet as [user g Htx _ _|user g w details Htx _ _
                      |user g id0 r r' L Htx _ _ Hnone _ _ _ _ _ _];
    rewrite Htx.
  - apply Hinv.
  - rewrite filter_app_one, withdrawal_is_no_commission, app_nil_r. apply Hinv.
  - rewrite filter_app_one. destruct (decide (id = id0)) as [->|Hne].
    + rewrite (single_None_short _ Hnone (Hinv id0)). case_match; cbn; lia.
    + rewrite commission_for_other by done. rewrite app_nil_r. apply Hinv.
Qed.

Lemma at_most_one_commission_reachable db :
  reachable db -> at_most_one_commission db.
Proof.
  apply reachable_invariant; [|apply at_most_one_commission_step].
  intros db0 (_ & Hempty & _) id. unfold commissions_for. rewrite Hempty. cbn. lia.
Qed.

Lemma settle_skips m L id db t :
  single (List.filter (is_commission_for id) (wallet_transactions db)) = Some t ->
  settle m L id db = db.
Proof. intros H. unfold settle. by rewrite H. Qed.

(** C3 (idempotent commission, calls served one after the other).  In
    every reachable store at most one [commission_deduction] row references
    a given request.  In any store, reachable or not, in which the ledger
    holds the commission row of a request: no completion attempt, by
    whomever and whatever its outcome, appends a ledger row or changes a
    wallet balance; and when the request is in progress and the other party
    has confirmed, the completion of its customer and the completion of
    its provider pass every guard, set the request to [completed], find
    the row and leave ledger and balances as they were. *)
Theorem commission_at_most_once :
  (forall db id, reachable db -> (commissions_for id db <= 1)%nat)
  /\ (forall db id t,
        single (List.filter (is_commission_for id) (wallet_transactions db)) = Some t ->
        (forall io user body,
           let db' := (completeServiceRequest io user id body db).1 in
           wallet_transactions db' = wallet_transactions db
           /\ forall m, wallet_balance <$> (mechanic_profiles db' !! m)
                        = wallet_balance <$> (mechanic_profiles db !! m))
        /\ (forall io user,
              let db' := (completeServiceRequestMechanic io user id db).1 in
              wallet_transactions db' = wallet_transactions db
              /\ mechanic_profiles db' = mechanic_profiles db)
        /\ (forall io r,
              service_requests db !! id = Some r -> status r = in_progress ->
              updateError io = false ->
              (forall body M L k,
                 customer_id r <> "" -> valid_completion body M L k ->
                 mechanic_confirmed r = true ->
                 exists r',
                   (completeServiceRequest io (Some (customer_id r)) id body db).2
                   = Sent r'
                   /\ status r' = completed)
              /\ (mechanic_id r <> "" -> customer_confirmed r = true ->
                  exists r',
                    (completeServiceRequestMechanic io (Some (mechanic_id r)) id db).2
                    = Sent r'
                    /\ status r' = completed))).
Proof.
  split; [intros db id Hreach; by apply at_most_one_commission_reachable|].
  intros db id t Hfound. split; [|split].
  - intros io user body db'. subst db'.
    destruct (completeServiceRequest_cases io user id body db)
      as [->|(u & r & M & L & k & -> & Hu & Hvalid & Hr & Hc & Hs & Hupd)];
      [done|].
    rewrite (completeServiceRequest_exec io u id body db r M L k) by done.
    cbn [fst]. rewrite rate_transactions.
    assert ((if mechanic_confirmed r
             then settle (mechanic_id r) L id
                    (update_row id
                       (customer_update (now io) (mechanic_confirmed r) M L k
                          (b_review body)) db)
             else update_row id
                    (customer_update (now io) (mechanic_confirmed r) M L k
                       (b_review body)) db)
            = update_row id
                (customer_update (now io) (mechanic_confirmed r) M L k (b_review body))
                db) as ->.
    { destruct (mechanic_confirmed r); [|done]. by apply (settle_skips _ _ _ _ t). }
    split; [done|]. intros m. by rewrite rate_balance.
  - intros io user db'. subst db'.
    destruct (completeServiceRequestMechanic_cases io user id db)
      as [->|(u & r & -> & Hu & Hr & Hm & Hs & Hupd)]; [done|].
    rewrite (completeServiceRequestMechanic_exec io u id db r) by done.
    cbn [fst]. case_match; [|done].
    by rewrite (settle_skips _ _ _ _ t).
  - intros io r Hr Hs Hupd. split.
    + intros body M L k Hu Hvalid Hmc.
      rewrite (completeServiceRequest_exec io _ id body db r M L k) by done.
      cbn [snd]. rewrite Hmc. by eexists.
    + intros Hu Hcc.
      rewrite (completeServiceRequestMechanic_exec io _ id db r) by done.
      cbn [snd]. rewrite Hcc. by eexists.
Qed.

Lemma reachable_settled_db : reachable Scenario.settled_db.
Proof. do 3 apply reachable_serve. apply reachable_start. Qed.

Lemma recorded_db_lookup :
  service_requests Scenario.recorded_db !! "request-1"
  = Some (apply_update (mechanic_update Scenario.clock false) Scenario.in_progress_row).
Proof. vm_compute. reflexivity. Qed.

Lemma recorded_customer_db_lookup :
  service_requests Scenario.recorded_customer_db !! "request-1"
  = Some Scenario.customer_confirmed_row.
Proof. vm_compute. reflexivity. Qed.

Lemma recorded_db_commission :
  single (List.filter (is_commission_for "request-1")
            (wallet_transactions Scenario.recorded_db))
  = Some (commission_transaction "mechanic-1" (100 * 0.15) "request-1").
Proof. vm_compute. reflexivity. Qed.

Lemma recorded_customer_db_commission :
  single (List.filter (is_commission_for "request-1")
            (wallet_transactions Scenario.recorded_customer_db))
  = Some (commission_transaction "mechanic-1" (100 * 0.15) "request-1").
Proof. vm_compute. reflexivity. Qed.

(** After the settlement of the scenario there is one commission row; and
    on the stores that hold the row of the request in progress, the
    customer's completion and the provider's both finalize the request
    and leave the one row and the empty wallet as they are. *)
Lemma commission_at_most_once_witness :
  (commissions_for "request-1" Scenario.settled_db <= 1)%nat
  /\ (exists r',
        (completeServiceRequest (Scenario.io "request-1") (Some "customer-1")
           "request-1" (Scenario.priced (Js.Number 50) (Js.Number 100) 5)
           Scenario.recorded_db).2 = Sent r'
        /\ status r' = completed)
  /\ wallet_transactions
       (completeServiceRequest (Scenario.io "request-1") (Some "customer-1")
          "request-1" (Scenario.priced (Js.Number 50) (Js.Number 100) 5)
          Scenario.recorded_db).1
     = wallet_transactions Scenario.recorded_db
  /\ (exists r',
        (completeServiceRequestMechanic (Scenario.io "request-1") (Some "mechanic-1")
           "request-1" Scenario.recorded_customer_db).2 = Sent r'
        /\ status r' = completed)
  /\ wallet_transactions
       (completeServiceRequestMechanic (Scenario.io "request-1") (Some "mechanic-1")
          "request-1" Scenario.recorded_customer_db).1
     = wallet_transactions Scenario.recorded_customer_db
  /\ mechanic_profiles
       (completeServiceRequestMechanic (Scenario.io "request-1") (Some "mechanic-1")
          "request-1" Scenario.recorded_customer_db).1
     = mechanic_profiles Scenario.recorded_customer_db.
Proof.
  destruct commission_at_most_once as [Hinvariant Hfound].
  split; [exact (Hinvariant Scenario.settled_db "request-1" reachable_settled_db)|].
  destruct (Hfound Scenario.recorded_db "request-1" _ recorded_db_commission)
    as (Hcustomer & _ & Hfinal).
  destruct (Hfound Scenario.recorded_customer_db "request-1" _
              recorded_customer_db_commission)
    as (_ & Hprovider & Hfinal').
  destruct (Hfinal (Scenario.io "request-1") _ recorded_db_lookup eq_refl eq_refl)
    as [Hcompletes _].
  destruct (Hfinal' (Scenario.io "request-1") _ recorded_customer_db_lookup
              eq_refl eq_refl) as [_ Hcompletes'].
  split.
  { apply (Hcompletes (Scenario.priced (Js.Number 50) (Js.Number 100) 5) 50 100 5%Z).
    - intros H. discriminate H.
    - unfold valid_completion. repeat split; try reflexivity; lia.
    - reflexivity. }
  split.
  { exact (proj1 (Hcustomer (Scenario.io "request-1") (Some "customer-1")
                    (Scenario.priced (Js.Number 50) (Js.Number 100) 5))). }
  split.
  { apply Hcompletes'.
    - intros H. discriminate H.
    - reflexivity. }
  exact (Hprovider (Scenario.io "request-1") (Some "mechanic-1")).
Defined.

(** ** The balance and the ledger *)

Lemma total_app f l l' : total f (l ++ l') == total f l + total f l'.
Proof.
  induction l as [|t l IH]; cbn.
  - by rewrite Qplus_0_l.
  - rewrite IH. apply Qplus_assoc.
Qed.

Lemma rows_of_app_one user rows t :
  rows_of user (rows ++ [t])
  = (rows_of user rows ++ (if bool_decide (user_id t = user) then [t] else []))%list.
Proof. unfold rows_of. by rewrite filter_app_one. Qed.

Lemma ledger_sum_app_own user rows t :
  user_id t = user ->
  ledger_sum user (rows ++ [t]) == ledger_sum user rows + amount t.
Proof.
  intros H. unfold ledger_sum. rewrite rows_of_app_one, bool_decide_eq_true_2 by done.
  rewrite total_app. cbn. by rewrite Qplus_0_r.
Qed.

Lemma settled_labor_app_own user rows t :
  user_id t = user ->
  settled_labor user (rows ++ [t]) == settled_labor user rows + commissioned_labor t.
Proof.
  intros H. unfold settled_labor. rewrite rows_of_app_one, bool_decide_eq_true_2 by done.
  rewrite total_app. cbn. by rewrite Qplus_0_r.
Qed.

Lemma rows_of_app_other user rows t :
  user_id t <> user -> rows_of user (rows ++ [t]) = rows_of user rows.
Proof.
  intros H. rewrite rows_of_app_one, bool_decide_eq_false_2 by done.
  apply app_nil_r.
Qed.

Lemma balance_accounted_step db db' :
  balance_accounted db -> transition db db' -> balance_accounted db'.
Proof.
  intros Hinv (_ & Hwallet & _) user p' Hp'.
  destruct Hwallet as [user0 g Htx Hprof Hg|user0 g w details Htx Hprof Hg
                      |user0 g id0 r r' L Htx Hprof Hg _ _ _ _ _ _ _];
    rewrite Htx; rewrite Hprof in Hp';
    (destruct (decide (user0 = user)) as [->|Hne];
     [apply lookup_alter_Some in Hp' as [(_ & p & Hp & ->)|[? _]]; [|done]
     |rewrite lookup_alter_ne in Hp' by done]).
  - rewrite (Hg p Hp). by apply Hinv.
  - by apply Hinv.
  - rewrite (Hg p Hp). cbn [Js.or_zero].
    rewrite ledger_sum_app_own, settled_labor_app_own by done.
    rewrite (Hinv user p Hp). cbn. ring.
  - unfold ledger_sum, settled_labor. rewrite rows_of_app_other by done.
    by apply Hinv.
  - rewrite (Hg p Hp). cbn [Js.or_zero].
    rewrite ledger_sum_app_own, settled_labor_app_own by done.
    rewrite (Hinv user p Hp). cbn. field.
  - unfold ledger_sum, settled_labor. rewrite rows_of_app_other by done.
    by apply Hinv.
Qed.

Lemma balance_accounted_reachable db : reachable db -> balance_accounted db.
Proof.
  apply reachable_invariant; [|apply balance_accounted_step].
  intros db0 (_ & Hempty & Hzero) user p Hp. rewrite Hempty. cbn.
  destruct (Hzero user p Hp) as [-> | ->]; reflexivity.
Qed.

Lemma is_commission_for_reference id t :
  is_commission_for id t = true -> reference_id t = Some id.
Proof.
  unfold is_commission_for. rewrite !andb_true_iff.
  intros [[H _] _]. by apply bool_decide_eq_true in H.
Qed.

Lemma commissions_on_completed_step db db' :
  commissions_on_completed db -> transition db db' -> commissions_on_completed db'.
Proof.
  intros Hinv (Hreq & Hwallet & _) t id Hin Hcomm.
  assert (In t (wallet_transactions db) ->
          exists r L,
            service_requests db' !! id = Some r /\ status r = completed
            /\ user_id t = mechanic_id r
            /\ labor_cost r = Some L /\ amount t = - (L * 0.15)) as Hold.
  { intros Hin0. destruct (Hinv t id Hin0 Hcomm) as (r & L & Hr & Hs & Hrest).
    exists r, L. split; [|done]. apply (terminal_row_kept db); auto. }
  destruct Hwallet as [user g Htx _ _|user g w details Htx _ _
                      |user g id0 r r' L Htx _ _ _ Hr Hs Hm Hr' Hs' HL];
    rewrite Htx in Hin; try (apply in_app_or in Hin as [Hin|[<-|[]]]); auto.
  - by rewrite withdrawal_is_no_commission in Hcomm.
  - apply is_commission_for_reference in Hcomm. cbn in Hcomm.
    injection Hcomm as <-. exists r', L. repeat split; try done. cbn.
    destruct Hreq as [Hsame|id1 row Hnone _ _ Hins|id1 r1 u Hr1 Hlegal Hupd].
    + rewrite Hsame in Hr'. congruence.
    + rewrite Hins in Hr'. apply lookup_insert_Some in Hr' as [[<- _]|[_ Hr']];
        congruence.
    + rewrite Hupd in Hr'. apply lookup_insert_Some in Hr' as [[<- <-]|[_ Hr']].
      * assert (r1 = r) as -> by congruence. by destruct Hlegal.
      * congruence.
Qed.

Lemma commissions_on_completed_reachable db :
  reachable db -> commissions_on_completed db.
Proof.
  apply reachable_invariant; [|apply commissions_on_completed_step].
  intros db0 (_ & Hempty & _) t id Hin. rewrite Hempty in Hin. done.
Qed.

Lemma mechanics_have_profiles_step db db' :
  mechanics_have_profiles db -> transition db db' -> mechanics_have_profiles db'.
Proof.
  intros Hinv (Hreq & Hwallet & _) id r Hr.
  assert (forall m, is_Some (mechanic_profiles db !! m) ->
                    is_Some (mechanic_profiles db' !! m)) as Hkeep.
  { intros m [p Hp].
    destruct Hwallet as [user g _ Hprof _|user g w details _ Hprof _
                        |user g id0 r0 r' L _ Hprof _ _ _ _ _ _ _ _];
      rewrite Hprof; (destruct (decide (user = m)) as [->|Hne];
                      [rewrite (alter_lookup_eq _ _ _ p Hp)
                      |rewrite lookup_alter_ne by done]); eauto. }
  apply Hkeep.
  destruct Hreq as [Hsame|id0 row Hnone _ Hprof Hins|id0 r0 u Hr0 Hlegal Hupd].
  - rewrite Hsame in Hr. by apply (Hinv id).
  - rewrite Hins in Hr. apply lookup_insert_Some in Hr as [[<- <-]|[_ Hr]];
      [done|by apply (Hinv id)].
  - rewrite Hupd in Hr. apply lookup_insert_Some in Hr as [[<- <-]|[_ Hr]];
      [exact (Hinv id0 r0 Hr0)|by apply (Hinv id)].
Qed.

Lemma mechanics_have_profiles_reachable db :
  reachable db -> mechanics_have_profiles db.
Proof.
  apply reachable_invariant; [|apply mechanics_have_profiles_step].
  intros db0 (Hempty & _) id r Hr. rewrite Hempty in Hr. done.
Qed.

(** C1, refuted as stated: after one settlement of 100.00 of labor the
    wallet holds 85.00 while the only ledger row is the commission of
    -15.00. *)
Lemma balance_differs_from_ledger_sum :
  ~ (forall db, reachable db ->
       forall user p, mechanic_profiles db !! user = Some p ->
         Js.or_zero (wallet_balance p)
         == ledger_sum user (wallet_transactions db)).
Proof.
  intros H.
  destruct (mechanic_profiles Scenario.settled_db !! "mechanic-1") as [p|] eqn:Hp;
    [|by vm_compute in Hp].
  specialize (H Scenario.settled_db reachable_settled_db "mechanic-1" p Hp).
  vm_compute in Hp. injection Hp as <-. vm_compute in H. discriminate.
Qed.

Lemma commission_row_labor t L :
  transaction_type t = commission_deduction ->
  amount t = - (L * 0.15) ->
  commissioned_labor t == L.
Proof.
  intros Htype Hamount. unfold commissioned_labor. rewrite Htype, Hamount. field.
Qed.

(** C1, amended.  In every store reached by serving calls one after the
    other from a store with no request, no ledger row and empty wallets, a
    provider's [wallet_balance] is the sum of [amount] over the provider's
    ledger rows plus the labor cost of the provider's settled requests: a
    withdrawal moves the balance and the ledger by the same amount, whereas
    a settlement credits [labor_cost - 0.15 * labor_cost] to the balance and
    records only the commission row of [- 0.15 * labor_cost], which
    references a completed request of that provider. *)
Theorem balance_is_ledger_plus_settled_labor (db : Db) (user : string)
    (p : MechanicProfile) :
  reachable db ->
  mechanic_profiles db !! user = Some p ->
  Js.or_zero (wallet_balance p)
  == ledger_sum user (wallet_transactions db)
     + settled_labor user (wallet_transactions db)
  /\ forall t id,
       In t (wallet_transactions db) -> is_commission_for id t = true ->
       exists r L,
         service_requests db !! id = Some r /\ status r = completed
         /\ user_id t = mechanic_id r
         /\ labor_cost r = Some L /\ amount t = - (L * 0.15)
         /\ commissioned_labor t == L.
Proof.
  intros Hreach Hp. split; [by apply balance_accounted_reachable|].
  intros t id Hin Hcomm.
  destruct (commissions_on_completed_reachable db Hreach t id Hin Hcomm)
    as (r & L & Hr & Hs & Hu & HL & Hamount).
  exists r, L. repeat split; try done.
  apply commission_row_labor; [|done].
  unfold is_commission_for in Hcomm. rewrite !andb_true_iff in Hcomm.
  destruct Hcomm as [_ H]. by apply bool_decide_eq_true in H.
Qed.

Lemma settled_db_profile :
  mechanic_profiles Scenario.settled_db !! "mechanic-1"
  = Some (set_rating (rounded_average [5%Z])
            (set_wallet_balance (0 + (100 - 100 * 0.15)) (Scenario.profile 0))).
Proof. vm_compute. reflexivity. Qed.

Lemma balance_is_ledger_plus_settled_labor_witness :
  0 + (100 - 100 * 0.15)
  == ledger_sum "mechanic-1" (wallet_transactions Scenario.settled_db)
     + settled_labor "mechanic-1" (wallet_transactions Scenario.settled_db).
Proof.
  exact (proj1 (balance_is_ledger_plus_settled_labor Scenario.settled_db "mechanic-1" _
                  reachable_settled_db settled_db_profile)).
Defined.

(** ** The settlement at the moment of completion *)

Lemma no_commission_yet db id r :
  reachable db ->
  service_requests db !! id = Some r ->
  status r <> completed ->
  List.filter (is_commission_for id) (wallet_transactions db) = [].
Proof.
  intros Hreach Hr Hs.
  destruct (List.filter (is_commission_for id) (wallet_transactions db))
    as [|t l] eqn:Hfilter; [done|].
  assert (In t (List.filter (is_commission_for id) (wallet_transactions db))) as Hin
    by (rewrite Hfilter; by left).
  apply filter_In in Hin as [Hin Hcomm].
  destruct (commissions_on_completed_reachable db Hreach t id Hin Hcomm)
    as (r0 & L & Hr0 & Hs0 & _).
  congruence.
Qed.

Lemma settle_runs m L id db p :
  List.filter (is_commission_for id) (wallet_transactions db) = [] ->
  mechanic_profiles db !! m = Some p ->
  settle m L id db
  = set_wallet_transactions
      (wallet_transactions db ++ [commission_transaction m (L * 0.15) id])
      (set_mechanic_profiles
         (alter (set_wallet_balance (Js.or_zero (wallet_balance p) + (L - L * 0.15)))
            m (mechanic_profiles db))
         db).
Proof. intros Hnone Hp. unfold settle. by rewrite Hnone, Hp. Qed.

(** C2: the customer prices the labor with the string ["0"] and the
    provider confirms last.  The request becomes [completed], yet the
    provider's handler runs no settlement: no commission row is appended
    and the customer gets no "Service Completed" notification, because the
    guard [updateData.status === 'completed' && serviceRequest.labor_cost]
    takes the labor cost 0 for a missing one.  With the same prices and the
    customer confirming last, the customer's handler does settle: it
    appends the commission row, of amount zero. *)
Theorem zero_labor_completion_has_no_commission_row :
  let provider_last :=
    (completeServiceRequestMechanic (Scenario.io "request-1") Scenario.mechanic
       "request-1" Scenario.zero_labor_db).1 in
  let customer_last :=
    (completeServiceRequest (Scenario.io "request-1") Scenario.customer "request-1"
       (Scenario.priced (Js.Number 50) (Js.String "0") 5)
       Scenario.mechanic_confirmed_db).1 in
  reachable Scenario.zero_labor_db
  /\ wallet_transactions provider_last = []
  /\ notifications provider_last = notifications Scenario.zero_labor_db
  /\ (exists r' L,
        service_requests provider_last !! "request-1" = Some r'
        /\ status r' = completed /\ labor_cost r' = Some L /\ L == 0)
  /\ (exists r' L t,
        service_requests customer_last !! "request-1" = Some r'
        /\ status r' = completed /\ labor_cost r' = Some L /\ L == 0
        /\ wallet_transactions customer_last = [t]
        /\ transaction_type t = commission_deduction
        /\ reference_id t = Some "request-1"
        /\ amount t == 0).
Proof.
  split; [do 2 apply reachable_serve; apply reachable_start|].
  vm_compute. split; [reflexivity|]. split; [reflexivity|]. split.
  - eexists _, _. repeat split; reflexivity.
  - eexists _, _, _. repeat split; reflexivity.
Qed.



(** ** The rating *)

Lemma two_requests_db_row :
  service_requests Scenario.two_requests_db !! "request-2"
  = Some Scenario.completed_row.
Proof. vm_compute. reflexivity. Qed.

Lemma two_requests_db_profile :
  mechanic_profiles Scenario.two_requests_db !! mechanic_id Scenario.completed_row
  = Some Scenario.two_requests_profile.
Proof. vm_compute. reflexivity. Qed.

Lemma two_requests_db_ratings :
  Js.or_zero (rating Scenario.two_requests_profile) == 3
  /\ completed_mean_rating (mechanic_id Scenario.completed_row)
       (service_requests Scenario.two_requests_db) == 5.
Proof. split; vm_compute; reflexivity. Qed.

Lemma reachable_two_requests_db : reachable Scenario.two_requests_db.
Proof.
  unfold Scenario.two_requests_db. apply reachable_serve. apply reachable_start.
Qed.

(** C8, refuted as stated: the provider has one completed request, rated
    five, and one request in progress that the customer has rated one; the
    stored rating is 3.0, the mean over the completed requests is 5.0. *)
Lemma rating_counts_requests_in_progress :
  ~ (forall db, reachable db ->
       forall id r p,
         service_requests db !! id = Some r ->
         status r = completed -> is_Some (customer_rating r) ->
         mechanic_profiles db !! mechanic_id r = Some p ->
         Js.or_zero (rating p)
         == completed_mean_rating (mechanic_id r) (service_requests db)).
Proof.
  intros H.
  pose proof (H Scenario.two_requests_db reachable_two_requests_db "request-2"
                Scenario.completed_row Scenario.two_requests_profile
                two_requests_db_row eq_refl (mk_is_Some _ _ eq_refl)
                two_requests_db_profile) as Hclaim.
  destruct two_requests_db_ratings as [H3 H5].
  rewrite H3, H5 in Hclaim. vm_compute in Hclaim. discriminate Hclaim.
Qed.

(** *** The rated requests of a provider, up to the order of the rows *)

Lemma sum_ratings_from (l : list Z) (a : Z) :
  fold_left (fun sum r => (sum + r)%Z) l a = (a + sum_ratings l)%Z.
Proof.
  unfold sum_ratings. revert a. induction l as [|x l IH]; intros a; cbn.
  - lia.
  - rewrite (IH (a + x)%Z), (IH (0 + x)%Z). lia.
Qed.

Lemma sum_ratings_cons x l : sum_ratings (x :: l) = (x + sum_ratings l)%Z.
Proof. unfold sum_ratings at 1. cbn. apply sum_ratings_from. Qed.

Lemma sum_ratings_perm l l' : l ≡ₚ l' -> sum_ratings l = sum_ratings l'.
Proof.
  induction 1 as [|x l l' _ IH|x y l|l l' l'' _ IH1 _ IH2].
  - done.
  - by rewrite !sum_ratings_cons, IH.
  - rewrite !sum_ratings_cons. lia.
  - congruence.
Qed.

Lemma rounded_average_perm l l' : l ≡ₚ l' -> rounded_average l = rounded_average l'.
Proof.
  intros H. unfold rounded_average.
  by rewrite (sum_ratings_perm l l' H), (Permutation_length H).
Qed.

Lemma ratings_of_insert m (requests : gmap string ServiceRequest) id row :
  requests !! id = None ->
  ratings_of m (<[id := row]> requests)
  ≡ₚ omap (rating_of m) [(id, row)] ++ ratings_of m requests.
Proof.
  intros H. unfold ratings_of. rewrite (map_to_list_insert _ _ _ H). cbn.
  by destruct (rating_of m (id, row)).
Qed.

Lemma ratings_of_update m (requests : gmap string ServiceRequest) id r r' :
  requests !! id = Some r ->
  rating_of m (id, r') = rating_of m (id, r) ->
  ratings_of m (<[id := r']> requests) ≡ₚ ratings_of m requests.
Proof.
  intros Hr Hsame. rewrite <- insert_delete_eq.
  rewrite ratings_of_insert by apply lookup_delete_eq.
  unfold ratings_of at 2. rewrite <- (map_to_list_delete _ _ _ Hr).
  cbn. rewrite Hsame. by destruct (rating_of m (id, r)).
Qed.

Lemma ratings_of_alter m (requests : gmap string ServiceRequest) id r u :
  requests !! id = Some r ->
  u_customer_rating u = None ->
  ratings_of m (alter (apply_update u) id requests) ≡ₚ ratings_of m requests.
Proof.
  intros Hr Hu. rewrite (alter_as_insert _ _ _ r Hr).
  apply (ratings_of_update m requests id r); [done|].
  unfold rating_of. cbn. by rewrite Hu.
Qed.

Lemma rating_effect_quiet db db' user g :
  (forall m, ratings_of m (service_requests db') ≡ₚ ratings_of m (service_requests db)) ->
  mechanic_profiles db' = alter g user (mechanic_profiles db) ->
  (forall p, rating (g p) = rating p) ->
  rating_effect db db'.
Proof.
  intros Hperm Hprof Hg m p' Hp'. right. rewrite Hprof in Hp'.
  destruct (decide (user = m)) as [->|Hne].
  - apply lookup_alter_Some in Hp' as [(_ & p & Hp & ->)|[? _]]; [|done].
    exists p. by rewrite Hg.
  - rewrite lookup_alter_ne in Hp' by done. by exists p'.
Qed.

Lemma rating_effect_same db db' :
  service_requests db' = service_requests db ->
  mechanic_profiles db' = mechanic_profiles db ->
  rating_effect db db'.
Proof.
  intros Hr Hp. apply (rating_effect_quiet db db' "" (fun p => p)); [| |done].
  - intros m. by rewrite Hr.
  - rewrite Hp. symmetry. by apply alter_id.
Qed.

Lemma rating_effect_update db db' id r u :
  service_requests db !! id = Some r ->
  u_customer_rating u = None ->
  service_requests db' = alter (apply_update u) id (service_requests db) ->
  mechanic_profiles db' = mechanic_profiles db ->
  rating_effect db db'.
Proof.
  intros Hr Hu Hreq Hp. apply (rating_effect_quiet db db' "" (fun p => p)); [| |done].
  - intros m. rewrite Hreq. by apply (ratings_of_alter m _ id r).
  - rewrite Hp. symmetry. by apply alter_id.
Qed.

Lemma rating_current_step db db' :
  rating_current db -> rating_effect db db' -> rating_current db'.
Proof.
  intros Hinv Heff m p' Hp' Hrated.
  destruct (Heff m p' Hp') as [[Hnew _]|(p & Hp & Hsame & Hperm)]; [done|].
  rewrite Hsame, (rounded_average_perm _ _ Hperm). apply Hinv; [done|].
  intros Hnil. rewrite Hnil in Hperm. by apply Permutation_nil_r in Hperm.
Qed.

(** *** Every call recomputes the rating or leaves it alone *)

Ltac rating_unchanged := by (apply rating_effect_same).

Ltac rating_kept_by_update :=
  eapply rating_effect_update; [eassumption| |reflexivity|reflexivity]; reflexivity.

Lemma cancel_rating io user id db :
  rating_effect db (cancelServiceRequest io user id db).1.
Proof.
  unfold cancelServiceRequest, require_user. unfold_queries.
  explore; try rating_unchanged.
  all: rating_kept_by_update.
Qed.

Lemma accept_rating io user id db :
  rating_effect db (acceptServiceRequest io user id db).1.
Proof.
  unfold acceptServiceRequest, require_user. unfold_queries.
  explore; try rating_unchanged.
  all: rating_kept_by_update.
Qed.

Lemma decline_rating io user id db :
  rating_effect db (declineServiceRequest io user id db).1.
Proof.
  unfold declineServiceRequest, require_user. unfold_queries.
  explore; try rating_unchanged.
  all: rating_kept_by_update.
Qed.

Lemma arrive_rating io user id db :
  rating_effect db (markArrived io user id db).1.
Proof.
  unfold markArrived, require_user. unfold_queries.
  explore; try rating_unchanged.
  all: rating_kept_by_update.
Qed.

Lemma toggle_rating io user db :
  rating_effect db (toggleAvailability io user db).1.
Proof.
  unfold toggleAvailability, require_user. unfold_queries.
  explore; try rating_unchanged.
  all: by eapply rating_effect_quiet.
Qed.

Lemma withdraw_rating io user body db :
  rating_effect db (withdrawFromWallet io user body db).1.
Proof.
  unfold withdrawFromWallet, require_user. unfold_queries.
  explore; try rating_unchanged.
  - eapply rating_effect_quiet; [done|db_simpl; apply alter_alter_eq|done].
  - by eapply rating_effect_quiet.
Qed.

Lemma create_rating io user body db :
  rating_effect db (createServiceRequest io user body db).1.
Proof.
  unfold createServiceRequest, require_user. unfold_queries.
  explore; try rating_unchanged.
  all: apply (rating_effect_quiet _ _ "" (fun p => p));
    [|db_simpl; symmetry; by apply alter_id|done].
  all: intros mech; db_simpl; rewrite ratings_of_insert;
    [unfold rating_of; cbn; by case_bool_decide|].
  all: match goal with
       | H : ¬ is_Some ?x |- _ => by destruct x; [destruct H; eauto|]
       end.
Qed.

Lemma settle_profiles m L id db :
  exists g,
    mechanic_profiles (settle m L id db) = alter g m (mechanic_profiles db)
    /\ forall p, rating (g p) = rating p.
Proof.
  destruct (settle_cases m L id db) as [->|(p & _ & _ & ->)].
  - exists (fun p => p). split; [|done]. symmetry. by apply alter_id.
  - eexists. split; [reflexivity|done].
Qed.

Lemma complete_mechanic_rating io user id db :
  rating_effect db (completeServiceRequestMechanic io user id db).1.
Proof.
  destruct (completeServiceRequestMechanic_cases io user id db)
    as [->|(u & r & -> & Hu & Hr & Hm & Hs & Hupd)]; [rating_unchanged|].
  rewrite (completeServiceRequestMechanic_exec io u id db r) by done.
  cbn [fst].
  set (upd := mechanic_update (now io) (customer_confirmed r)).
  assert (forall m, ratings_of m (service_requests (update_row id upd db))
                    ≡ₚ ratings_of m (service_requests db)) as Hperm.
  { intros m. unfold update_row. db_simpl. by apply (ratings_of_alter m _ id r). }
  case_match.
  - destruct (settle_profiles u (Js.or_zero (labor_cost r)) id (update_row id upd db))
      as (g & Hprof & Hg).
    apply (rating_effect_quiet _ _ u g); [|done|done].
    intros m. rewrite notify_requests, settle_requests. apply Hperm.
  - apply (rating_effect_quiet _ _ "" (fun p => p)); [done| |done].
    symmetry. by apply alter_id.
Qed.

Lemma rate_rated m db :
  ratings_of m (service_requests db) <> [] ->
  rate m db
  = set_mechanic_profiles
      (alter (set_rating (rounded_average (ratings_of m (service_requests db)))) m
         (mechanic_profiles db))
      db.
Proof.
  intros H. unfold rate.
  destruct (ratings_of m (service_requests db)) as [|x l] eqn:E; [done|].
  done.
Qed.

(** The row the customer has just rated is among the provider's ratings. *)
Lemma rated_row_counts (requests : gmap string ServiceRequest) id r k :
  requests !! id = Some r ->
  customer_rating r = Some k ->
  k ∈ ratings_of (mechanic_id r) requests.
Proof.
  intros Hr Hk. unfold ratings_of. apply list_elem_of_omap.
  exists (id, r). split; [by apply elem_of_map_to_list|].
  unfold rating_of. cbn. by rewrite bool_decide_eq_true_2.
Qed.

Lemma complete_rating io user id body db :
  rating_effect db (completeServiceRequest io user id body db).1.
Proof.
  destruct (completeServiceRequest_cases io user id body db)
    as [->|(u & r & M & L & k & -> & Hu & Hvalid & Hr & Hc & Hs & Hupd)];
    [rating_unchanged|].
  rewrite (completeServiceRequest_exec io u id body db r M L k) by done.
  cbn [fst].
  set (upd := customer_update (now io) (mechanic_confirmed r) M L k (b_review body)).
  set (db1 := update_row id upd db).
  set (db2 := if mechanic_confirmed r then settle (mechanic_id r) L id db1 else db1).
  assert (service_requests db2 = <[id := apply_update upd r]> (service_requests db))
    as Hreq.
  { subst db2. destruct (mechanic_confirmed r); [rewrite settle_requests|];
      subst db1; unfold update_row; db_simpl; by apply alter_as_insert. }
  assert (exists g, mechanic_profiles db2 = alter g (mechanic_id r) (mechanic_profiles db)
                    /\ forall p, rating (g p) = rating p) as (g & Hprof & Hg).
  { subst db2. destruct (mechanic_confirmed r).
    - apply (settle_profiles (mechanic_id r) L id db1).
    - exists (fun p => p). split; [|done]. symmetry. by apply alter_id. }
  assert (ratings_of (mechanic_id r) (service_requests db2) <> []) as Hrated.
  { intros Hnil.
    assert (k ∈ ratings_of (mechanic_id (apply_update upd r)) (service_requests db2))
      as Hin.
    { apply (rated_row_counts _ id); [|done]. by rewrite Hreq, lookup_insert_eq. }
    cbn [mechanic_id apply_update] in Hin. rewrite Hnil in Hin.
    by apply elem_of_nil in Hin. }
  rewrite (rate_rated _ _ Hrated). intros m p' Hp'. db_simpl.
  destruct (decide (mechanic_id r = m)) as [<-|Hne].
  - left. split; [|done].
    apply lookup_alter_Some in Hp' as [(_ & p & _ & ->)|[? _]]; done.
  - right. rewrite lookup_alter_ne in Hp' by done.
    rewrite Hprof, lookup_alter_ne in Hp' by done.
    exists p'. repeat split; [done|]. rewrite Hreq.
    apply (ratings_of_update m _ id r); [done|].
    unfold rating_of. cbn. by rewrite !bool_decide_eq_false_2.
Qed.

Lemma handle_rating io c db : rating_effect db (handle io c db).1.
Proof.
  destruct c; cbn [handle]; unfold outcome_of; cbn [fst].
  - apply create_rating.
  - apply cancel_rating.
  - apply complete_rating.
  - apply toggle_rating.
  - apply accept_rating.
  - apply decline_rating.
  - apply arrive_rating.
  - apply complete_mechanic_rating.
  - apply withdraw_rating.
Qed.

Lemma rating_current_reachable db : reachable db -> rating_current db.
Proof.
  induction 1 as [db (Hempty & _)|db io c _ IH].
  - intros m p _. rewrite Hempty. unfold ratings_of. by rewrite map_to_list_empty.
  - apply (rating_current_step db); [done|apply handle_rating].
Qed.

(** C8, amended.  In every reachable store, a provider with at least one
    rated request has as [rating] the arithmetic mean of [customer_rating]
    over all of that provider's requests that have a non-null rating,
    whatever their status, rounded to one decimal place (the customer's
    completion recomputes it on every successful call, the provider's
    completion never does); the ratings 4, 5 and 3 give 4.0. *)
Theorem rating_is_mean_of_rated_requests (db : Db) (m : string) (p : MechanicProfile) :
  reachable db ->
  mechanic_profiles db !! m = Some p ->
  ratings_of m (service_requests db) <> [] ->
  rating p = Some (rounded_average (ratings_of m (service_requests db)))
  /\ (forall id r k,
        service_requests db !! id = Some r -> mechanic_id r = m ->
        customer_rating r = Some k ->
        k ∈ ratings_of m (service_requests db))
  /\ (forall k,
        k ∈ ratings_of m (service_requests db) ->
        exists id r,
          service_requests db !! id = Some r /\ mechanic_id r = m
          /\ customer_rating r = Some k)
  /\ rounded_average [4; 5; 3]%Z == 4.
Proof.
  intros Hreach Hp Hrated. split; [by apply rating_current_reachable|].
  split; [|split].
  - intros id r k Hr <- Hk. by apply (rated_row_counts _ id).
  - intros k Hk. unfold ratings_of in Hk.
    apply list_elem_of_omap in Hk as ([id r] & Hin & Hrating).
    apply elem_of_map_to_list in Hin. unfold rating_of in Hrating. cbn in Hrating.
    case_bool_decide; [|done]. by exists id, r.
  - reflexivity.
Qed.

Lemma two_requests_db_rated :
  ratings_of (mechanic_id Scenario.completed_row)
    (service_requests Scenario.two_requests_db) <> [].
Proof. intros E. vm_compute in E. discriminate E. Qed.

Lemma rating_is_mean_of_rated_requests_witness :
  rating Scenario.two_requests_profile
  = Some (rounded_average
            (ratings_of (mechanic_id Scenario.completed_row)
               (service_requests Scenario.two_requests_db))).
Proof.
  exact (proj1 (rating_is_mean_of_rated_requests Scenario.two_requests_db
                  (mechanic_id Scenario.completed_row) Scenario.two_requests_profile
                  reachable_two_requests_db two_requests_db_profile
                  two_requests_db_rated)).
Defined.

(** ** The geospatial matcher *)

Section MatcherLemmas.
Import Matcher.
Local Open Scope R_scope.

(** The distance between a place and itself is zero. *)
Lemma calculateDistance_same (lat lon : R) : calculateDistance lat lon lat lon = 0.
Proof.
  unfold calculateDistance.
  replace ((lat - lat) * PI / 180 / 2) with 0 by lra.
  replace ((lon - lon) * PI / 180 / 2) with 0 by lra.
  rewrite sin_0.
  replace (0 * 0 + cos (lat * PI / 180) * cos (lat * PI / 180) * 0 * 0) with 0 by lra.
  rewrite Rminus_0_r, sqrt_0, sqrt_1. unfold atan2.
  destruct (Rlt_dec 0 1) as [_|H]; [|lra].
  replace (0 / 1) with 0 by lra. rewrite atan_0. lra.
Qed.

Lemma insert_by_distance_perm x l : Permutation (insert_by_distance x l) (x :: l).
Proof.
  induction l as [|y l IH]; cbn; [done|].
  destruct (Rle_dec (distance x) (distance y)); [done|].
  rewrite IH. apply perm_swap.
Qed.

(** Sorting keeps exactly the elements it is given. *)
Lemma sort_by_distance_perm l : Permutation (sort_by_distance l) l.
Proof.
  induction l as [|x l IH]; cbn; [done|].
  rewrite insert_by_distance_perm. by constructor.
Qed.



(** What makes the callback keep a provider. *)
Lemma nearby_of_Some latitude longitude radiusKm search specMap mechanic n :
  nearby_of latitude longitude radiusKm search specMap mechanic = Some n ->
  truthy_coordinate (location_lat (users mechanic)) = true
  /\ truthy_coordinate (location_lng (users mechanic)) = true
  /\ (truthy_str search = true ->
      existsb (fun s => String.eqb (Js.toLowerCase s)
                          (Js.toLowerCase (default "" search)))
        (specs_of specMap (id mechanic)) = true)
  /\ calculateDistance latitude longitude
       (coordinate (location_lat (users mechanic)))
       (coordinate (location_lng (users mechanic))) <= radiusKm
  /\ nearby_id n = id mechanic
  /\ distance n
     = round1 (calculateDistance latitude longitude
                 (coordinate (location_lat (users mechanic)))
                 (coordinate (location_lng (users mechanic)))).
Proof.
  unfold nearby_of.
  destruct (truthy_coordinate (location_lat (users mechanic))); [|done].
  destruct (truthy_coordinate (location_lng (users mechanic))); [|done].
  cbn [negb orb].
  destruct (truthy_str search); cbn [andb].
  - destruct (existsb _ _); cbn [negb]; [|done].
    destruct (Rlt_dec _ _) as [|Hle]; [done|].
    intros [= <-]. cbn. repeat split; try done. lra.
  - destruct (Rlt_dec _ _) as [|Hle]; [done|].
    intros [= <-]. cbn. repeat split; try done. lra.
Qed.

(** C7: the provider in Tema is approved, available, has both coordinates
    stored and stands at distance zero from the customer, yet the answer is
    empty: the presence test [!user?.location_lng] takes the longitude 0 for
    a missing one. *)
Theorem provider_on_the_meridian_is_left_out :
  verification_status tema = approved
  /\ is_available tema = true
  /\ location_lat (users tema) = Some (Q2R 5.6)
  /\ location_lng (users tema) = Some 0
  /\ calculateDistance
       (Q2R (Js.or_zero (Js.parseFloat (q_lat from_tema))))
       (Q2R (Js.or_zero (Js.parseFloat (q_lng from_tema))))
       (Q2R 5.6) 0 = 0
  /\ getNearbyMechanics from_tema [tema] (Some []) = Sent [].
Proof.
  repeat split.
  - destruct (Js.parseFloat (q_lat from_tema)) as [latitude|] eqn:Hlat;
      [|by vm_compute in Hlat].
    destruct (Js.parseFloat (q_lng from_tema)) as [longitude|] eqn:Hlng;
      [|by vm_compute in Hlng].
    vm_compute in Hlat. injection Hlat as <-.
    vm_compute in Hlng. injection Hlng as <-.
    cbn [Js.or_zero].
    match goal with
    | |- calculateDistance (Q2R ?x) (Q2R ?y) _ _ = _ =>
        replace (Q2R x) with (Q2R 5.6) by (apply Qeq_eqR; reflexivity);
        replace (Q2R y) with 0
          by (rewrite <- RMicromega.Q2R_0; apply Qeq_eqR; reflexivity)
    end.
    apply calculateDistance_same.
  - unfold getNearbyMechanics.
    change (Js.truthy (q_lat from_tema)) with true.
    change (Js.truthy (q_lng from_tema)) with true. cbn [negb orb].
    destruct (Js.parseFloat (q_lat from_tema)) as [latitude|] eqn:Hlat;
      [|by vm_compute in Hlat].
    destruct (Js.parseFloat (q_lng from_tema)) as [longitude|] eqn:Hlng;
      [|by vm_compute in Hlng].
    cbn [List.filter verification_status is_available tema Bool.eqb andb].
    rewrite bool_decide_eq_true_2 by done.
    cbn [omap list_omap default from_option q_specialization from_tema andb
         Datatypes.id].
    assert (nearby_of (Q2R latitude) (Q2R longitude)
              (Q2R (radius_of (q_radius from_tema))) None [] tema = None) as ->;
      [|done].
    unfold nearby_of. cbn [users tema location_lat location_lng truthy_coordinate].
    destruct (Req_dec_T 0 0) as [_|Hne]; [|contradiction].
    cbn [negb]. by rewrite orb_true_r.
Qed.

End MatcherLemmas.

(** * Further properties of the handlers *)

(** ** Creating a request and reading it back *)

(** What a call that answered has checked and written. *)
Lemma createServiceRequest_sent io user body db db' id r :
  createServiceRequest io user body db = (db', Sent (id, r)) ->
  exists customer p,
    user = Some customer /\ customer <> ""
    /\ b_mechanic_id body = Some (mechanic_id r) /\ mechanic_id r <> ""
    /\ b_vehicle_id body = Some (vehicle_id r)
    /\ mechanic_profiles db !! mechanic_id r = Some p
    /\ verification_status p = approved /\ is_available p = true
    /\ customer_vehicles db !! vehicle_id r = Some customer
    /\ id = generated_id io /\ service_requests db !! id = None
    /\ customer_id r = customer /\ fresh_row r
    /\ arrived_at r = None /\ completed_at r = None
    /\ db' = notify
               (service_request_notification (mechanic_id r) "New Service Request"
                  "You have a new service request from a customer" id)
               (set_service_requests (<[id := r]> (service_requests db)) db).
Proof.
  unfold createServiceRequest, require_user. unfold_queries.
  destruct user as [customer|]; [|done].
  destruct (String.eqb_spec customer ""); [done|]. monad_simpl.
  destruct (b_mechanic_id body) as [mechanic|]; [|done].
  destruct (b_vehicle_id body) as [vehicle|]; [|done].
  destruct (b_category_id body) as [category|]; [|done].
  destruct (b_problem_description body) as [problem|]; [|done].
  destruct (b_location body) as [location|]; [|done].
  destruct (String.eqb_spec mechanic ""); monad_simpl; [done|].
  destruct (String.eqb vehicle "" || String.eqb category "" || String.eqb problem "");
    monad_simpl; [done|].
  destruct (mechanic_profiles db !! mechanic) as [p|] eqn:Hp; monad_simpl; [|done].
  destruct (bool_decide_reflect (verification_status p = approved)); monad_simpl; [|done].
  destruct (is_available p) eqn:Ha; monad_simpl; [|done].
  destruct (bool_decide_reflect (customer_vehicles db !! vehicle = Some customer));
    monad_simpl; [|done].
  destruct (insertError io); monad_simpl; [done|].
  destruct (service_requests db !! generated_id io) as [taken|] eqn:Hfree.
  { rewrite bool_decide_eq_true_2 by eauto. by monad_simpl. }
  rewrite bool_decide_eq_false_2 by (by intros [? ?]). monad_simpl.
  intros [= <- <- <-]. exists customer, p. cbn.
  repeat (split; [done|]). done.
Qed.

(** X1 (what a created request looks like).  When [createServiceRequest]
    answers, the caller is authenticated, the provider named in the body has
    a profile that is approved and available, the vehicle belongs to the
    caller, and the key was free; the store gains exactly one row under that
    key, pending, unconfirmed by both parties, without prices, rating or
    timestamps, and exactly one notification, addressed to the provider and
    referencing the new row; profiles, ledger and vehicles are as before. *)
Theorem created_request_is_pending_and_notified (io : Io) (user : option string)
    (body : CreateBody) (db db' : Db) (id : string) (r : ServiceRequest) :
  createServiceRequest io user body db = (db', Sent (id, r)) ->
  user = Some (customer_id r)
  /\ (exists p, mechanic_profiles db !! mechanic_id r = Some p
                /\ verification_status p = approved /\ is_available p = true)
  /\ customer_vehicles db !! vehicle_id r = Some (customer_id r)
  /\ service_requests db !! id = None
  /\ service_requests db' = <[id := r]> (service_requests db)
  /\ status r = pending
  /\ mechanic_confirmed r = false /\ customer_confirmed r = false
  /\ material_cost r = None /\ labor_cost r = None /\ total_cost r = None
  /\ customer_rating r = None /\ arrived_at r = None /\ completed_at r = None
  /\ (exists n, notifications db' = (notifications db ++ [n])%list
                /\ n_user_id n = mechanic_id r /\ n_reference_id n = id)
  /\ mechanic_profiles db' = mechanic_profiles db
  /\ wallet_transactions db' = wallet_transactions db
  /\ customer_vehicles db' = customer_vehicles db.
Proof.
  intros Hsent.
  destruct (createServiceRequest_sent io user body db db' id r Hsent)
    as (customer & p & -> & Hc & Hm & Hm' & Hv & Hp & Happroved & Havailable
        & Hvehicle & -> & Hfree & <- & Hfresh & Harrived & Hcompleted & ->).
  destruct Hfresh as (Hs & Hmc & Hcc & Hmat & Hlab & Htot & Hrat).
  split; [done|]. split; [by exists p|].
  repeat (split; [done|]).
  split; [|done]. eexists. split; [reflexivity|done].
Qed.

Lemma created_request_is_pending_and_notified_witness :
  service_requests
    (createServiceRequest (Scenario.io "request-1") Scenario.customer Scenario.body
       Scenario.start).1
  = <[ "request-1" := Scenario.new_row ]> (service_requests Scenario.start)
  /\ status Scenario.new_row = pending.
Proof.
  pose proof (created_request_is_pending_and_notified (Scenario.io "request-1")
                Scenario.customer Scenario.body Scenario.start
                (createServiceRequest (Scenario.io "request-1") Scenario.customer
                   Scenario.body Scenario.start).1
                "request-1" Scenario.new_row) as H.
  destruct H as (_ & _ & _ & _ & Hrows & Hstatus & _).
  - vm_compute. reflexivity.
  - split; [exact Hrows|exact Hstatus].
Defined.

(** ** Who may read a request *)

Lemma getServiceRequest_party u id db r :
  u <> "" ->
  service_requests db !! id = Some r ->
  customer_id r = u \/ mechanic_id r = u ->
  getServiceRequest (Some u) id db = (db, Sent r).
Proof.
  intros Hu Hr Hparty. unfold getServiceRequest. unfold bind at 1.
  rewrite require_user_some by done. unfold_queries. monad_simpl.
  rewrite Hr. monad_simpl.
  destruct Hparty as [H|H]; rewrite (bool_decide_eq_true_2 _ H); cbn.
  - by monad_simpl.
  - rewrite andb_false_r. by monad_simpl.
Qed.

(** X2 (who may read a request).  [getServiceRequest] never writes; it
    answers with a row exactly when the caller is authenticated and is the
    customer or the provider of the row stored under the id, and the answer
    is that row; an authenticated caller who is neither gets the error 403,
    and an id without a row gives 404. *)
Theorem request_is_shown_to_its_parties_only (user : option string) (id : string)
    (db : Db) :
  (getServiceRequest user id db).1 = db
  /\ (forall r,
        (getServiceRequest user id db).2 = Sent r
        <-> exists u, user = Some u /\ u <> ""
                      /\ service_requests db !! id = Some r
                      /\ (customer_id r = u \/ mechanic_id r = u))
  /\ (forall u r,
        user = Some u -> u <> "" -> service_requests db !! id = Some r ->
        customer_id r <> u -> mechanic_id r <> u ->
        (getServiceRequest user id db).2 = Thrown (mkCustomError "Unauthorized" 403))
  /\ (forall u,
        user = Some u -> u <> "" -> service_requests db !! id = None ->
        (getServiceRequest user id db).2
        = Thrown (mkCustomError "Service request not found" 404)).
Proof.
  unfold getServiceRequest, require_user. unfold_queries.
  destruct user as [u|]; [destruct (String.eqb_spec u "") as [->|Hu]|]; monad_simpl.
  - split; [done|]. split; [|split; intros; simplify_eq].
    intros r. split; [done|]. intros (? & ? & ? & _). congruence.
  - destruct (service_requests db !! id) as [r|] eqn:Hr; monad_simpl.
    + destruct (bool_decide_reflect (customer_id r = u)) as [Hc|Hc];
        [|destruct (bool_decide_reflect (mechanic_id r = u)) as [Hm|Hm]];
        monad_simpl.
      * split; [done|]. split; [|split; intros; simplify_eq].
        intros r'. split; [intros [= <-]; eauto 10|].
        intros (? & ? & _ & ? & _). congruence.
      * split; [done|]. split; [|split; intros; simplify_eq].
        intros r'. split; [intros [= <-]; eauto 10|].
        intros (? & ? & _ & ? & _). congruence.
      * split; [done|]. split; [|split; intros; simplify_eq; done].
        intros r'. split; [done|].
        intros (? & ? & _ & ? & [?|?]); simplify_eq.
    + split; [done|]. split; [|split; intros; simplify_eq; done].
      intros r'. split; [done|]. intros (? & _ & _ & ? & _). done.
  - split; [done|]. split; [|split; intros; simplify_eq].
    intros r. split; [done|]. intros (? & ? & _). done.
Qed.

(** X3 (a created request can be read back).  After [createServiceRequest]
    has answered with a key and a row, [getServiceRequest] on that key
    answers with the same row to the customer who created it and to the
    provider named in it, and refuses every other authenticated caller
    with 403. *)
Theorem created_request_is_read_back (io : Io) (user : option string)
    (body : CreateBody) (db db' : Db) (id : string) (r : ServiceRequest) :
  createServiceRequest io user body db = (db', Sent (id, r)) ->
  getServiceRequest user id db' = (db', Sent r)
  /\ getServiceRequest (Some (mechanic_id r)) id db' = (db', Sent r)
  /\ forall other, other <> "" -> Some other <> user -> other <> mechanic_id r ->
       getServiceRequest (Some other) id db'
       = (db', Thrown (mkCustomError "Unauthorized" 403)).
Proof.
  intros Hsent.
  destruct (createServiceRequest_sent io user body db db' id r Hsent)
    as (customer & p & -> & Hc & _ & Hm & _ & _ & _ & _ & _ & -> & _ & Hcustomer
        & _ & _ & _ & ->).
  assert (service_requests
            (notify
               (service_request_notification (mechanic_id r) "New Service Request"
                  "You have a new service request from a customer" (generated_id io))
               (set_service_requests
                  (<[generated_id io := r]> (service_requests db)) db))
          !! generated_id io = Some r) as Hrow.
  { rewrite notify_requests. db_simpl. apply lookup_insert_eq. }
  split; [|split].
  - apply getServiceRequest_party; [done|done|by left].
  - apply getServiceRequest_party; [done|done|by right].
  - intros other Ho Hnc Hnm.
    unfold getServiceRequest. unfold bind at 1.
    rewrite require_user_some by done. unfold_queries. monad_simpl.
    rewrite Hrow. monad_simpl.
    rewrite !bool_decide_eq_false_2 by congruence. by monad_simpl.
Qed.

Lemma created_request_is_read_back_witness :
  getServiceRequest Scenario.customer "request-1"
    (createServiceRequest (Scenario.io "request-1") Scenario.customer Scenario.body
       Scenario.start).1
  = ((createServiceRequest (Scenario.io "request-1") Scenario.customer Scenario.body
        Scenario.start).1,
     Sent Scenario.new_row).
Proof.
  refine (proj1 (created_request_is_read_back (Scenario.io "request-1")
                   Scenario.customer Scenario.body Scenario.start _ "request-1"
                   Scenario.new_row _)).
  vm_compute. reflexivity.
Defined.

(** ** Who may change a request, and what a refused call leaves behind *)

(** A call that threw has written nothing, with one exception: the
    withdrawal whose ledger row could not be inserted has written the
    balance twice, the second time the balance it had read. *)
Lemma simple_handler_thrown {A} (h : Handler A) db e :
  (forall db', h db = (db', Thrown e) -> db' = db) ->
  (h db).2 = Thrown e -> (h db).1 = db.
Proof.
  intros H Hthrown. destruct (h db) as [db' o] eqn:E. cbn in *. subst o. by apply H.
Qed.

Ltac thrown_leaf :=
  cbn [fst snd]; intros; simplify_eq; try done;
  try match goal with
      | H : alter _ ?i ?m !! ?i = None, H' : ?m !! ?i = Some _ |- _ =>
          rewrite (alter_lookup_eq _ _ _ _ H') in H; discriminate
      end.

Lemma create_thrown io user body db e :
  (createServiceRequest io user body db).2 = Thrown e ->
  (createServiceRequest io user body db).1 = db.
Proof.
  unfold createServiceRequest, require_user. unfold_queries.
  explore; thrown_leaf.
Qed.

Lemma cancel_thrown io user id db e :
  (cancelServiceRequest io user id db).2 = Thrown e ->
  (cancelServiceRequest io user id db).1 = db.
Proof.
  unfold cancelServiceRequest, require_user. unfold_queries.
  explore; thrown_leaf.
Qed.

Lemma accept_thrown io user id db e :
  (acceptServiceRequest io user id db).2 = Thrown e ->
  (acceptServiceRequest io user id db).1 = db.
Proof.
  unfold acceptServiceRequest, require_user. unfold_queries.
  explore; thrown_leaf.
Qed.

Lemma decline_thrown io user id db e :
  (declineServiceRequest io user id db).2 = Thrown e ->
  (declineServiceRequest io user id db).1 = db.
Proof.
  unfold declineServiceRequest, require_user. unfold_queries.
  explore; thrown_leaf.
Qed.

Lemma arrive_thrown io user id db e :
  (markArrived io user id db).2 = Thrown e ->
  (markArrived io user id db).1 = db.
Proof.
  unfold markArrived, require_user. unfold_queries.
  explore; thrown_leaf.
Qed.

Lemma toggle_thrown io user db e :
  (toggleAvailability io user db).2 = Thrown e ->
  (toggleAvailability io user db).1 = db.
Proof.
  unfold toggleAvailability, require_user. unfold_queries.
  explore; thrown_leaf.
Qed.

Lemma complete_thrown io user id body db e :
  (completeServiceRequest io user id body db).2 = Thrown e ->
  (completeServiceRequest io user id body db).1 = db.
Proof.
  intros Hthrown.
  destruct (completeServiceRequest_cases io user id body db)
    as [H|(u & r & M & L & k & -> & Hu & Hvalid & Hr & Hc & Hs & Hupd)]; [done|].
  rewrite (completeServiceRequest_exec io u id body db r M L k) in Hthrown by done.
  done.
Qed.

Lemma complete_mechanic_thrown io user id db e :
  (completeServiceRequestMechanic io user id db).2 = Thrown e ->
  (completeServiceRequestMechanic io user id db).1 = db.
Proof.
  intros Hthrown.
  destruct (completeServiceRequestMechanic_cases io user id db)
    as [H|(u & r & -> & Hu & Hr & Hm & Hs & Hupd)]; [done|].
  rewrite (completeServiceRequestMechanic_exec io u id db r) in Hthrown by done.
  done.
Qed.

Lemma withdraw_thrown io user body db e :
  (withdrawFromWallet io user body db).2 = Thrown e ->
  (withdrawFromWallet io user body db).1 = db
  \/ exists u p,
       user = Some u /\ mechanic_profiles db !! u = Some p
       /\ e = mkCustomError "Failed to create withdrawal transaction" 500
       /\ (withdrawFromWallet io user body db).1
          = set_mechanic_profiles
              (<[u := set_wallet_balance (Js.or_zero (wallet_balance p)) p]>
                 (mechanic_profiles db)) db.
Proof.
  unfold withdrawFromWallet, require_user. unfold_queries.
  explore; thrown_leaf; try (by left).
  right. eexists _, _. repeat (split; [done|]).
  unfold set_mechanic_profiles. db_simpl. f_equal. rewrite alter_alter_eq.
  match goal with H : mechanic_profiles db !! _ = Some _ |- _ =>
    by rewrite (alter_as_insert _ _ _ _ H) end.
Qed.

(** A call that answered has passed every guard, and has written this. *)
Ltac sent_leaf :=
  thrown_leaf; string_facts;
  match goal with
  | H : alter _ ?i ?m !! ?i = Some _, H' : ?m !! ?i = Some _ |- _ =>
      rewrite (alter_lookup_eq _ _ _ _ H') in H; injection H as <-
  end;
  eexists; repeat (split; [by eauto|]); by eauto.

Lemma cancel_sent io user id db r' :
  (cancelServiceRequest io user id db).2 = Sent r' ->
  exists r,
    user = Some (customer_id r) /\ customer_id r <> ""
    /\ service_requests db !! id = Some r
    /\ (status r = pending \/ status r = accepted)
    /\ r' = apply_update (set_u_status cancelled no_update) r
    /\ (cancelServiceRequest io user id db).1
       = notify
           (service_request_notification (mechanic_id r) "Service Request Cancelled"
              "A service request has been cancelled by the customer" id)
           (update_row id (set_u_status cancelled no_update) db).
Proof.
  unfold cancelServiceRequest, require_user. unfold_queries.
  explore; sent_leaf.
Qed.

Lemma accept_sent io user id db r' :
  (acceptServiceRequest io user id db).2 = Sent r' ->
  exists r p,
    user = Some (mechanic_id r) /\ mechanic_id r <> ""
    /\ mechanic_profiles db !! mechanic_id r = Some p /\ is_available p = true
    /\ service_requests db !! id = Some r
    /\ status r = pending
    /\ r' = apply_update (set_u_status accepted no_update) r
    /\ (acceptServiceRequest io user id db).1
       = notify
           (service_request_notification (customer_id r) "Service Request Accepted"
              "A mechanic has accepted your service request" id)
           (update_row id (set_u_status accepted no_update) db).
Proof.
  unfold acceptServiceRequest, require_user. unfold_queries.
  explore; thrown_leaf; string_facts;
  match goal with
  | H : alter _ ?i ?m !! ?i = Some _, H' : ?m !! ?i = Some _ |- _ =>
      rewrite (alter_lookup_eq _ _ _ _ H') in H; injection H as <-
  end;
  eexists _, _; repeat (split; [by eauto|]); by eauto.
Qed.

Lemma decline_sent io user id db r' :
  (declineServiceRequest io user id db).2 = Sent r' ->
  exists r,
    user = Some (mechanic_id r) /\ mechanic_id r <> ""
    /\ service_requests db !! id = Some r
    /\ status r = pending
    /\ r' = apply_update (set_u_status cancelled no_update) r
    /\ (declineServiceRequest io user id db).1
       = update_row id (set_u_status cancelled no_update) db.
Proof.
  unfold declineServiceRequest, require_user. unfold_queries.
  explore; sent_leaf.
Qed.

Lemma arrive_sent io user id db r' :
  (markArrived io user id db).2 = Sent r' ->
  exists r,
    user = Some (mechanic_id r) /\ mechanic_id r <> ""
    /\ service_requests db !! id = Some r
    /\ status r = accepted
    /\ r' = apply_update (set_u_arrived_at (now io) (set_u_status in_progress no_update)) r
    /\ (markArrived io user id db).1
       = notify
           (service_request_notification (customer_id r) "Mechanic Arrived"
              "The mechanic has arrived at your location" id)
           (update_row id
              (set_u_arrived_at (now io) (set_u_status in_progress no_update)) db).
Proof.
  unfold markArrived, require_user. unfold_queries.
  explore; sent_leaf.
Qed.

Lemma thrown_Some {A} (o : Outcome A) e : thrown o = Some e -> o = Thrown e.
Proof. destruct o; cbn; congruence. Qed.

Lemma refused {A} (h : Handler A) db :
  (forall a, (h db).2 <> Sent a) ->
  (forall e, (h db).2 = Thrown e -> (h db).1 = db) ->
  exists e, outcome_of (h db) = (db, Some e).
Proof.
  intros Hsent Hthrown. unfold outcome_of.
  destruct (h db) as [db' [a|e]] eqn:E; cbn in *.
  - by destruct (Hsent a).
  - exists e. by rewrite (Hthrown e).
Qed.

(** A balance that is not NULL is rewritten to itself by the rollback. *)
Lemma rollback_restores db u p :
  mechanic_profiles db !! u = Some p ->
  is_Some (wallet_balance p) ->
  set_mechanic_profiles
    (<[u := set_wallet_balance (Js.or_zero (wallet_balance p)) p]> (mechanic_profiles db))
    db
  = db.
Proof.
  intros Hp [q Hq]. rewrite Hq. cbn.
  assert (set_wallet_balance q p = p) as ->.
  { destruct p. cbn in *. by subst. }
  rewrite insert_id by done. by destruct db.
Qed.

(** X4 (a refused call writes nothing).  Whenever a call ends in an error,
    every table is exactly as before the call; the only exception is the
    withdrawal whose ledger row could not be inserted when the balance
    column was NULL: its compensating write leaves the balance at 0. *)
Theorem refused_call_writes_nothing (io : Io) (c : Call) (db : Db) (e : CustomError) :
  (handle io c db).2 = Some e ->
  (handle io c db).1 = db
  \/ exists u p,
       caller c = Some u /\ mechanic_profiles db !! u = Some p
       /\ wallet_balance p = None
       /\ e = mkCustomError "Failed to create withdrawal transaction" 500
       /\ (handle io c db).1
          = set_mechanic_profiles
              (<[u := set_wallet_balance 0 p]> (mechanic_profiles db)) db.
Proof.
  destruct c; cbn [handle caller]; unfold outcome_of; cbn [fst snd];
    intros Hthrown; apply thrown_Some in Hthrown.
  - left. by eapply create_thrown.
  - left. by eapply cancel_thrown.
  - left. by eapply complete_thrown.
  - left. by eapply toggle_thrown.
  - left. by eapply accept_thrown.
  - left. by eapply decline_thrown.
  - left. by eapply arrive_thrown.
  - left. by eapply complete_mechanic_thrown.
  - destruct (withdraw_thrown io user body db e Hthrown)
      as [H|(u & p & -> & Hp & -> & Hdb)]; [by left|].
    destruct (wallet_balance p) as [q|] eqn:Hq.
    + left. rewrite Hdb, <- Hq. apply rollback_restores; [done|]. by rewrite Hq.
    + right. exists u, p. by rewrite Hdb.
Qed.

(** The scenario of the specification: 200.00 asked against 150.00. *)
Lemma refused_call_writes_nothing_witness :
  (handle (Scenario.io "r") (WithdrawFromWallet Scenario.mechanic (Scenario.ask 200))
     Scenario.wallet_150).1
  = Scenario.wallet_150.
Proof.
  destruct (refused_call_writes_nothing (Scenario.io "r")
              (WithdrawFromWallet Scenario.mechanic (Scenario.ask 200))
              Scenario.wallet_150 (mkCustomError "Insufficient balance" 400))
    as [H|(u & p & _ & _ & _ & He & _)].
  - vm_compute. reflexivity.
  - exact H.
  - discriminate He.
Defined.

(** X5 (only its party changes a request).  A cancel or a customer's
    completion by anyone but the customer of the row, and an accept, a
    decline, an arrival or a provider's completion by anyone but the
    provider of the row, ends in an error and leaves every table as it
    was. *)
Theorem only_its_party_changes_a_request (io : Io) (c : Call) (db : Db) (id : string)
    (r : ServiceRequest) :
  target c = Some id ->
  service_requests db !! id = Some r ->
  caller c <> Some (party c r) ->
  exists e, handle io c db = (db, Some e).
Proof.
  intros Htarget Hr Hcaller.
  destruct c; cbn [target] in Htarget; simplify_eq; cbn [handle caller party] in *;
    apply refused.
  - intros r' Hsent.
    destruct (cancel_sent io user id db r' Hsent) as (r0 & -> & _ & Hr0 & _).
    congruence.
  - intros e. apply cancel_thrown.
  - intros r' Hsent.
    destruct (completeServiceRequest_sent io user id body db r' Hsent)
      as (u & r0 & M & L & k & -> & _ & _ & Hr0 & Hc & _).
    congruence.
  - intros e. apply complete_thrown.
  - intros r' Hsent.
    destruct (accept_sent io user id db r' Hsent) as (r0 & p & -> & _ & _ & _ & Hr0 & _).
    congruence.
  - intros e. apply accept_thrown.
  - intros r' Hsent.
    destruct (decline_sent io user id db r' Hsent) as (r0 & -> & _ & Hr0 & _).
    congruence.
  - intros e. apply decline_thrown.
  - intros r' Hsent.
    destruct (arrive_sent io user id db r' Hsent) as (r0 & -> & _ & Hr0 & _).
    congruence.
  - intros e. apply arrive_thrown.
  - intros r' Hsent.
    destruct (completeServiceRequestMechanic_sent io user id db r' Hsent)
      as (u & r0 & -> & _ & Hr0 & Hm & _).
    congruence.
  - intros e. apply complete_mechanic_thrown.
Qed.

(** The provider tries to cancel a request: only its customer may. *)
Lemma only_its_party_changes_a_request_witness :
  exists e,
    handle (Scenario.io "request-1")
      (CancelServiceRequest Scenario.mechanic "request-1") Scenario.in_progress_db
    = (Scenario.in_progress_db, Some e).
Proof.
  apply (only_its_party_changes_a_request (Scenario.io "request-1")
           (CancelServiceRequest Scenario.mechanic "request-1")
           Scenario.in_progress_db "request-1" Scenario.in_progress_row).
  - reflexivity.
  - apply in_progress_db_lookup.
  - discriminate.
Defined.

(** ** Availability *)

Lemma toggle_exec io u db p :
  u <> "" -> mechanic_profiles db !! u = Some p -> updateError io = false ->
  toggleAvailability io (Some u) db
  = (set_mechanic_profiles
       (<[u := set_is_available (negb (is_available p)) p]> (mechanic_profiles db)) db,
     Sent (negb (is_available p))).
Proof.
  intros Hu Hp Hupd. unfold toggleAvailability. unfold bind at 1.
  rewrite require_user_some by done. unfold_queries. monad_simpl.
  rewrite Hp. monad_simpl. rewrite Hupd. monad_simpl.
  by rewrite (alter_as_insert _ _ _ _ Hp).
Qed.

(** X6 (toggling twice).  For a provider with a profile, a toggle answers
    with the negated availability and writes it to the profile; a second
    toggle answers with the original availability and leaves the whole
    store exactly as it was before the first. *)
Theorem toggling_twice_restores_the_store (io1 io2 : Io) (u : string) (db : Db)
    (p : MechanicProfile) :
  u <> "" ->
  mechanic_profiles db !! u = Some p ->
  updateError io1 = false -> updateError io2 = false ->
  let first := toggleAvailability io1 (Some u) db in
  let second := toggleAvailability io2 (Some u) first.1 in
  first.2 = Sent (negb (is_available p))
  /\ mechanic_profiles first.1 !! u = Some (set_is_available (negb (is_available p)) p)
  /\ second.2 = Sent (is_available p)
  /\ second.1 = db.
Proof.
  intros Hu Hp Hupd1 Hupd2 first second. subst first second.
  rewrite (toggle_exec io1 u db p) by done. cbn [fst snd].
  set (p1 := set_is_available (negb (is_available p)) p).
  set (db1 := set_mechanic_profiles (<[u := p1]> (mechanic_profiles db)) db).
  assert (mechanic_profiles db1 !! u = Some p1) as Hp1.
  { subst db1. db_simpl. apply lookup_insert_eq. }
  rewrite (toggle_exec io2 u db1 p1) by done. cbn [fst snd].
  split; [done|]. split; [done|].
  subst p1. cbn [set_is_available is_available]. rewrite negb_involutive.
  split; [done|].
  subst db1. unfold set_mechanic_profiles. db_simpl.
  rewrite insert_insert_eq.
  assert (set_is_available (is_available p)
            (mkMechanicProfile (verification_status p) (negb (is_available p))
               (rating p) (total_jobs p) (wallet_balance p)) = p) as Hsame.
  { by destruct p. }
  unfold set_is_available in *. cbn in *. rewrite Hsame.
  rewrite insert_id by done. by destruct db.
Qed.

Lemma toggling_twice_restores_the_store_witness :
  (toggleAvailability (Scenario.io "r") Scenario.mechanic
     (toggleAvailability (Scenario.io "r") Scenario.mechanic Scenario.start).1).1
  = Scenario.start.
Proof.
  refine (proj2 (proj2 (proj2
            (toggling_twice_restores_the_store (Scenario.io "r") (Scenario.io "r")
               "mechanic-1" Scenario.start (Scenario.profile 0) _ _ _ _))));
    (done || reflexivity).
Defined.

(** X7 (a provider who is switched off gets no new work).  After an
    available provider has toggled, every attempt to create a request
    naming that provider is refused and writes nothing, and so is every
    accept by that provider, with the error "Mechanic is not available"
    (400). *)
Theorem switched_off_provider_gets_no_new_work (io io' : Io) (u : string) (db : Db)
    (p : MechanicProfile) :
  u <> "" ->
  mechanic_profiles db !! u = Some p ->
  is_available p = true ->
  updateError io = false ->
  let db1 := (toggleAvailability io (Some u) db).1 in
  (forall customer body,
     b_mechanic_id body = Some u ->
     exists e, createServiceRequest io' customer body db1 = (db1, Thrown e))
  /\ (forall id,
        acceptServiceRequest io' (Some u) id db1
        = (db1, Thrown (mkCustomError "Mechanic is not available" 400))).
Proof.
  intros Hu Hp Ha Hupd db1. subst db1.
  rewrite (toggle_exec io u db p) by done. cbn [fst].
  set (p1 := set_is_available (negb (is_available p)) p).
  set (db1 := set_mechanic_profiles (<[u := p1]> (mechanic_profiles db)) db).
  assert (mechanic_profiles db1 !! u = Some p1) as Hp1.
  { subst db1. db_simpl. apply lookup_insert_eq. }
  assert (is_available p1 = false) as Ha1 by (subst p1; cbn; by rewrite Ha).
  split.
  - intros customer body Hbody.
    destruct (createServiceRequest io' customer body db1) as [db2 [[id r]|e]] eqn:E.
    + destruct (createServiceRequest_sent io' customer body db1 db2 id r E)
        as (c & p' & _ & _ & Hm & _ & _ & Hp' & _ & Ha' & _).
      assert (mechanic_id r = u) as Hmu by congruence.
      rewrite Hmu in Hp'. congruence.
    + exists e. f_equal.
      pose proof (create_thrown io' customer body db1 e) as H.
      rewrite E in H. by apply H.
  - intros id. unfold acceptServiceRequest. unfold bind at 1.
    rewrite require_user_some by done. unfold_queries. monad_simpl.
    rewrite Hp1. monad_simpl. rewrite Ha1. by monad_simpl.
Qed.

Lemma switched_off_provider_gets_no_new_work_witness :
  acceptServiceRequest (Scenario.io "r") Scenario.mechanic "request-1"
    (toggleAvailability (Scenario.io "r") Scenario.mechanic Scenario.start).1
  = ((toggleAvailability (Scenario.io "r") Scenario.mechanic Scenario.start).1,
     Thrown (mkCustomError "Mechanic is not available" 400)).
Proof.
  refine (proj2 (switched_off_provider_gets_no_new_work (Scenario.io "r")
                   (Scenario.io "r") "mechanic-1" Scenario.start (Scenario.profile 0)
                   _ _ _ _) "request-1");
    (done || reflexivity).
Defined.

(** ** The rows of [service_requests] under any call *)

Lemma legal_update_edge r u :
  legal_update r u ->
  status (apply_update u r) = status r
  \/ lifecycle_edge (status r) (status (apply_update u r)) = true.
Proof.
  destruct 1 as [r Hs|r Hs|r t Hs|r t M L k review Hs Hk|r t Hs]; cbn.
  - right. by rewrite Hs.
  - right. by destruct Hs as [-> | ->].
  - right. by rewrite Hs.
  - destruct (mechanic_confirmed r); cbn; [right; by rewrite Hs|by left].
  - destruct (customer_confirmed r); cbn; [right; by rewrite Hs|by left].
Qed.

(** One call: the row is kept, with its parties, and moves at most one
    edge. *)
Lemma handle_keeps_row io c db id r :
  service_requests db !! id = Some r ->
  exists r',
    service_requests (handle io c db).1 !! id = Some r'
    /\ (status r' = status r \/ lifecycle_edge (status r) (status r') = true)
    /\ customer_id r' = customer_id r /\ mechanic_id r' = mechanic_id r
    /\ vehicle_id r' = vehicle_id r /\ category_id r' = category_id r
    /\ problem_description r' = problem_description r
    /\ customer_location_lat r' = customer_location_lat r
    /\ customer_location_lng r' = customer_location_lng r
    /\ customer_location_address r' = customer_location_address r.
Proof.
  intros Hr.
  destruct (handle_transition io c db) as (Hreq & _ & _).
  destruct Hreq as [Hsame|id0 row Hnone _ _ Hins|id0 r0 u Hr0 Hlegal Hupd].
  - exists r. rewrite Hsame. split; [done|]. split; [by left|done].
  - exists r. rewrite Hins, lookup_insert_ne by congruence.
    split; [done|]. split; [by left|done].
  - rewrite Hupd. destruct (decide (id0 = id)) as [->|Hne].
    + assert (r0 = r) as -> by congruence.
      exists (apply_update u r). rewrite lookup_insert_eq.
      split; [done|]. split; [by apply legal_update_edge|done].
    + exists r. rewrite lookup_insert_ne by done.
      split; [done|]. split; [by left|done].
Qed.

Lemma serve_snoc calls io c db :
  serve (calls ++ [(io, c)]) db = (handle io c (serve calls db)).1.
Proof. unfold serve. by rewrite fold_left_app. Qed.

(** X8 (rows are kept, and follow the lifecycle).  Whatever calls are
    served, no request is ever deleted; the row stored under an id keeps
    its customer, provider, vehicle, category, description and location,
    and its status is reached from the earlier one along the edges
    pending -> accepted -> in_progress -> completed, pending -> cancelled
    and accepted -> cancelled. *)
Theorem rows_are_kept_and_follow_the_lifecycle (calls : list (Io * Call)) (db : Db)
    (id : string) (r : ServiceRequest) :
  service_requests db !! id = Some r ->
  exists r',
    service_requests (serve calls db) !! id = Some r'
    /\ rtc (fun s s' => lifecycle_edge s s' = true) (status r) (status r')
    /\ customer_id r' = customer_id r /\ mechanic_id r' = mechanic_id r
    /\ vehicle_id r' = vehicle_id r /\ category_id r' = category_id r
    /\ problem_description r' = problem_description r
    /\ customer_location_lat r' = customer_location_lat r
    /\ customer_location_lng r' = customer_location_lng r
    /\ customer_location_address r' = customer_location_address r.
Proof.
  intros Hr. induction calls as [|[io c] calls IH] using rev_ind.
  - exists r. split; [done|]. split; [apply rtc_refl|done].
  - destruct IH as (r1 & Hr1 & Hpath & Hc & Hm & Hv & Hcat & Hp & Hlat & Hlng & Ha).
    destruct (handle_keeps_row io c (serve calls db) id r1 Hr1)
      as (r2 & Hr2 & Hstep & Hc' & Hm' & Hv' & Hcat' & Hp' & Hlat' & Hlng' & Ha').
    exists r2. rewrite serve_snoc. split; [done|]. split.
    + destruct Hstep as [->|Hedge]; [done|]. by eapply rtc_r.
    + repeat split; congruence.
Qed.

(** The provider's completion, served on the request the customer has
    confirmed. *)
Lemma rows_are_kept_and_follow_the_lifecycle_witness :
  exists r',
    service_requests
      (serve [(Scenario.io "request-1",
               CompleteServiceRequestMechanic Scenario.mechanic "request-1")]
         Scenario.customer_confirmed_db) !! "request-1" = Some r'
    /\ rtc (fun s s' => lifecycle_edge s s' = true)
         (status Scenario.customer_confirmed_row) (status r')
    /\ customer_id r' = "customer-1" /\ mechanic_id r' = "mechanic-1".
Proof.
  destruct (rows_are_kept_and_follow_the_lifecycle
              [(Scenario.io "request-1",
                CompleteServiceRequestMechanic Scenario.mechanic "request-1")]
              Scenario.customer_confirmed_db "request-1" Scenario.customer_confirmed_row
              customer_confirmed_db_lookup)
    as (r' & Hr' & Hstatus & Hc & Hm & _).
  exists r'. repeat split; assumption.
Defined.

(** ** Row by row: what one call does to a request *)

Lemma update_row_keeps_keys id u db j :
  service_requests db !! j = None -> service_requests (update_row id u db) !! j = None.
Proof. intros H. unfold update_row. db_simpl. by apply alter_lookup_None. Qed.

(** Apart from [createServiceRequest], no handler inserts a request. *)
Lemma cancel_keeps_keys io user id db j :
  service_requests db !! j = None ->
  service_requests (cancelServiceRequest io user id db).1 !! j = None.
Proof.
  intros Hj. destruct (cancelServiceRequest io user id db).2 as [r'|e] eqn:E.
  - destruct (cancel_sent io user id db r' E) as (r & _ & _ & _ & _ & _ & ->).
    rewrite notify_requests. by apply update_row_keeps_keys.
  - by rewrite (cancel_thrown io user id db e E).
Qed.

Lemma accept_keeps_keys io user id db j :
  service_requests db !! j = None ->
  service_requests (acceptServiceRequest io user id db).1 !! j = None.
Proof.
  intros Hj. destruct (acceptServiceRequest io user id db).2 as [r'|e] eqn:E.
  - destruct (accept_sent io user id db r' E) as (r & p & _ & _ & _ & _ & _ & _ & _ & ->).
    rewrite notify_requests. by apply update_row_keeps_keys.
  - by rewrite (accept_thrown io user id db e E).
Qed.

Lemma decline_keeps_keys io user id db j :
  service_requests db !! j = None ->
  service_requests (declineServiceRequest io user id db).1 !! j = None.
Proof.
  intros Hj. destruct (declineServiceRequest io user id db).2 as [r'|e] eqn:E.
  - destruct (decline_sent io user id db r' E) as (r & _ & _ & _ & _ & _ & ->).
    by apply update_row_keeps_keys.
  - by rewrite (decline_thrown io user id db e E).
Qed.

Lemma arrive_keeps_keys io user id db j :
  service_requests db !! j = None ->
  service_requests (markArrived io user id db).1 !! j = None.
Proof.
  intros Hj. destruct (markArrived io user id db).2 as [r'|e] eqn:E.
  - destruct (arrive_sent io user id db r' E) as (r & _ & _ & _ & _ & _ & ->).
    rewrite notify_requests. by apply update_row_keeps_keys.
  - by rewrite (arrive_thrown io user id db e E).
Qed.

Lemma complete_keeps_keys io user id body db j :
  service_requests db !! j = None ->
  service_requests (completeServiceRequest io user id body db).1 !! j = None.
Proof.
  intros Hj.
  destruct (completeServiceRequest_cases io user id body db)
    as [->|(u & r & M & L & k & -> & Hu & Hvalid & Hr & Hc & Hs & Hupd)]; [done|].
  rewrite (completeServiceRequest_exec io u id body db r M L k) by done.
  cbn [fst]. rewrite rate_requests.
  destruct (mechanic_confirmed r); [rewrite settle_requests|];
    by apply update_row_keeps_keys.
Qed.

Lemma complete_mechanic_keeps_keys io user id db j :
  service_requests db !! j = None ->
  service_requests (completeServiceRequestMechanic io user id db).1 !! j = None.
Proof.
  intros Hj.
  destruct (completeServiceRequestMechanic_cases io user id db)
    as [->|(u & r & -> & Hu & Hr & Hm & Hs & Hupd)]; [done|].
  rewrite (completeServiceRequestMechanic_exec io u id db r) by done.
  cbn [fst].
  destruct (customer_confirmed r && Js.truthy_num (labor_cost r));
    [rewrite notify_requests, settle_requests|];
    by apply update_row_keeps_keys.
Qed.

Lemma toggle_requests io user db :
  service_requests (toggleAvailability io user db).1 = service_requests db.
Proof.
  unfold toggleAvailability, require_user. unfold_queries. by explore.
Qed.

Lemma withdraw_requests io user body db :
  service_requests (withdrawFromWallet io user body db).1 = service_requests db.
Proof.
  unfold withdrawFromWallet, require_user. unfold_queries. by explore.
Qed.

(** The row found under an id after a call is the row that was there, or
    that row legally updated, or a row just created: pending, unstamped,
    for a provider whose profile is approved. *)
Lemma handle_row io c db id r' :
  service_requests (handle io c db).1 !! id = Some r' ->
  service_requests db !! id = Some r'
  \/ (exists r u,
        service_requests db !! id = Some r /\ legal_update r u
        /\ r' = apply_update u r)
  \/ (service_requests db !! id = None /\ fresh_row r'
      /\ arrived_at r' = None /\ completed_at r' = None
      /\ exists p, mechanic_profiles db !! mechanic_id r' = Some p
                   /\ verification_status p = approved).
Proof.
  intros Hr'.
  assert ((forall j, service_requests db !! j = None ->
                     service_requests (handle io c db).1 !! j = None) ->
          service_requests db !! id = Some r'
          \/ (exists r u,
                service_requests db !! id = Some r /\ legal_update r u
                /\ r' = apply_update u r)) as Hkept.
  { intros Hkeys.
    destruct (handle_transition io c db) as (Hreq & _ & _).
    destruct Hreq as [Hsame|id0 row Hnone _ _ Hins|id0 r0 u Hr0 Hlegal Hupd].
    - left. by rewrite <- Hsame.
    - apply Hkeys in Hnone. rewrite Hins, lookup_insert_eq in Hnone. done.
    - rewrite Hupd in Hr'. apply lookup_insert_Some in Hr' as [[<- <-]|[_ Hr']].
      + right. by exists r0, u.
      + by left. }
  destruct c; cbn [handle] in *; unfold outcome_of in *; cbn [fst] in *.
  - destruct (createServiceRequest io user body db) as [db' [[id0 r0]|e]] eqn:E.
    + cbn [fst] in Hr'.
      destruct (createServiceRequest_sent io user body db db' id0 r0 E)
        as (customer & p & _ & _ & _ & _ & _ & Hp & Happroved & _ & _ & -> & Hfree
            & _ & Hfresh & Harrived & Hcompleted & ->).
      rewrite notify_requests in Hr'. db_simpl.
      apply lookup_insert_Some in Hr' as [[<- <-]|[_ Hr']]; [|by left].
      right. right. repeat (split; [done|]). by exists p.
    + pose proof (create_thrown io user body db e) as H. rewrite E in H.
      cbn [fst snd] in *. rewrite H in Hr' by done. by left.
  - destruct Hkept as [H|H]; [apply cancel_keeps_keys|by left|by right; left].
  - destruct Hkept as [H|H]; [apply complete_keeps_keys|by left|by right; left].
  - left. by rewrite toggle_requests in Hr'.
  - destruct Hkept as [H|H]; [apply accept_keeps_keys|by left|by right; left].
  - destruct Hkept as [H|H]; [apply decline_keeps_keys|by left|by right; left].
  - destruct Hkept as [H|H]; [apply arrive_keeps_keys|by left|by right; left].
  - destruct Hkept as [H|H]; [apply complete_mechanic_keeps_keys|by left|by right; left].
  - left. by rewrite withdraw_requests in Hr'.
Qed.

Lemma legal_update_timestamps r u :
  legal_update r u -> timestamps_match_status r ->
  timestamps_match_status (apply_update u r).
Proof.
  unfold timestamps_match_status.
  destruct 1 as [r Hs|r [Hs|Hs]|r t Hs|r t M L k review Hs Hk|r t Hs]; cbn;
    intros [Ha Hc]; rewrite Hs in *;
    try destruct (mechanic_confirmed r); try destruct (customer_confirmed r); cbn;
    (split; split; intros H; try (apply Ha in H); try (apply Hc in H);
     try (apply Ha); try (apply Hc); naive_solver).
Qed.

(** X9 (timestamps follow the status).  In every reachable store a request
    carries [arrived_at] exactly when it is in progress or completed, and
    [completed_at] exactly when it is completed. *)
Theorem timestamps_follow_the_status (db : Db) (id : string) (r : ServiceRequest) :
  reachable db ->
  service_requests db !! id = Some r ->
  (is_Some (arrived_at r) <-> status r = in_progress \/ status r = completed)
  /\ (is_Some (completed_at r) <-> status r = completed).
Proof.
  intros Hreach. revert id r.
  induction Hreach as [db (Hempty & _)|db io c Hreach IH]; intros id r Hr.
  - rewrite Hempty in Hr. done.
  - destruct (handle_row io c db id r Hr)
      as [Hsame|[(r0 & u & Hr0 & Hlegal & ->)
                |(_ & Hfresh & Harrived & Hcompleted & _)]].
    + by apply (IH id).
    + apply legal_update_timestamps; [done|]. by apply (IH id).
    + destruct Hfresh as (Hs & _). rewrite Harrived, Hcompleted, Hs.
      split; split; intros H; try (by inversion H); naive_solver.
Qed.

Lemma settled_db_lookup :
  service_requests Scenario.settled_db !! "request-1" = Some Scenario.completed_row.
Proof. vm_compute. reflexivity. Qed.

Lemma timestamps_follow_the_status_witness :
  is_Some (arrived_at Scenario.completed_row)
  /\ is_Some (completed_at Scenario.completed_row).
Proof.
  destruct (timestamps_follow_the_status Scenario.settled_db "request-1"
              Scenario.completed_row reachable_settled_db settled_db_lookup)
    as [Harrived Hcompleted].
  split; [apply Harrived; by right|by apply Hcompleted].
Defined.

(** ** The profiles under any call *)

Lemma alter_standing (g : MechanicProfile -> MechanicProfile)
    (m : gmap string MechanicProfile) (i u : string) :
  (forall p, same_standing p (g p)) ->
  option_Forall2 same_standing (m !! u) (alter g i m !! u).
Proof.
  intros Hg. destruct (decide (i = u)) as [->|Hne].
  - rewrite lookup_alter_eq. destruct (m !! u); constructor. apply Hg.
  - rewrite lookup_alter_ne by done. destruct (m !! u); by constructor.
Qed.

Lemma standing_refl (m : gmap string MechanicProfile) (u : string) :
  option_Forall2 same_standing (m !! u) (m !! u).
Proof. destruct (m !! u); by constructor. Qed.

Lemma standing_trans (x y z : option MechanicProfile) :
  option_Forall2 same_standing x y -> option_Forall2 same_standing y z ->
  option_Forall2 same_standing x z.
Proof.
  destruct 1 as [p p' [H1 H2]|]; inversion 1 as [? p'' [H3 H4]|]; subst;
    constructor. split; congruence.
Qed.

Lemma rate_standing m db u :
  option_Forall2 same_standing (mechanic_profiles db !! u)
    (mechanic_profiles (rate m db) !! u).
Proof.
  unfold rate. case_match; [|apply standing_refl].
  db_simpl. by apply alter_standing.
Qed.

Lemma settle_standing m L id db u :
  option_Forall2 same_standing (mechanic_profiles db !! u)
    (mechanic_profiles (settle m L id db) !! u).
Proof.
  unfold settle. repeat case_match; try apply standing_refl.
  db_simpl. by apply alter_standing.
Qed.

Lemma handle_standing io c db u :
  option_Forall2 same_standing (mechanic_profiles db !! u)
    (mechanic_profiles (handle io c db).1 !! u).
Proof.
  destruct c; cbn [handle]; unfold outcome_of; cbn [fst].
  - unfold createServiceRequest, require_user. unfold_queries.
    explore; apply standing_refl.
  - unfold cancelServiceRequest, require_user. unfold_queries.
    explore; apply standing_refl.
  - destruct (completeServiceRequest_cases io user id body db)
      as [->|(u0 & r & M & L & k & -> & Hu & Hvalid & Hr & Hc & Hs & Hupd)];
      [apply standing_refl|].
    rewrite (completeServiceRequest_exec io u0 id body db r M L k) by done.
    cbn [fst]. eapply standing_trans; [|apply rate_standing].
    destruct (mechanic_confirmed r); [|apply standing_refl].
    eapply standing_trans; [|apply settle_standing]. apply standing_refl.
  - unfold toggleAvailability, require_user. unfold_queries.
    explore; try apply standing_refl. by apply alter_standing.
  - unfold acceptServiceRequest, require_user. unfold_queries.
    explore; apply standing_refl.
  - unfold declineServiceRequest, require_user. unfold_queries.
    explore; apply standing_refl.
  - unfold markArrived, require_user. unfold_queries.
    explore; apply standing_refl.
  - destruct (completeServiceRequestMechanic_cases io user id db)
      as [->|(u0 & r & -> & Hu & Hr & Hm & Hs & Hupd)]; [apply standing_refl|].
    rewrite (completeServiceRequestMechanic_exec io u0 id db r) by done.
    cbn [fst].
    destruct (customer_confirmed r && Js.truthy_num (labor_cost r));
      [|apply standing_refl].
    unfold notify. db_simpl.
    eapply standing_trans; [|apply settle_standing]. apply standing_refl.
  - unfold withdrawFromWallet, require_user. unfold_queries.
    explore; try apply standing_refl.
    + eapply standing_trans; by apply alter_standing.
    + by apply alter_standing.
Qed.

(** X10 (what no call does to a profile).  No call creates or deletes a
    row of [mechanic_profiles], and none changes [verification_status] or
    [total_jobs]: a provider has a profile after the call exactly when
    there was one before, with the same values in those two columns. *)
Theorem profiles_keep_their_standing (io : Io) (c : Call) (db : Db) (u : string) :
  match mechanic_profiles db !! u, mechanic_profiles (handle io c db).1 !! u with
  | Some p, Some p' =>
      verification_status p' = verification_status p /\ total_jobs p' = total_jobs p
  | None, None => True
  | _, _ => False
  end.
Proof.
  destruct (handle_standing io c db u) as [p p' [Hv Ht]|]; [|done].
  by split.
Qed.

(** X11 (requests are held by approved providers).  In every reachable
    store the provider of every request has a profile, and that profile is
    approved. *)
Theorem requests_are_held_by_approved_providers (db : Db) (id : string)
    (r : ServiceRequest) :
  reachable db ->
  service_requests db !! id = Some r ->
  exists p, mechanic_profiles db !! mechanic_id r = Some p
            /\ verification_status p = approved.
Proof.
  intros Hreach. revert id r.
  induction Hreach as [db (Hempty & _)|db io c Hreach IH]; intros id r Hr.
  - rewrite Hempty in Hr. done.
  - assert (exists p, mechanic_profiles db !! mechanic_id r = Some p
                      /\ verification_status p = approved) as (p & Hp & Happroved).
    { destruct (handle_row io c db id r Hr)
        as [Hsame|[(r0 & u & Hr0 & Hlegal & ->)|(_ & _ & _ & _ & Hp)]].
      - by apply (IH id).
      - by apply (IH id r0).
      - done. }
    pose proof (handle_standing io c db (mechanic_id r)) as Hstanding.
    rewrite Hp in Hstanding. inversion Hstanding as [? p' [Hv _] |]; subst.
    exists p'. split; [done|]. congruence.
Qed.

Lemma requests_are_held_by_approved_providers_witness :
  exists p, mechanic_profiles Scenario.settled_db !! "mechanic-1" = Some p
            /\ verification_status p = approved.
Proof.
  exact (requests_are_held_by_approved_providers Scenario.settled_db "request-1"
           Scenario.completed_row reachable_settled_db settled_db_lookup).
Defined.

(** ** The ledger and the notifications under any call *)

Lemma rate_notifications m db : notifications (rate m db) = notifications db.
Proof. unfold rate. by case_match. Qed.

Lemma settle_notifications m L id db :
  notifications (settle m L id db) = notifications db.
Proof. unfold settle. by repeat case_match. Qed.

(** The row a call appends to the ledger, if it appends one. *)
Lemma handle_ledger io c db :
  wallet_transactions (handle io c db).1 = wallet_transactions db
  \/ exists t,
       wallet_transactions (handle io c db).1 = (wallet_transactions db ++ [t])%list
       /\ (pending_withdrawal t \/ commission_row t).
Proof.
  assert (forall m L id db0,
            wallet_transactions (settle m L id db0) = wallet_transactions db0
            \/ exists t,
                 wallet_transactions (settle m L id db0)
                 = (wallet_transactions db0 ++ [t])%list
                 /\ (pending_withdrawal t \/ commission_row t)) as Hsettle.
  { intros m L id db0.
    destruct (settle_cases m L id db0) as [->|(p & _ & _ & ->)]; [by left|].
    right. eexists. split; [reflexivity|]. right.
    unfold commission_row. cbn. eauto. }
  destruct c; cbn [handle]; unfold outcome_of; cbn [fst].
  - left. unfold createServiceRequest, require_user. unfold_queries. by explore.
  - left. unfold cancelServiceRequest, require_user. unfold_queries. by explore.
  - destruct (completeServiceRequest_cases io user id body db)
      as [->|(u0 & r & M & L & k & -> & Hu & Hvalid & Hr & Hc & Hs & Hupd)];
      [by left|].
    rewrite (completeServiceRequest_exec io u0 id body db r M L k) by done.
    cbn [fst]. rewrite rate_transactions.
    destruct (mechanic_confirmed r); [|by left].
    match goal with
    | |- context [settle ?m ?L' ?i ?d] =>
        destruct (Hsettle m L' i d) as [H|(t & H & Hkind)]; rewrite H
    end; [by left|right; by exists t].
  - left. unfold toggleAvailability, require_user. unfold_queries. by explore.
  - left. unfold acceptServiceRequest, require_user. unfold_queries. by explore.
  - left. unfold declineServiceRequest, require_user. unfold_queries. by explore.
  - left. unfold markArrived, require_user. unfold_queries. by explore.
  - destruct (completeServiceRequestMechanic_cases io user id db)
      as [->|(u0 & r & -> & Hu & Hr & Hm & Hs & Hupd)]; [by left|].
    rewrite (completeServiceRequestMechanic_exec io u0 id db r) by done.
    cbn [fst].
    destruct (customer_confirmed r && Js.truthy_num (labor_cost r)); [|by left].
    unfold notify. db_simpl.
    match goal with
    | |- context [settle ?m ?L' ?i ?d] =>
        destruct (Hsettle m L' i d) as [H|(t & H & Hkind)]; rewrite H
    end; [by left|right; by exists t].
  - unfold withdrawFromWallet, require_user. unfold_queries.
    explore; try (by left).
    right. eexists. split; [reflexivity|]. left.
    unfold pending_withdrawal. cbn. repeat split.
    match goal with H : Qle_bool ?q 0 = false |- _ =>
      apply Qle_bool_false in H; revert H end.
    intros H. apply (Qopp_lt_compat 0) in H. exact H.
Qed.

Lemma notified_party db id u r n :
  service_requests db !! id = Some r ->
  n_reference_id n = id ->
  n_user_id n = customer_id r \/ n_user_id n = mechanic_id r ->
  addressed_to_a_party (notify n (update_row id u db)) n.
Proof.
  intros Hr Hid Hparty. exists (apply_update u r).
  rewrite notify_requests, Hid. split; [by apply update_row_lookup|done].
Qed.

(** The notification a call appends, if it appends one. *)
Lemma handle_notifications io c db :
  notifications (handle io c db).1 = notifications db
  \/ exists n,
       notifications (handle io c db).1 = (notifications db ++ [n])%list
       /\ addressed_to_a_party (handle io c db).1 n.
Proof.
  destruct c; cbn [handle]; unfold outcome_of; cbn [fst].
  - destruct (createServiceRequest io user body db) as [db' [[id0 r0]|e]] eqn:E.
    + destruct (createServiceRequest_sent io user body db db' id0 r0 E)
        as (customer & p & _ & _ & _ & _ & _ & _ & _ & _ & _ & -> & _ & _ & _ & _ & _
            & ->).
      cbn [fst]. right. eexists. split; [reflexivity|]. exists r0.
      rewrite notify_requests. db_simpl. cbn. rewrite lookup_insert_eq.
      split; [done|by right].
    + pose proof (create_thrown io user body db e) as H. rewrite E in H.
      left. cbn [fst snd] in *. by rewrite H.
  - destruct (cancelServiceRequest io user id db).2 as [r'|e] eqn:E.
    + destruct (cancel_sent io user id db r' E) as (r & _ & _ & Hr & _ & _ & ->).
      right. eexists. split; [reflexivity|]. eapply notified_party; [exact Hr|done|by right].
    + left. by rewrite (cancel_thrown io user id db e E).
  - left.
    destruct (completeServiceRequest_cases io user id body db)
      as [->|(u0 & r & M & L & k & -> & Hu & Hvalid & Hr & Hc & Hs & Hupd)]; [done|].
    rewrite (completeServiceRequest_exec io u0 id body db r M L k) by done.
    cbn [fst]. rewrite rate_notifications.
    destruct (mechanic_confirmed r); [by rewrite settle_notifications|done].
  - left. unfold toggleAvailability, require_user. unfold_queries. by explore.
  - destruct (acceptServiceRequest io user id db).2 as [r'|e] eqn:E.
    + destruct (accept_sent io user id db r' E)
        as (r & p & _ & _ & _ & _ & Hr & _ & _ & ->).
      right. eexists. split; [reflexivity|]. eapply notified_party; [exact Hr|done|by left].
    + left. by rewrite (accept_thrown io user id db e E).
  - left. destruct (declineServiceRequest io user id db).2 as [r'|e] eqn:E.
    + by destruct (decline_sent io user id db r' E) as (r & _ & _ & _ & _ & _ & ->).
    + by rewrite (decline_thrown io user id db e E).
  - destruct (markArrived io user id db).2 as [r'|e] eqn:E.
    + destruct (arrive_sent io user id db r' E) as (r & _ & _ & Hr & _ & _ & ->).
      right. eexists. split; [reflexivity|]. eapply notified_party; [exact Hr|done|by left].
    + left. by rewrite (arrive_thrown io user id db e E).
  - destruct (completeServiceRequestMechanic_cases io user id db)
      as [->|(u0 & r & -> & Hu & Hr & Hm & Hs & Hupd)]; [by left|].
    rewrite (completeServiceRequestMechanic_exec io u0 id db r) by done.
    cbn [fst].
    destruct (customer_confirmed r && Js.truthy_num (labor_cost r)); [|by left].
    right. eexists. split.
    + unfold notify at 1. db_simpl. rewrite settle_notifications. reflexivity.
    + eexists. rewrite notify_requests, settle_requests. cbn.
      split; [by apply update_row_lookup|by left].
  - left. unfold withdrawFromWallet, require_user. unfold_queries. by explore.
Qed.

(** X12 (ledger and notifications only grow).  No call removes or rewrites
    a row of [wallet_transactions] or of [notifications]: a call appends at
    most one row to each; an appended ledger row is either a withdrawal
    (negative amount, status pending, no reference) or a commission
    deduction that references a service request. *)
Theorem ledger_and_notifications_only_grow (io : Io) (c : Call) (db : Db) :
  (exists rows,
     wallet_transactions (handle io c db).1 = (wallet_transactions db ++ rows)%list
     /\ (length rows <= 1)%nat
     /\ Forall (fun t => pending_withdrawal t \/ commission_row t) rows)
  /\ (exists sent,
        notifications (handle io c db).1 = (notifications db ++ sent)%list
        /\ (length sent <= 1)%nat).
Proof.
  split.
  - destruct (handle_ledger io c db) as [Hsame|(t & Hgrown & Hkind)].
    + exists []. rewrite Hsame, app_nil_r. split; [done|]. split; [cbn; lia|].
      constructor.
    + exists [t]. split; [done|]. split; [cbn; lia|].
      constructor; [done|constructor].
  - destruct (handle_notifications io c db) as [Hsame|(n & Hgrown & _)].
    + exists []. rewrite Hsame, app_nil_r. split; [done|cbn; lia].
    + exists [n]. split; [done|cbn; lia].
Qed.

(** In a reachable store every ledger row is of one of the two kinds. *)
Lemma reachable_ledger db :
  reachable db ->
  Forall (fun t => pending_withdrawal t \/ commission_row t) (wallet_transactions db).
Proof.
  induction 1 as [db (_ & Hempty & _)|db io c Hreach IH].
  - rewrite Hempty. constructor.
  - destruct (handle_ledger io c db) as [->|(t' & -> & Hkind)]; [done|].
    apply Forall_app. split; [done|]. by constructor.
Qed.

(** X13 (what the ledger holds).  In every reachable store each row of
    [wallet_transactions] is a withdrawal with a negative amount that is
    still pending, or a commission deduction that references a service
    request: no handler inserts a [top_up] or [credit] row, and none
    settles or fails a withdrawal. *)
Theorem ledger_holds_withdrawals_and_commissions (db : Db) (t : WalletTransaction) :
  reachable db ->
  In t (wallet_transactions db) ->
  (transaction_type t = withdrawal /\ amount t < 0
   /\ tx_status t = Some withdrawal_pending /\ reference_id t = None)
  \/ (transaction_type t = commission_deduction /\ is_Some (reference_id t)
      /\ reference_type t = Some "service_request" /\ tx_status t = None).
Proof.
  intros Hreach Ht.
  pose proof (reachable_ledger db Hreach) as Hall.
  rewrite List.Forall_forall in Hall.
  destruct (Hall t Ht) as [(H1 & H2 & H3 & H4)|(H1 & H2 & H3 & H4)].
  - left. by repeat split.
  - right. by repeat split.
Qed.

Lemma settled_db_ledger :
  wallet_transactions Scenario.settled_db
  = [commission_transaction "mechanic-1" (100 * 0.15) "request-1"].
Proof. vm_compute. reflexivity. Qed.

(** The ledger after the settlement of the scenario: its one row. *)
Lemma ledger_holds_withdrawals_and_commissions_witness :
  let t := commission_transaction "mechanic-1" (100 * 0.15) "request-1" in
  (transaction_type t = withdrawal /\ amount t < 0
   /\ tx_status t = Some withdrawal_pending /\ reference_id t = None)
  \/ (transaction_type t = commission_deduction /\ is_Some (reference_id t)
      /\ reference_type t = Some "service_request" /\ tx_status t = None).
Proof.
  apply (ledger_holds_withdrawals_and_commissions Scenario.settled_db
           (commission_transaction "mechanic-1" (100 * 0.15) "request-1")
           reachable_settled_db).
  rewrite settled_db_ledger. by left.
Defined.

(** X14 (notifications go to the parties).  Starting from a store without
    notifications and serving any calls, every notification in the store
    references a stored request and is addressed to the customer or to the
    provider of that request. *)
Theorem notifications_go_to_the_parties (calls : list (Io * Call)) (db : Db)
    (n : Notification) :
  notifications db = [] ->
  In n (notifications (serve calls db)) ->
  exists r,
    service_requests (serve calls db) !! n_reference_id n = Some r
    /\ (n_user_id n = customer_id r \/ n_user_id n = mechanic_id r).
Proof.
  intros Hempty. revert n.
  induction calls as [|[io c] calls IH] using rev_ind; intros n Hn.
  - cbn in Hn. rewrite Hempty in Hn. destruct Hn.
  - rewrite serve_snoc in *.
    destruct (handle_notifications io c (serve calls db)) as [Hsame|(n' & Hgrown & Hn')].
    + rewrite Hsame in Hn. destruct (IH n Hn) as (r & Hr & Hparty).
      destruct (handle_keeps_row io c (serve calls db) _ r Hr)
        as (r' & Hr' & _ & Hc & Hm & _).
      exists r'. split; [done|]. by rewrite Hc, Hm.
    + rewrite Hgrown in Hn. apply in_app_or in Hn as [Hn|[<-|[]]]; [|exact Hn'].
      destruct (IH n Hn) as (r & Hr & Hparty).
      destruct (handle_keeps_row io c (serve calls db) _ r Hr)
        as (r' & Hr' & _ & Hc & Hm & _).
      exists r'. split; [done|]. by rewrite Hc, Hm.
Qed.

Lemma notifications_go_to_the_parties_witness :
  exists r,
    service_requests (serve (Scenario.to_in_progress "request-1") Scenario.start)
      !! "request-1" = Some r
    /\ ("mechanic-1" = customer_id r \/ "mechanic-1" = mechanic_id r).
Proof.
  apply (notifications_go_to_the_parties (Scenario.to_in_progress "request-1")
           Scenario.start
           (service_request_notification "mechanic-1" "New Service Request"
              "You have a new service request from a customer" "request-1")).
  - reflexivity.
  - vm_compute. by left.
Defined.



(** ** The wallet, page by page *)

Lemma Qceiling_div (n m : Z) :
  (0 < m)%Z -> Qceiling (inject_Z n / inject_Z m) = (- ((- n) `div` m))%Z.
Proof.
  intros Hm. unfold Qceiling. rewrite Zdiv_Qdiv. f_equal. apply Qfloor_comp.
  rewrite inject_Z_opp. field.
  intros E. apply (inject_Z_injective m 0) in E. lia.
Qed.

Lemma pages_suffice (n m : Z) :
  (0 <= n)%Z -> (0 < m)%Z ->
  let N := Qceiling (inject_Z n / inject_Z m) in
  (0 <= N)%Z /\ (n <= N * m)%Z /\ ((N - 1) * m < n \/ n = 0)%Z.
Proof.
  intros Hn Hm N. subst N. rewrite Qceiling_div by done.
  pose proof (Z.mul_div_le (- n) m Hm).
  pose proof (Z.mul_succ_div_gt (- n) m Hm).
  split; [|split]; nia.
Qed.

(** The first [n] pages, one after the other, are the first [n * l] rows. *)
Lemma chunks_take {A} (rows : list A) (l n : nat) :
  concat (map (fun k => take l (drop (k * l) rows)) (seq 0 n)) = take (n * l) rows.
Proof.
  induction n as [|n IH]; [done|].
  rewrite seq_S, map_app, concat_app, IH. cbn [map concat Nat.add].
  rewrite app_nil_r, take_take_drop. f_equal. lia.
Qed.

Lemma getWallet_exec faults u query db p :
  u <> "" ->
  mechanic_profiles db !! u = Some p ->
  Wallet.transactionsError faults = false ->
  let page := parseInt_or (Wallet.q_page query) 1 in
  let limit := parseInt_or (Wallet.q_limit query) 20 in
  let rows := newest_first u (wallet_transactions db) in
  let count :=
    if Wallet.countError faults then 0%Z else Z.of_nat (length rows) in
  (1 <= page)%Z -> (1 <= limit)%Z ->
  getWallet faults (Some u) query db
  = (db,
     Sent {| Wallet.balance := Js.or_zero (wallet_balance p);
             Wallet.recent_transactions :=
               take (Z.to_nat limit) (drop (Z.to_nat (page - 1) * Z.to_nat limit) rows);
             Wallet.pagination :=
               {| Wallet.page := page;
                  Wallet.limit := limit;
                  Wallet.total := count;
                  Wallet.total_pages := Qceiling (inject_Z count / inject_Z limit) |} |}).
Proof.
  intros Hu Hp Hfault page limit rows count Hpage Hlimit.
  unfold getWallet. unfold bind at 1. rewrite require_user_some by done.
  unfold_queries. monad_simpl. rewrite Hp. monad_simpl. rewrite Hfault.
  fold page limit. unfold range.
  assert (((page - 1) * limit <? 0)%Z = false) as -> by nia.
  assert (((page - 1) * limit + limit - 1 - (page - 1) * limit + 1 <? 0)%Z = false)
    as -> by lia.
  cbn [orb]. monad_simpl. fold rows.
  replace (Z.to_nat ((page - 1) * limit + limit - 1 - (page - 1) * limit + 1))
    with (Z.to_nat limit) by lia.
  replace (Z.to_nat ((page - 1) * limit)) with (Z.to_nat (page - 1) * Z.to_nat limit)%nat
    by nia.
  subst count rows. unfold newest_first. rewrite length_rev.
  by destruct (Wallet.countError faults).
Qed.

Lemma parseInt_or_value x n d : Js.parseInt x = Some n -> n <> 0%Z -> parseInt_or x d = n.
Proof.
  intros Hx Hn. unfold parseInt_or. rewrite Hx.
  by destruct (Z.eqb_spec n 0).
Qed.

Lemma newest_first_own u rows : Forall (fun t => user_id t = u) (newest_first u rows).
Proof.
  unfold newest_first, rows_of. apply List.Forall_forall. intros t Ht.
  apply in_rev, filter_In in Ht as [_ Ht]. by apply bool_decide_eq_true in Ht.
Qed.

(** X16 (the pages of the wallet cover the ledger).  For a provider with a
    profile and a page size [l >= 1], [getWallet] answers every page
    [k >= 1] with at most [l] rows, all of them rows of the caller, and
    reports the number of the caller's rows and the number of pages; the
    rows of the pages 1 to [total_pages], one after the other, are exactly
    the caller's ledger rows, the newest first, each once. *)
Theorem wallet_pages_cover_the_ledger (u : string) (db : Db) (p : MechanicProfile)
    (limit : Js.Value) (page : nat -> Js.Value) (l : Z) :
  u <> "" ->
  mechanic_profiles db !! u = Some p ->
  Js.parseInt limit = Some l -> (1 <= l)%Z ->
  (forall k, Js.parseInt (page k) = Some (Z.of_nat k)) ->
  let ask k := getWallet no_faults (Some u) (Wallet.mkQuery (page k) limit) db in
  exists pages : nat,
    (forall k, (1 <= k)%nat ->
       exists response,
         ask k = (db, Sent response)
         /\ Wallet.total_pages (Wallet.pagination response) = Z.of_nat pages
         /\ Wallet.total (Wallet.pagination response)
            = Z.of_nat (length (rows_of u (wallet_transactions db)))
         /\ (length (Wallet.recent_transactions response) <= Z.to_nat l)%nat
         /\ Forall (fun t => user_id t = u) (Wallet.recent_transactions response))
    /\ concat (map (fun k => shown (ask k)) (seq 1 pages))
       = newest_first u (wallet_transactions db).
Proof.
  intros Hu Hp Hlimit Hl Hpage ask.
  set (rows := newest_first u (wallet_transactions db)).
  set (count := Z.of_nat (length rows)).
  destruct (pages_suffice count l) as (Hpages & Hcover & _); [lia..|].
  set (N := Qceiling (inject_Z count / inject_Z l)) in *.
  assert (forall k, (1 <= k)%nat ->
            ask k
            = (db,
               Sent {| Wallet.balance := Js.or_zero (wallet_balance p);
                       Wallet.recent_transactions :=
                         take (Z.to_nat l) (drop ((k - 1) * Z.to_nat l) rows);
                       Wallet.pagination :=
                         {| Wallet.page := Z.of_nat k;
                            Wallet.limit := l;
                            Wallet.total := count;
                            Wallet.total_pages := N |} |})) as Hask.
  { intros k Hk. subst ask. cbn beta.
    rewrite (getWallet_exec no_faults u _ db p) by
      (cbn [Wallet.q_page Wallet.q_limit];
       rewrite ?(parseInt_or_value _ _ _ (Hpage k)), ?(parseInt_or_value _ _ _ Hlimit)
         by lia; done || lia).
    cbn [Wallet.q_page Wallet.q_limit no_faults Wallet.countError].
    rewrite (parseInt_or_value _ _ _ (Hpage k)), (parseInt_or_value _ _ _ Hlimit) by lia.
    fold rows count N.
    by replace (Z.to_nat (Z.of_nat k - 1)) with (k - 1)%nat by lia. }
  exists (Z.to_nat N). split.
  - intros k Hk. eexists. split; [by apply Hask|]. cbn.
    split; [lia|]. split.
    { subst count rows. unfold newest_first. by rewrite length_rev. }
    split; [rewrite length_take; lia|].
    apply Forall_take, Forall_drop, newest_first_own.
  - rewrite <- seq_shift, map_map.
    rewrite (map_ext_in _ (fun k => take (Z.to_nat l) (drop (k * Z.to_nat l) rows))).
    + rewrite chunks_take. apply take_ge. subst count. nia.
    + intros k _. unfold shown. rewrite Hask by lia. cbn. do 2 f_equal. lia.
Qed.

Lemma parseInt_integer (z : Z) : Js.parseInt (Js.Number (inject_Z z)) = Some z.
Proof.
  cbn. unfold Js.Qtrunc. f_equal.
  destruct (Qle_bool 0 (inject_Z z)); [apply Qfloor_Z|apply Qceiling_Z].
Qed.

Lemma withdrawn_db_profile :
  exists p, mechanic_profiles Tour.withdrawn_db !! "mechanic-1" = Some p.
Proof. eexists. vm_compute. reflexivity. Qed.

(** Three ledger rows shown two a page. *)
Lemma wallet_pages_cover_the_ledger_witness :
  exists pages : nat,
    concat
      (map (fun k =>
              shown (getWallet no_faults Scenario.mechanic
                       (Wallet.mkQuery (Tour.page k) (Js.String "2")) Tour.withdrawn_db))
         (seq 1 pages))
    = newest_first "mechanic-1" (wallet_transactions Tour.withdrawn_db).
Proof.
  destruct withdrawn_db_profile as (p & Hp).
  destruct (wallet_pages_cover_the_ledger "mechanic-1" Tour.withdrawn_db p
              (Js.String "2") Tour.page 2) as (pages & _ & Hcover).
  - done.
  - exact Hp.
  - reflexivity.
  - lia.
  - intros k. apply parseInt_integer.
  - exists pages. exact Hcover.
Defined.

(** X17 (a withdrawal shows in the wallet).  After a withdrawal has
    succeeded, [getWallet] without parameters answers with the debited
    balance, counts one ledger row more for the caller, and shows the
    pending withdrawal first, followed by the rows that were there before,
    twenty rows at most. *)
Theorem withdrawal_shows_in_the_wallet (io : Io) (u : string) (body : WithdrawBody)
    (db : Db) (p : MechanicProfile) (w : Q) :
  u <> "" ->
  mechanic_profiles db !! u = Some p ->
  Js.parseFloat (b_amount body) = Some w ->
  0 < w -> w <= Js.or_zero (wallet_balance p) ->
  updateError io = false -> insertError io = false ->
  let db' := (withdrawFromWallet io (Some u) body db).1 in
  exists response,
    getWallet no_faults (Some u) (Wallet.mkQuery Js.Undefined Js.Undefined) db'
    = (db', Sent response)
    /\ Wallet.balance response = Js.or_zero (wallet_balance p) - w
    /\ Wallet.recent_transactions response
       = take 20 (withdrawal_transaction u w (b_bank_details body)
                    :: newest_first u (wallet_transactions db))
    /\ Wallet.total (Wallet.pagination response)
       = (1 + Z.of_nat (length (rows_of u (wallet_transactions db))))%Z.
Proof.
  intros Hu Hp Hamount Hw Hle Hupd Hins db'. subst db'.
  rewrite (withdraw_success io u body db p w) by done. cbn [fst].
  set (t := withdrawal_transaction u w (b_bank_details body)).
  set (db' := set_wallet_transactions _ _).
  assert (mechanic_profiles db' !! u
          = Some (set_wallet_balance (Js.or_zero (wallet_balance p) - w) p)) as Hp'.
  { subst db'. db_simpl. by apply alter_lookup_eq. }
  assert (newest_first u (wallet_transactions db')
          = t :: newest_first u (wallet_transactions db)) as Hrows.
  { subst db'. db_simpl. unfold newest_first, rows_of.
    rewrite filter_app_one. cbn. rewrite bool_decide_eq_true_2 by done.
    by rewrite rev_app_distr. }
  eexists. split.
  - apply (getWallet_exec no_faults u _ db' _ Hu Hp'); [done|done..].
  - cbn [Wallet.balance Wallet.recent_transactions Wallet.pagination Wallet.total
         no_faults Wallet.countError Wallet.q_page Wallet.q_limit].
    unfold parseInt_or. cbn [Js.parseInt].
    rewrite Hrows. split; [done|]. split; [done|].
    unfold newest_first. cbn [length]. rewrite length_rev. lia.
Qed.

(** A withdrawal of 10.00 from the 85.00 of the settled scenario. *)
Lemma withdrawal_shows_in_the_wallet_witness :
  exists response,
    getWallet no_faults Scenario.mechanic (Wallet.mkQuery Js.Undefined Js.Undefined)
      (withdrawFromWallet (Scenario.io "w") Scenario.mechanic (Scenario.ask 10)
         Scenario.settled_db).1
    = ((withdrawFromWallet (Scenario.io "w") Scenario.mechanic (Scenario.ask 10)
          Scenario.settled_db).1,
       Sent response)
    /\ Wallet.balance response = (0 + (100 - 100 * 0.15)) - 10.
Proof.
  destruct (withdrawal_shows_in_the_wallet (Scenario.io "w") "mechanic-1"
              (Scenario.ask 10) Scenario.settled_db _ 10 ltac:(discriminate)
              settled_db_profile)
    as (response & Hanswer & Hbalance & _).
  - reflexivity.
  - reflexivity.
  - vm_compute. intros H. discriminate H.
  - reflexivity.
  - reflexivity.
  - exists response. split; [exact Hanswer|exact Hbalance].
Defined.

(** ** The dashboard against the wallet *)

Lemma filter_Permutation_bool {A} (f : A -> bool) (l l' : list A) :
  l ≡ₚ l' -> List.filter f l ≡ₚ List.filter f l'.
Proof.
  induction 1 as [|x l l' _ IH|x y l|l l' l'' _ IH _ IH']; cbn.
  - done.
  - destruct (f x); [by constructor|done].
  - destruct (f x), (f y); try done. apply perm_swap.
  - by etrans.
Qed.

Lemma filter_none {A} (f : A -> bool) (l : list A) :
  (forall x, In x l -> f x = false) -> List.filter f l = [].
Proof.
  induction l as [|x l IH]; [done|]. intros H. cbn.
  rewrite (H x) by (by left). apply IH. intros y Hy. apply H. by right.
Qed.

(** Today's jobs after one row has become a job of today, when no other
    row of the provider is one. *)
Lemma one_job_today clock m (requests : gmap string ServiceRequest) id r r' :
  requests !! id = Some r ->
  completed_today clock m (id, r') = true ->
  (forall j rj, requests !! j = Some rj -> j <> id ->
                completed_today clock m (j, rj) = false) ->
  List.filter (completed_today clock m) (map_to_list (<[id := r']> requests))
  = [(id, r')].
Proof.
  intros Hr Htoday Hothers. apply Permutation_singleton_r.
  rewrite <- insert_delete_eq.
  rewrite (filter_Permutation_bool _ _ _
             (map_to_list_insert (delete id requests) id r' (lookup_delete_eq _ _))).
  cbn [List.filter]. rewrite Htoday.
  rewrite filter_none; [done|].
  intros [j rj] Hj. apply list_elem_of_In, elem_of_map_to_list in Hj.
  apply lookup_delete_Some in Hj as [Hne Hj]. apply (Hothers j rj); [done|congruence].
Qed.

Lemma round2_comp x y : x == y -> round2 x = round2 y.
Proof.
  intros E. unfold round2, Js.Math_round. do 2 f_equal. apply Qfloor_comp.
  by rewrite E.
Qed.

(** The rounding to cents moves an amount by half a cent at most. *)
Lemma round2_close (x : Q) : Qabs (round2 x - x) <= 0.005.
Proof.
  unfold round2, Js.Math_round.
  pose proof (Qfloor_le (x * 100 + (1 # 2))) as Hle.
  pose proof (Qlt_floor (x * 100 + (1 # 2))) as Hlt.
  rewrite inject_Z_plus in Hlt.
  set (f := inject_Z (Qfloor (x * 100 + (1 # 2)))) in *.
  change (inject_Z 1) with 1 in Hlt.
  assert (f / 100 == f * (1 # 100)) as E by reflexivity.
  clearbody f. apply Qabs_Qle_condition. rewrite E. split; Lqa.lra.
Qed.

(** X18 (the dashboard counts 10%, the wallet was credited 85%).  When the
    customer's completion finalizes a request with labor cost [L] (the
    provider had confirmed before) and no other request of that provider
    was completed today, then the provider's dashboard shows one job and
    today's earnings within half a cent of [L] less 10% (the sum is
    rounded to cents, and on which side a sum that ends in half a cent
    falls is decided by the floating-point arithmetic of the handler),
    while the balance it shows has grown by [L] less 15%. *)
Theorem dashboard_counts_ten_percent (io : Io) (clock : Stats.Clock) (u id : string)
    (body : CompleteBody) (db : Db) (r : ServiceRequest) (M L : Q) (k : Z) :
  reachable db ->
  u <> "" -> mechanic_id r <> "" ->
  valid_completion body M L k ->
  service_requests db !! id = Some r ->
  customer_id r = u -> status r = in_progress -> mechanic_confirmed r = true ->
  updateError io = false ->
  Stats.jobsError clock = false ->
  String.leb (Stats.today clock) (now io) = true ->
  String.ltb (now io) (Stats.tomorrow clock) = true ->
  (forall j rj, service_requests db !! j = Some rj ->
                completed_today clock (mechanic_id r) (j, rj) = false) ->
  let db' := (completeServiceRequest io (Some u) id body db).1 in
  exists p s,
    mechanic_profiles db !! mechanic_id r = Some p
    /\ getMechanicStats clock (Some (mechanic_id r)) db' = (db', Sent s)
    /\ Stats.today_jobs s = 1%nat
    /\ Qabs (Stats.today_earnings s - L * 0.9) <= 0.005
    /\ Stats.wallet_balance s == Js.or_zero (wallet_balance p) + L * 0.85.
Proof.
  intros Hreach Hu Hm Hvalid Hr Hc Hs Hmc Hupd Hjobs Hfrom Hto Hothers db'.
  destruct (mechanics_have_profiles_reachable db Hreach id r Hr) as [p Hp].
  exists p. subst db'.
  rewrite (completeServiceRequest_exec io u id body db r M L k) by done.
  cbn [fst]. rewrite Hmc.
  set (upd := customer_update (now io) true M L k (b_review body)).
  set (db1 := update_row id upd db).
  assert (List.filter (is_commission_for id) (wallet_transactions db1) = []) as Hnone.
  { apply (no_commission_yet db id r); [done..|]. by rewrite Hs. }
  rewrite (settle_runs (mechanic_id r) L id db1 p Hnone Hp).
  set (db2 := set_wallet_transactions _ _).
  set (db3 := rate (mechanic_id r) db2).
  assert (service_requests db3 = <[id := apply_update upd r]> (service_requests db))
    as Hrows.
  { subst db3. rewrite rate_requests. subst db2 db1. unfold update_row. db_simpl.
    by apply alter_as_insert. }
  destruct (rate_profiles (mechanic_id r) db2) as (g & Hprof & Hg).
  assert (mechanic_profiles db3 !! mechanic_id r
          = Some (g (set_wallet_balance
                       (Js.or_zero (wallet_balance p) + (L - L * 0.15)) p))) as Hp3.
  { subst db3. rewrite Hprof. subst db2 db1. unfold update_row. db_simpl.
    rewrite lookup_alter_eq, lookup_alter_eq, Hp. done. }
  assert (List.filter (completed_today clock (mechanic_id r))
            (map_to_list (service_requests db3))
          = [(id, apply_update upd r)]) as Htoday.
  { rewrite Hrows. apply (one_job_today _ _ _ _ r); [done| |].
    - unfold completed_today. cbn. rewrite Hfrom, Hto.
      by rewrite !bool_decide_eq_true_2.
    - intros j rj Hj _. by apply Hothers. }
  eexists. split; [done|]. split.
  - unfold getMechanicStats. unfold bind at 1. rewrite require_user_some by done.
    unfold_queries. monad_simpl. rewrite Hp3. monad_simpl.
    rewrite Hjobs, Htoday. reflexivity.
  - cbn [Stats.today_jobs Stats.today_earnings Stats.wallet_balance length].
    split; [done|]. split.
    + rewrite (round2_comp _ (L * 0.9)); [apply round2_close|].
      unfold todayEarnings. cbn. field.
    + rewrite Hg. cbn. field.
Qed.

Lemma mechanic_confirmed_db_rows :
  service_requests Scenario.mechanic_confirmed_db
  = {[ "request-1" :=
         apply_update (mechanic_update Scenario.clock false) Scenario.in_progress_row ]}.
Proof. vm_compute. reflexivity. Qed.

(** A labor cost of 100.85, of which 90% is 90.765: half a cent to round. *)
Lemma dashboard_counts_ten_percent_witness :
  let db' :=
    (completeServiceRequest (Scenario.io "request-1") (Some "customer-1") "request-1"
       (Scenario.priced (Js.Number 50) (Js.Number 100.85) 5)
       Scenario.mechanic_confirmed_db).1 in
  exists p s,
    mechanic_profiles Scenario.mechanic_confirmed_db !! "mechanic-1" = Some p
    /\ getMechanicStats Tour.day (Some "mechanic-1") db' = (db', Sent s)
    /\ Stats.today_jobs s = 1%nat
    /\ Qabs (Stats.today_earnings s - 100.85 * 0.9) <= 0.005
    /\ Stats.wallet_balance s == Js.or_zero (wallet_balance p) + 100.85 * 0.85.
Proof.
  refine (dashboard_counts_ten_percent (Scenario.io "request-1") Tour.day "customer-1"
            "request-1" (Scenario.priced (Js.Number 50) (Js.Number 100.85) 5)
            Scenario.mechanic_confirmed_db
            (apply_update (mechanic_update Scenario.clock false) Scenario.in_progress_row)
            50 100.85 5 reachable_mechanic_confirmed_db _ _ _
            mechanic_confirmed_db_lookup _ _ _ _ _ _ _ _).
  - intros H. discriminate H.
  - intros H. discriminate H.
  - repeat split; (reflexivity || lia).
  - reflexivity.
  - reflexivity.
  - reflexivity.
  - reflexivity.
  - reflexivity.
  - reflexivity.
  - reflexivity.
  - intros j rj Hj. rewrite mechanic_confirmed_db_rows in Hj.
    apply lookup_singleton_Some in Hj as [_ <-]. reflexivity.
Defined.

(** ** The matcher: distances *)

Section MatcherDistances.
Import Matcher.
Local Open Scope R_scope.

(** The arc tangent of two non-negative numbers is an angle of the first
    quadrant. *)
Lemma atan2_first_quadrant (y x : R) : 0 <= y -> 0 <= x -> 0 <= atan2 y x <= PI / 2.
Proof.
  intros Hy Hx. unfold atan2. pose proof PI_RGT_0 as Hpi.
  destruct (Rlt_dec 0 x) as [Hpos|_].
  - pose proof (atan_bound (y / x)) as [_ Hup].
    split; [|lra].
    destruct (Req_dec y 0) as [->|Hne].
    + replace (0 / x) with 0 by (field; lra). rewrite atan_0. lra.
    + assert (0 < y / x) as Hq by (apply Rdiv_lt_0_compat; lra).
      apply atan_increasing in Hq. rewrite atan_0 in Hq. lra.
  - destruct (Rlt_dec x 0); [lra|].
    destruct (Rlt_dec 0 y); [lra|].
    destruct (Rlt_dec y 0); lra.
Qed.

Lemma distance_bounds (lat1 lon1 lat2 lon2 : R) :
  0 <= calculateDistance lat1 lon1 lat2 lon2 <= 6371 * PI.
Proof.
  unfold calculateDistance.
  match goal with
  | |- _ <= 6371 * (2 * atan2 (sqrt ?a) (sqrt ?b)) <= _ =>
      pose proof (atan2_first_quadrant (sqrt a) (sqrt b) (sqrt_pos a) (sqrt_pos b))
  end.
  lra.
Qed.

(** X19 (the distance is symmetric and bounded).  The distance computed
    between two places does not depend on which of them comes first; it is
    never negative and never more than half the circumference of the
    sphere of radius 6371 km; and the distance from a place to itself is
    zero. *)
Theorem distance_is_symmetric_and_bounded (lat1 lon1 lat2 lon2 : R) :
  calculateDistance lat1 lon1 lat2 lon2 = calculateDistance lat2 lon2 lat1 lon1
  /\ 0 <= calculateDistance lat1 lon1 lat2 lon2 <= 6371 * PI
  /\ calculateDistance lat1 lon1 lat1 lon1 = 0.
Proof.
  split; [|split].
  - unfold calculateDistance.
    match goal with
    | |- 6371 * (2 * atan2 (sqrt ?a) (sqrt (1 - ?a)))
         = 6371 * (2 * atan2 (sqrt ?b) (sqrt (1 - ?b))) =>
        assert (b = a) as ->; [|reflexivity]
    end.
    replace ((lat1 - lat2) * PI / 180 / 2) with (- ((lat2 - lat1) * PI / 180 / 2))
      by lra.
    replace ((lon1 - lon2) * PI / 180 / 2) with (- ((lon2 - lon1) * PI / 180 / 2))
      by lra.
    rewrite !sin_neg. ring.
  - apply distance_bounds.
  - apply calculateDistance_same.
Qed.


Lemma Int_part_monotone (x y : R) : x <= y -> (Int_part x <= Int_part y)%Z.
Proof.
  intros Hxy.
  destruct (base_Int_part x) as [Hx _]. destruct (base_Int_part y) as [_ Hy].
  assert (IZR (Int_part x) < IZR (Int_part y) + 1) as H by lra.
  rewrite <- plus_IZR in H. apply lt_IZR in H. lia.
Qed.

Lemma round1_monotone (x y : R) : x <= y -> round1 x <= round1 y.
Proof.
  intros Hxy. unfold round1.
  assert (Int_part (x * 10 + / 2) <= Int_part (y * 10 + / 2))%Z as H
    by (apply Int_part_monotone; lra).
  apply IZR_le in H. lra.
Qed.

End MatcherDistances.

(** ** The matcher: who is listed *)

Section MatcherAnswers.
Import Matcher.
Local Open Scope R_scope.

Lemma truthy_coordinate_true (x : option R) :
  truthy_coordinate x = true <-> exists v, x = Some v /\ v <> 0.
Proof.
  unfold truthy_coordinate. destruct x as [v|].
  - destruct (Req_dec_T v 0) as [->|Hne].
    + split; [done|]. intros (v & [= <-] & H). by destruct H.
    + split; [eauto|done].
  - split; [done|]. by intros (v & H & _).
Qed.

(** The callback keeps a provider exactly when it is located, offers what
    is searched for and lies within the radius. *)
Lemma nearby_of_spec latitude longitude radiusKm search specMap mechanic n :
  nearby_of latitude longitude radiusKm search specMap mechanic = Some n
  <-> exists lat lng,
        located mechanic lat lng
        /\ offers specMap search mechanic
        /\ calculateDistance latitude longitude lat lng <= radiusKm
        /\ n = listing specMap mechanic lat lng
                 (calculateDistance latitude longitude lat lng).
Proof.
  unfold nearby_of, located, offers.
  destruct (truthy_coordinate (location_lat (users mechanic))) eqn:Hlat.
  2:{ cbn. split; [done|]. intros (lat & lng & (H1 & H2 & _) & _).
      assert (truthy_coordinate (location_lat (users mechanic)) = true)
        by (apply truthy_coordinate_true; eauto).
      congruence. }
  destruct (truthy_coordinate (location_lng (users mechanic))) eqn:Hlng.
  2:{ cbn. split; [done|]. intros (lat & lng & (_ & _ & H1 & H2) & _).
      assert (truthy_coordinate (location_lng (users mechanic)) = true)
        by (apply truthy_coordinate_true; eauto).
      congruence. }
  apply truthy_coordinate_true in Hlat as (lat & Hlat & Hlat0).
  apply truthy_coordinate_true in Hlng as (lng & Hlng & Hlng0).
  rewrite Hlat, Hlng. cbn [negb orb coordinate].
  destruct (truthy_str search) eqn:Hsearch; cbn [andb].
  - destruct (existsb _ _) eqn:Hspec; cbn [negb].
    + apply existsb_exists in Hspec as (s & Hs & Heq). apply String.eqb_eq in Heq.
      destruct (Rlt_dec _ _) as [Hfar|Hnear].
      * split; [done|]. intros (lat' & lng' & (? & _ & ? & _) & _ & Hd & _).
        simplify_eq. lra.
      * split.
        -- intros [= <-]. exists lat, lng. repeat split; try done; [eauto|lra].
        -- intros (lat' & lng' & (? & _ & ? & _) & _ & _ & ->). by simplify_eq.
    + split; [done|]. intros (lat' & lng' & _ & Hoffers & _).
      destruct (Hoffers eq_refl) as (s & Hs & Heq).
      assert (existsb
                (fun s => String.eqb (Js.toLowerCase s)
                            (Js.toLowerCase (default "" search)))
                (specs_of specMap (id mechanic)) = true) as Hexists.
      { apply existsb_exists. exists s. split; [done|]. by apply String.eqb_eq. }
      congruence.
  - destruct (Rlt_dec _ _) as [Hfar|Hnear].
    + split; [done|]. intros (lat' & lng' & (? & _ & ? & _) & _ & Hd & _).
      simplify_eq. lra.
    + split.
      * intros [= <-]. exists lat, lng. repeat split; try done. lra.
      * intros (lat' & lng' & (? & _ & ? & _) & _ & _ & ->). by simplify_eq.
Qed.







(** Asked from Lagos, whatever the radius parameter, the query parses to
    the place of the provider, who stands at distance zero. *)
Lemma from_lagos_parses radius :
  exists latitude longitude,
    Js.parseFloat (q_lat (Tour.from_lagos radius)) = Some latitude
    /\ Js.parseFloat (q_lng (Tour.from_lagos radius)) = Some longitude
    /\ calculateDistance (Q2R latitude) (Q2R longitude) (Q2R 6.5) (Q2R 3.4) = 0.
Proof.
  destruct (Js.parseFloat (q_lat (Tour.from_lagos radius))) as [latitude|] eqn:Hlat;
    [|by vm_compute in Hlat].
  destruct (Js.parseFloat (q_lng (Tour.from_lagos radius))) as [longitude|] eqn:Hlng;
    [|by vm_compute in Hlng].
  exists latitude, longitude. split; [done|]. split; [done|].
  vm_compute in Hlat. injection Hlat as <-.
  vm_compute in Hlng. injection Hlng as <-.
  match goal with
  | |- calculateDistance (Q2R ?x) (Q2R ?y) _ _ = _ =>
      replace (Q2R x) with (Q2R 6.5) by (apply Qeq_eqR; reflexivity);
      replace (Q2R y) with (Q2R 3.4) by (apply Qeq_eqR; reflexivity)
  end.
  apply calculateDistance_same.
Qed.







Lemma getNearbyMechanics_exec query mechanics specs latitude longitude :
  Js.truthy (q_lat query) = true -> Js.truthy (q_lng query) = true ->
  Js.parseFloat (q_lat query) = Some latitude ->
  Js.parseFloat (q_lng query) = Some longitude ->
  getNearbyMechanics query mechanics specs
  = Sent (sort_by_distance
            (omap (nearby_of (Q2R latitude) (Q2R longitude)
                     (Q2R (radius_of (q_radius query)))
                     (q_specialization query) (default [] specs))
               (List.filter
                  (fun m => bool_decide (verification_status m = approved)
                            && Bool.eqb (is_available m) true)
                  mechanics))).
Proof.
  intros Htlat Htlng Hlat Hlng.
  unfold getNearbyMechanics. rewrite Htlat, Htlng, Hlat, Hlng. cbn [negb orb].
  by destruct (List.filter _ mechanics).
Qed.

(** X22 (the edges of the radius).  A radius that parses to a negative
    number is not refused: the answer is the empty list.  With a radius of
    at least half the circumference (6371 * PI km) every provider that is
    approved, available, located and offers the specialization searched
    for is listed, however far away. *)
Theorem radius_edges (query : Query) (mechanics : list Mechanic)
    (specs : option (list Specialization)) (latitude longitude : Q) :
  Js.truthy (q_lat query) = true -> Js.truthy (q_lng query) = true ->
  Js.parseFloat (q_lat query) = Some latitude ->
  Js.parseFloat (q_lng query) = Some longitude ->
  ((radius_of (q_radius query) < 0)%Q ->
   getNearbyMechanics query mechanics specs = Sent [])
  /\ (6371 * PI <= Q2R (radius_of (q_radius query)) ->
      exists result,
        getNearbyMechanics query mechanics specs = Sent result
        /\ forall m lat lng,
             In m mechanics ->
             verification_status m = approved -> is_available m = true ->
             located m lat lng ->
             offers (default [] specs) (q_specialization query) m ->
             In (listing (default [] specs) m lat lng
                   (calculateDistance (Q2R latitude) (Q2R longitude) lat lng))
               result).
Proof.
  intros Htlat Htlng Hlat Hlng.
  pose proof (getNearbyMechanics_exec query mechanics specs latitude longitude
                Htlat Htlng Hlat Hlng) as Hanswer.
  split.
  - intros Hnegative. rewrite Hanswer. clear Hanswer. f_equal.
    assert (omap (nearby_of (Q2R latitude) (Q2R longitude)
                    (Q2R (radius_of (q_radius query)))
                    (q_specialization query) (default [] specs))
              (List.filter
                 (fun m => bool_decide (verification_status m = approved)
                           && Bool.eqb (is_available m) true)
                 mechanics) = []) as ->; [|done].
    induction (List.filter _ mechanics) as [|m l IH]; [done|].
    cbn [omap list_omap].
    destruct (nearby_of _ _ _ _ _ m) as [n|] eqn:Hn; [|exact IH].
    apply nearby_of_spec in Hn as (lat & lng & _ & _ & Hd & _).
    destruct (distance_bounds (Q2R latitude) (Q2R longitude) lat lng) as [Hpos _].
    apply Qlt_Rlt in Hnegative. rewrite RMicromega.Q2R_0 in Hnegative. lra.
  - intros Hwide. eexists. split; [exact Hanswer|].
    intros m lat lng Hm Happroved Havailable Hlocated Hoffers.
    apply (Permutation_in _ (Permutation_sym (sort_by_distance_perm _))).
    apply list_elem_of_In, list_elem_of_omap. exists m. split.
    + apply list_elem_of_In, filter_In. split; [done|].
      rewrite bool_decide_eq_true_2 by done. by rewrite Havailable.
    + apply nearby_of_spec. exists lat, lng. repeat (split; [done|]).
      split; [|done].
      destruct (distance_bounds (Q2R latitude) (Q2R longitude) lat lng) as [_ Hup].
      lra.
Qed.

(** A radius of minus five, asked next to the provider in Lagos. *)
Lemma radius_edges_witness :
  getNearbyMechanics (Tour.from_lagos (Js.String "-5")) [Tour.lagos] None = Sent [].
Proof.
  destruct (from_lagos_parses (Js.String "-5"))
    as (latitude & longitude & Hlat & Hlng & _).
  refine (proj1 (radius_edges (Tour.from_lagos (Js.String "-5")) [Tour.lagos] None
                   latitude longitude _ _ Hlat Hlng) _).
  - reflexivity.
  - reflexivity.
  - vm_compute. reflexivity.
Defined.

(** ** The position a provider reports, and the search *)





End MatcherAnswers.

(** ** Flags, marks and the provider's rating *)

Lemma legal_update_confirmations r u :
  legal_update r u -> confirmations_match_status r ->
  confirmations_match_status (apply_update u r).
Proof.
  unfold confirmations_match_status.
  destruct 1 as [r Hs|r [Hs|Hs]|r t Hs|r t M L k review Hs Hk|r t Hs]; cbn;
    intros [Hdone Hflags]; rewrite Hs in *;
    destruct (mechanic_confirmed r), (customer_confirmed r); cbn;
    naive_solver.
Qed.

Lemma legal_update_rating r u :
  legal_update r u -> rating_in_range r -> rating_in_range (apply_update u r).
Proof.
  unfold rating_in_range.
  destruct 1 as [r Hs|r Hs|r t Hs|r t M L k review Hs Hk|r t Hs]; cbn; try done.
  intros _ k' [= <-]. done.
Qed.

(** An invariant of single rows that holds of a fresh row and is kept by
    every legal update holds of every row of every reachable store. *)
Lemma reachable_rows (P : ServiceRequest -> Prop) :
  (forall r, fresh_row r -> P r) ->
  (forall r u, legal_update r u -> P r -> P (apply_update u r)) ->
  forall db id r, reachable db -> service_requests db !! id = Some r -> P r.
Proof.
  intros Hfresh Hupdate db id r Hreach. revert id r.
  induction Hreach as [db (Hempty & _)|db io c Hreach IH]; intros id r Hr.
  - rewrite Hempty in Hr. done.
  - destruct (handle_row io c db id r Hr)
      as [Hsame|[(r0 & u & Hr0 & Hlegal & ->)|(_ & Hnew & _)]].
    + by apply (IH id).
    + apply Hupdate; [done|]. by apply (IH id).
    + by apply Hfresh.
Qed.

(** X24 (completed means confirmed by both).  In every reachable store a
    request is completed exactly when both the provider and the customer
    have confirmed it, and a request that either of them has confirmed is
    in progress or completed. *)
Theorem completed_means_confirmed_by_both (db : Db) (id : string) (r : ServiceRequest) :
  reachable db ->
  service_requests db !! id = Some r ->
  (status r = completed
   <-> mechanic_confirmed r = true /\ customer_confirmed r = true)
  /\ (mechanic_confirmed r = true \/ customer_confirmed r = true ->
      status r = in_progress \/ status r = completed).
Proof.
  intros Hreach Hr.
  apply (reachable_rows confirmations_match_status) with (db := db) (id := id);
    [| |done..].
  - intros r0 (Hs & Hmc & Hcc & _). unfold confirmations_match_status.
    rewrite Hs, Hmc, Hcc. naive_solver.
  - apply legal_update_confirmations.
Qed.

Lemma completed_means_confirmed_by_both_witness :
  mechanic_confirmed Scenario.completed_row = true
  /\ customer_confirmed Scenario.completed_row = true.
Proof.
  apply (proj1 (completed_means_confirmed_by_both Scenario.settled_db "request-1"
                  Scenario.completed_row reachable_settled_db settled_db_lookup)).
  reflexivity.
Defined.

Lemma sum_ratings_bounds (l : list Z) :
  Forall (fun k => (1 <= k <= 5)%Z) l ->
  (Z.of_nat (length l) <= sum_ratings l <= 5 * Z.of_nat (length l))%Z.
Proof.
  induction 1 as [|k l Hk _ IH]; [done|].
  rewrite sum_ratings_cons. cbn [length]. lia.
Qed.

(** The rounded mean of marks between 1 and 5 lies between 1 and 5. *)
Lemma rounded_average_bounds (l : list Z) :
  l <> [] ->
  Forall (fun k => (1 <= k <= 5)%Z) l ->
  exists z : Z, rounded_average l = inject_Z z / 10 /\ (10 <= z <= 50)%Z.
Proof.
  intros Hne Hall. eexists. split; [reflexivity|].
  pose proof (sum_ratings_bounds l Hall) as [Hlow Hhigh].
  assert (0 < Z.of_nat (length l))%Z as Hlen by (destruct l; [done|cbn; lia]).
  set (S := sum_ratings l) in *. set (n := Z.of_nat (length l)) in *.
  assert (0 < inject_Z n) as Hn by (rewrite <- (Zlt_Qlt 0); exact Hlen).
  assert (1 <= inject_Z S / inject_Z n) as H1.
  { apply Qle_shift_div_l; [done|]. rewrite Qmult_1_l, <- Zle_Qle. exact Hlow. }
  assert (inject_Z S / inject_Z n <= 5) as H5.
  { apply Qle_shift_div_r; [done|].
    change 5 with (inject_Z 5). rewrite <- inject_Z_mult, <- Zle_Qle. exact Hhigh. }
  unfold Js.Math_round. split.
  - change 10%Z with (Qfloor (1 * 10 + (1 # 2))). apply Qfloor_resp_le.
    apply Qplus_le_l. apply Qmult_le_compat_r; [done|]. intros H. discriminate H.
  - change 50%Z with (Qfloor (5 * 10 + (1 # 2))). apply Qfloor_resp_le.
    apply Qplus_le_l. apply Qmult_le_compat_r; [done|]. intros H. discriminate H.
Qed.

Lemma ratings_of_in_range db m :
  reachable db ->
  Forall (fun k => (1 <= k <= 5)%Z) (ratings_of m (service_requests db)).
Proof.
  intros Hreach. apply List.Forall_forall. intros k Hk.
  unfold ratings_of in Hk.
  apply list_elem_of_In, list_elem_of_omap in Hk as ([id r] & Hr & Hk).
  apply elem_of_map_to_list in Hr.
  unfold rating_of in Hk. cbn in Hk. case_match; [|done].
  revert k Hk. change (rating_in_range r).
  apply (reachable_rows rating_in_range) with (db := db) (id := id); [| |done..].
  - intros r0 (_ & _ & _ & _ & _ & _ & Hnone) k. by rewrite Hnone.
  - apply legal_update_rating.
Qed.

(** X25 (marks and ratings stay between 1 and 5).  In every reachable
    store every stored [customer_rating] is an integer from 1 to 5, and a
    provider with at least one rated request has a [rating] that is a
    number of tenths between 1.0 and 5.0. *)
Theorem ratings_stay_between_one_and_five (db : Db) :
  reachable db ->
  (forall id r k,
     service_requests db !! id = Some r -> customer_rating r = Some k ->
     (1 <= k <= 5)%Z)
  /\ (forall m p,
        mechanic_profiles db !! m = Some p ->
        ratings_of m (service_requests db) <> [] ->
        exists z : Z, rating p = Some (inject_Z z / 10) /\ (10 <= z <= 50)%Z).
Proof.
  intros Hreach. split.
  - intros id r k Hr. revert k. change (rating_in_range r).
    apply (reachable_rows rating_in_range) with (db := db) (id := id); [| |done..].
    + intros r0 (_ & _ & _ & _ & _ & _ & Hnone) k. by rewrite Hnone.
    + apply legal_update_rating.
  - intros m p Hp Hrated.
    rewrite (rating_current_reachable db Hreach m p Hp Hrated).
    destruct (rounded_average_bounds (ratings_of m (service_requests db)) Hrated
                (ratings_of_in_range db m Hreach)) as (z & -> & Hz).
    by exists z.
Qed.

Lemma ratings_stay_between_one_and_five_witness :
  exists z : Z,
    rating (set_rating (rounded_average [5%Z])
              (set_wallet_balance (0 + (100 - 100 * 0.15)) (Scenario.profile 0)))
    = Some (inject_Z z / 10)
    /\ (10 <= z <= 50)%Z.
Proof.
  apply (proj2 (ratings_stay_between_one_and_five Scenario.settled_db
                  reachable_settled_db) "mechanic-1").
  - apply settled_db_profile.
  - vm_compute. intros H. discriminate H.
Defined.

(** ** Exactly one commission per settled request *)

Lemma update_row_lookup_ne id u db j :
  j <> id -> service_requests (update_row id u db) !! j = service_requests db !! j.
Proof. intros H. unfold update_row. db_simpl. by rewrite lookup_alter_ne. Qed.

(** The row at [id] after an update of [id0] that does not complete. *)
Lemma not_completed_by id0 u db r0 id r' :
  service_requests db !! id0 = Some r0 ->
  status (apply_update u r0) <> completed ->
  service_requests (update_row id0 u db) !! id = Some r' ->
  status r' = completed ->
  service_requests db !! id = Some r'.
Proof.
  intros Hr0 Hu Hr' Hdone. destruct (decide (id = id0)) as [->|Hne].
  - rewrite (update_row_lookup _ _ _ _ Hr0) in Hr'. congruence.
  - by rewrite update_row_lookup_ne in Hr'.
Qed.

(** A row that is completed after a call was completed before it, unless
    the call is a completion of that very request. *)
Lemma completed_by_completion io c db id r' :
  service_requests (handle io c db).1 !! id = Some r' ->
  status r' = completed ->
  service_requests db !! id = Some r'
  \/ (exists user body, c = CompleteServiceRequest user id body)
  \/ (exists user, c = CompleteServiceRequestMechanic user id).
Proof.
  intros Hr' Hdone.
  destruct c; cbn [handle] in Hr'; unfold outcome_of in Hr'; cbn [fst] in Hr'.
  - left. destruct (createServiceRequest io user body db) as [db' [[id0 r0]|e]] eqn:E.
    + cbn [fst] in Hr'.
      destruct (createServiceRequest_sent io user body db db' id0 r0 E)
        as (customer & p & _ & _ & _ & _ & _ & _ & _ & _ & _ & -> & _
            & _ & (Hs & _) & _ & _ & ->).
      rewrite notify_requests in Hr'. db_simpl.
      apply lookup_insert_Some in Hr' as [[<- <-]|[_ Hr']]; [congruence|done].
    + pose proof (create_thrown io user body db e) as H. rewrite E in H.
      cbn [fst snd] in *. by rewrite H in Hr'.
  - left. destruct (cancelServiceRequest io user id0 db).2 as [r1|e] eqn:E.
    + destruct (cancel_sent io user id0 db r1 E) as (r0 & _ & _ & Hr0 & _ & _ & Hdb).
      rewrite Hdb, notify_requests in Hr'.
      by apply (not_completed_by id0 _ db r0 id r') in Hr'.
    + by rewrite (cancel_thrown io user id0 db e E) in Hr'.
  - destruct (decide (id = id0)) as [->|Hne]; [right; left; eauto|]. left.
    destruct (completeServiceRequest_cases io user id0 body db)
      as [Hdb|(u0 & r & M & L & k & -> & Hu & Hvalid & Hr & Hc & Hs & Hupd)];
      [by rewrite Hdb in Hr'|].
    rewrite (completeServiceRequest_exec io u0 id0 body db r M L k) in Hr' by done.
    cbn [fst] in Hr'. rewrite rate_requests in Hr'.
    destruct (mechanic_confirmed r); [rewrite settle_requests in Hr'|];
      by rewrite update_row_lookup_ne in Hr'.
  - left. by rewrite toggle_requests in Hr'.
  - left. destruct (acceptServiceRequest io user id0 db).2 as [r1|e] eqn:E.
    + destruct (accept_sent io user id0 db r1 E)
        as (r0 & p & _ & _ & _ & _ & Hr0 & _ & _ & Hdb).
      rewrite Hdb, notify_requests in Hr'.
      by apply (not_completed_by id0 _ db r0 id r') in Hr'.
    + by rewrite (accept_thrown io user id0 db e E) in Hr'.
  - left. destruct (declineServiceRequest io user id0 db).2 as [r1|e] eqn:E.
    + destruct (decline_sent io user id0 db r1 E) as (r0 & _ & _ & Hr0 & _ & _ & Hdb).
      rewrite Hdb in Hr'.
      by apply (not_completed_by id0 _ db r0 id r') in Hr'.
    + by rewrite (decline_thrown io user id0 db e E) in Hr'.
  - left. destruct (markArrived io user id0 db).2 as [r1|e] eqn:E.
    + destruct (arrive_sent io user id0 db r1 E) as (r0 & _ & _ & Hr0 & _ & _ & Hdb).
      rewrite Hdb, notify_requests in Hr'.
      by apply (not_completed_by id0 _ db r0 id r') in Hr'.
    + by rewrite (arrive_thrown io user id0 db e E) in Hr'.
  - destruct (decide (id = id0)) as [->|Hne]; [right; right; eauto|]. left.
    destruct (completeServiceRequestMechanic_cases io user id0 db)
      as [Hdb|(u0 & r & -> & Hu & Hr & Hm & Hs & Hupd)]; [by rewrite Hdb in Hr'|].
    rewrite (completeServiceRequestMechanic_exec io u0 id0 db r) in Hr' by done.
    cbn [fst] in Hr'.
    destruct (customer_confirmed r && Js.truthy_num (labor_cost r));
      [rewrite notify_requests, settle_requests in Hr'|];
      by rewrite update_row_lookup_ne in Hr'.
  - left. by rewrite withdraw_requests in Hr'.
Qed.

(** The commission rows of a completed request are not touched. *)
Lemma kept_commissions db db' id r :
  transition db db' ->
  service_requests db !! id = Some r -> status r = completed ->
  commissions_for id db' = commissions_for id db.
Proof.
  intros (_ & Hwallet & _) Hr Hdone. unfold commissions_for.
  destruct Hwallet as [user g Htx _ _|user g w details Htx _ _
                      |user g id0 r0 r1 L Htx _ _ _ Hr0 Hs0 _ _ _ _];
    rewrite Htx.
  - done.
  - by rewrite filter_app_one, withdrawal_is_no_commission, app_nil_r.
  - rewrite filter_app_one, commission_for_other, app_nil_r; [done|].
    intros ->. congruence.
Qed.

(** A settlement that finds no commission row leaves exactly one. *)
Lemma settle_leaves_one m L id db r :
  reachable db ->
  service_requests db !! id = Some r -> status r = in_progress -> mechanic_id r = m ->
  forall db1,
    wallet_transactions db1 = wallet_transactions db ->
    mechanic_profiles db1 = mechanic_profiles db ->
    commissions_for id (settle m L id db1) = 1%nat.
Proof.
  intros Hreach Hr Hs Hm db1 Htx Hprof.
  destruct (mechanics_have_profiles_reachable db Hreach id r Hr) as [p Hp].
  rewrite Hm in Hp.
  assert (List.filter (is_commission_for id) (wallet_transactions db1) = []) as Hnone.
  { rewrite Htx. apply (no_commission_yet db id r); [done..|]. by rewrite Hs. }
  rewrite (settle_runs m L id db1 p Hnone) by (by rewrite Hprof).
  unfold commissions_for. db_simpl. rewrite filter_app_one, Hnone.
  unfold is_commission_for. cbn. by rewrite !bool_decide_eq_true_2.
Qed.

(** X26 (a settled request has exactly one commission row).  In every
    reachable store a completed request whose labor cost is not zero is
    referenced by exactly one commission deduction. *)
Theorem completed_request_has_one_commission (db : Db) (id : string)
    (r : ServiceRequest) (L : Q) :
  reachable db ->
  service_requests db !! id = Some r ->
  status r = completed ->
  labor_cost r = Some L -> ~ L == 0 ->
  commissions_for id db = 1%nat.
Proof.
  intros Hreach. revert id r L.
  induction Hreach as [db (Hempty & _)|db io c Hreach IH]; intros id r' L Hr' Hdone HL HL0.
  - rewrite Hempty in Hr'. done.
  - destruct (completed_by_completion io c db id r' Hr' Hdone)
      as [Hsame|[(user & body & ->)|(user & ->)]].
    + rewrite (kept_commissions db _ id r' (handle_transition io c db) Hsame Hdone).
      by apply (IH id r' L).
    + cbn [handle] in *. unfold outcome_of in *. cbn [fst] in *.
      destruct (completeServiceRequest_cases io user id body db)
        as [Hdb|(u0 & r & M & L0 & k & -> & Hu & Hvalid & Hr & Hc & Hs & Hupd)].
      { rewrite Hdb in *. by apply (IH id r' L). }
      rewrite (completeServiceRequest_exec io u0 id body db r M L0 k) in * by done.
      cbn [fst] in *. unfold commissions_for. rewrite rate_transactions.
      destruct (mechanic_confirmed r) eqn:Hmc.
      * by apply (settle_leaves_one (mechanic_id r) L0 id db r).
      * rewrite rate_requests, (update_row_lookup _ _ _ _ Hr) in Hr'.
        injection Hr' as <-. cbn in Hdone. congruence.
    + cbn [handle] in *. unfold outcome_of in *. cbn [fst] in *.
      destruct (completeServiceRequestMechanic_cases io user id db)
        as [Hdb|(u0 & r & -> & Hu & Hr & Hm & Hs & Hupd)].
      { rewrite Hdb in *. by apply (IH id r' L). }
      rewrite (completeServiceRequestMechanic_exec io u0 id db r) in * by done.
      cbn [fst] in *.
      assert (r' = apply_update (mechanic_update (now io) (customer_confirmed r)) r)
        as ->.
      { destruct (customer_confirmed r && Js.truthy_num (labor_cost r));
          [rewrite notify_requests, settle_requests in Hr'|];
          rewrite (update_row_lookup _ _ _ _ Hr) in Hr'; congruence. }
      cbn in HL, Hdone.
      destruct (customer_confirmed r) eqn:Hcc; [|cbn in Hdone; congruence].
      rewrite HL. cbn [Js.truthy_num andb Js.or_zero].
      rewrite (proj2 (Qeq_bool_false L 0) HL0). cbn [negb].
      unfold commissions_for, notify. db_simpl.
      by apply (settle_leaves_one u0 L id db r).
Qed.

Lemma completed_request_has_one_commission_witness :
  commissions_for "request-1" Scenario.settled_db = 1%nat.
Proof.
  apply (completed_request_has_one_commission Scenario.settled_db "request-1"
           Scenario.completed_row 100 reachable_settled_db settled_db_lookup).
  - reflexivity.
  - reflexivity.
  - intros H. discriminate H.
Defined.

(** ** Marks with a fraction *)

Lemma Qtrunc_mark (q : Q) : 1 <= q -> q < 6 -> (1 <= Js.Qtrunc q <= 5)%Z.
Proof.
  intros H1 H6. unfold Js.Qtrunc.
  assert (Qle_bool 0 q = true) as ->.
  { apply Qle_bool_iff. apply Qle_trans with 1; [|done]. intros H. discriminate H. }
  split.
  - change 1%Z with (Qfloor 1). by apply Qfloor_resp_le.
  - assert (inject_Z (Qfloor q) < inject_Z 6) as H
      by (apply Qle_lt_trans with q; [apply Qfloor_le|done]).
    rewrite <- Zlt_Qlt in H. lia.
Qed.

(** X27 (a mark with a fraction is cut, not refused).  When the customer
    sends the rating as a number [q], the completion takes its integer
    part: every [q] with [1 <= q < 6] is accepted and the mark stored is
    [q] rounded down, so that 5.9 is stored as 5. *)
Theorem fractional_mark_is_cut (io : Io) (u id : string) (body : CompleteBody) (db : Db)
    (r : ServiceRequest) (M L q : Q) :
  u <> "" ->
  Js.truthy (b_material_cost body) = true -> Js.truthy (b_labor_cost body) = true ->
  Js.parseFloat (b_material_cost body) = Some M ->
  Js.parseFloat (b_labor_cost body) = Some L ->
  b_rating body = Js.Number q ->
  1 <= q -> q < 6 ->
  service_requests db !! id = Some r ->
  customer_id r = u -> status r = in_progress -> updateError io = false ->
  exists r',
    (completeServiceRequest io (Some u) id body db).2 = Sent r'
    /\ service_requests (completeServiceRequest io (Some u) id body db).1 !! id = Some r'
    /\ customer_rating r' = Some (Qfloor q)
    /\ (1 <= Qfloor q <= 5)%Z.
Proof.
  intros Hu Htm Htl Hm Hl Hrating H1 H6 Hr Hc Hs Hupd.
  pose proof (Qtrunc_mark q H1 H6) as Hmark.
  assert (Js.Qtrunc q = Qfloor q) as Hfloor.
  { unfold Js.Qtrunc.
    assert (Qle_bool 0 q = true) as ->; [|done].
    apply Qle_bool_iff. apply Qle_trans with 1; [|done]. intros H. discriminate H. }
  assert (valid_completion body M L (Js.Qtrunc q)) as Hvalid.
  { unfold valid_completion. rewrite Hrating. cbn [Js.truthy Js.parseInt].
    repeat (split; [done|]). split; [|done].
    apply negb_true_iff, Qeq_bool_false. intros E. rewrite E in H1.
    by apply H1. }
  rewrite (completeServiceRequest_exec io u id body db r M L (Js.Qtrunc q)) by done.
  cbn [fst snd]. eexists. split; [reflexivity|]. split.
  - rewrite rate_requests.
    destruct (mechanic_confirmed r); [rewrite settle_requests|];
      by apply update_row_lookup.
  - cbn. rewrite Hfloor in *. by split.
Qed.

Lemma in_progress_db_fits :
  service_requests Scenario.in_progress_db !! "request-1" = Some Scenario.in_progress_row
  /\ customer_id Scenario.in_progress_row = "customer-1"
  /\ status Scenario.in_progress_row = in_progress.
Proof. split; [apply in_progress_db_lookup|]. by split. Qed.

(** The mark 5.9 on the request of the scenario. *)
Lemma fractional_mark_is_cut_witness :
  exists r',
    (completeServiceRequest (Scenario.io "request-1") (Some "customer-1") "request-1"
       (mkCompleteBody (Js.Number 50) (Js.Number 100) (Js.Number 5.9) None)
       Scenario.in_progress_db).2 = Sent r'
    /\ customer_rating r' = Some 5%Z.
Proof.
  destruct in_progress_db_fits as (Hr & Hc & Hs).
  destruct (fractional_mark_is_cut (Scenario.io "request-1") "customer-1" "request-1"
              (mkCompleteBody (Js.Number 50) (Js.Number 100) (Js.Number 5.9) None)
              Scenario.in_progress_db Scenario.in_progress_row 50 100 5.9)
    as (r' & Hsent & _ & Hmark & _); try reflexivity; try assumption.
  - intros H. discriminate H.
  - intros H. discriminate H.
  - exists r'. split; [exact Hsent|exact Hmark].
Defined.

(** ** The customer's history *)

(** X28 (the history holds the caller's requests).  For an authenticated
    caller [getCustomerServiceRequests] writes nothing and answers with the
    stored requests whose customer is the caller, and with no other row;
    a request just created is in the history of the customer who created
    it. *)
Theorem history_holds_the_callers_requests (u : string) (db : Db) :
  u <> "" ->
  exists rows,
    getCustomerServiceRequests false (Some u) db = (db, Sent rows)
    /\ (forall id r,
          In (id, r) rows
          <-> service_requests db !! id = Some r /\ customer_id r = u)
    /\ (forall io body db' id r,
          createServiceRequest io (Some u) body db = (db', Sent (id, r)) ->
          exists rows',
            getCustomerServiceRequests false (Some u) db' = (db', Sent rows')
            /\ In (id, r) rows').
Proof.
  intros Hu.
  assert (forall d,
            getCustomerServiceRequests false (Some u) d
            = (d, Sent (List.filter (fun row => bool_decide (customer_id row.2 = u))
                          (map_to_list (service_requests d))))) as Hexec.
  { intros d. unfold getCustomerServiceRequests. unfold bind at 1.
    rewrite require_user_some by done. by monad_simpl. }
  assert (forall d id r,
            In (id, r)
              (List.filter (fun row => bool_decide (customer_id row.2 = u))
                 (map_to_list (service_requests d)))
            <-> service_requests d !! id = Some r /\ customer_id r = u) as Hin.
  { intros d id r. rewrite filter_In, <- list_elem_of_In, elem_of_map_to_list.
    cbn. by rewrite bool_decide_eq_true. }
  eexists. split; [apply Hexec|]. split; [apply Hin|].
  intros io body db' id r Hsent.
  eexists. split; [apply Hexec|]. apply Hin.
  destruct (createServiceRequest_sent io (Some u) body db db' id r Hsent)
    as (customer & p & [= <-] & _ & _ & _ & _ & _ & _ & _ & _ & -> & _ & Hcustomer
        & _ & _ & _ & ->).
  split; [|done]. rewrite notify_requests. db_simpl. apply lookup_insert_eq.
Qed.

Lemma history_holds_the_callers_requests_witness :
  exists rows,
    getCustomerServiceRequests false (Some "customer-1") Scenario.in_progress_db
    = (Scenario.in_progress_db, Sent rows)
    /\ In ("request-1", Scenario.in_progress_row) rows.
Proof.
  destruct (history_holds_the_callers_requests "customer-1" Scenario.in_progress_db)
    as (rows & Hanswer & Hrows & _).
  - intros H. discriminate H.
  - exists rows. split; [exact Hanswer|].
    apply Hrows. split; [apply in_progress_db_lookup|reflexivity].
Defined.

(** ** The two orders of confirmation *)

Lemma db_eq (a b : Db) :
  service_requests a = service_requests b ->
  mechanic_profiles a = mechanic_profiles b ->
  customer_vehicles a = customer_vehicles b ->
  wallet_transactions a = wallet_transactions b ->
  notifications a = notifications b ->
  a = b.
Proof. destruct a, b. cbn. by intros -> -> -> -> ->. Qed.

(** X29 (the order of the two confirmations).  On a request in progress
    that neither party has confirmed, with a labor cost that is not zero
    and no commission row yet, the customer's completion followed by the
    provider's and the provider's followed by the customer's end in the
    same request row, the same ledger, the same balance and the same
    rating; the one difference is that the customer is notified of the
    completion only when the provider confirms last. *)
Theorem confirmation_order_only_changes_the_notification (io : Io) (id : string)
    (body : CompleteBody) (db : Db) (r : ServiceRequest) (p : MechanicProfile)
    (M L : Q) (k : Z) :
  customer_id r <> "" -> mechanic_id r <> "" ->
  valid_completion body M L k -> ~ L == 0 ->
  service_requests db !! id = Some r -> status r = in_progress ->
  mechanic_confirmed r = false -> customer_confirmed r = false ->
  mechanic_profiles db !! mechanic_id r = Some p ->
  List.filter (is_commission_for id) (wallet_transactions db) = [] ->
  updateError io = false ->
  let customer := CompleteServiceRequest (Some (customer_id r)) id body in
  let provider := CompleteServiceRequestMechanic (Some (mechanic_id r)) id in
  serve [(io, customer); (io, provider)] db
  = notify
      (service_request_notification (customer_id r) "Service Completed"
         "Your service request has been completed" id)
      (serve [(io, provider); (io, customer)] db).
Proof.
  intros Hu Hm Hvalid HL Hr Hs Hmc Hcc Hp Hnone Hupd customer provider.
  subst customer provider. unfold serve. cbn [fold_left handle fst snd].
  unfold outcome_of. cbn [fst].
  set (m := mechanic_id r). set (u := customer_id r). set (t := now io).
  set (review := b_review body).
  (* the provider first *)
  rewrite (completeServiceRequestMechanic_exec io m id db r) by done.
  rewrite Hcc. cbn [andb fst].
  set (dbA1 := update_row id (mechanic_update (now io) false) db).
  rewrite (completeServiceRequest_exec io u id body dbA1
             (apply_update (mechanic_update (now io) false) r) M L k)
    by (try done; by apply update_row_lookup).
  cbn [fst mechanic_confirmed apply_update mechanic_update new_or u_mechanic_confirmed
       mechanic_id].
  fold m t review.
  set (dbA2 := update_row id (customer_update t true M L k review) dbA1).
  (* the customer first *)
  rewrite (completeServiceRequest_exec io u id body db r M L k) by done.
  rewrite Hmc. cbn [fst]. fold m t review.
  set (dbB0 := update_row id (customer_update t false M L k review) db).
  assert (ratings_of m (service_requests dbB0) <> []) as HratedB.
  { intros E.
    assert (k ∈ ratings_of m (service_requests dbB0)) as Hin.
    { apply (rated_row_counts _ id (apply_update (customer_update t false M L k review) r));
        [by apply update_row_lookup|done]. }
    rewrite E in Hin. by apply elem_of_nil in Hin. }
  rewrite (rate_rated m dbB0 HratedB).
  set (avg := rounded_average (ratings_of m (service_requests dbB0))).
  set (dbB1 := set_mechanic_profiles
                 (alter (set_rating avg) m (mechanic_profiles dbB0)) dbB0).
  assert (service_requests dbB1 !! id
          = Some (apply_update (customer_update t false M L k review) r)) as HrB.
  { subst dbB1. db_simpl. by apply update_row_lookup. }
  rewrite (completeServiceRequestMechanic_exec io m id dbB1 _ Hm HrB) by done.
  cbn [fst customer_confirmed labor_cost apply_update customer_update new_or new_or_null
       u_customer_confirmed u_labor_cost customer_id Js.truthy_num Js.or_zero andb].
  rewrite (proj2 (Qeq_bool_false L 0) HL). cbn [negb]. fold u t.
  set (dbB2 := update_row id (mechanic_update t true) dbB1).
  f_equal.
  (* the ratings are those of the same rows *)
  assert (ratings_of m (service_requests dbA2) ≡ₚ ratings_of m (service_requests dbB0))
    as Hperm.
  { subst dbA2 dbA1 dbB0. unfold update_row. db_simpl.
    rewrite alter_alter_eq, !(alter_as_insert _ _ _ r Hr).
    rewrite <- (insert_insert_eq (service_requests db) id _
                  (apply_update (customer_update t false M L k review) r)).
    apply (ratings_of_update m _ id
             (apply_update (customer_update t false M L k review) r));
      [apply lookup_insert_eq|done]. }
  assert (ratings_of m (service_requests dbA2) <> []) as HratedA.
  { intros E. rewrite E in Hperm. symmetry in Hperm.
    by apply Permutation_nil_r in Hperm. }
  (* run the two settlements and the rating of the other order *)
  rewrite (settle_runs m L id dbB2 (set_rating avg p)).
  2:{ subst dbB2 dbB1 dbB0. unfold update_row. by db_simpl. }
  2:{ subst dbB2 dbB1 dbB0. unfold update_row. db_simpl. by apply alter_lookup_eq. }
  rewrite (settle_runs m L id dbA2 p)
    by (subst dbA2 dbA1; unfold update_row; by db_simpl).
  rewrite rate_rated by (by db_simpl).
  apply db_eq.
  - subst dbB2 dbB1 dbB0 dbA2 dbA1. unfold update_row. db_simpl.
    rewrite !alter_alter_eq. apply alter_ext. by intros r0 _.
  - db_simpl. rewrite (rounded_average_perm _ _ Hperm). fold avg.
    subst dbB2 dbB1 dbB0 dbA2 dbA1. unfold update_row. db_simpl.
    rewrite !alter_alter_eq. apply alter_ext. intros p0 Hp0.
    assert (p0 = p) as -> by (subst m; congruence). reflexivity.
  - reflexivity.
  - reflexivity.
  - reflexivity.
Qed.

Lemma in_progress_db_profile :
  mechanic_profiles Scenario.in_progress_db !! "mechanic-1" = Some (Scenario.profile 0).
Proof. vm_compute. reflexivity. Qed.

Lemma in_progress_db_ledger :
  List.filter (is_commission_for "request-1") (wallet_transactions Scenario.in_progress_db)
  = [].
Proof. vm_compute. reflexivity. Qed.

(** The scenario of the specification, confirmed in the two orders. *)
Lemma confirmation_order_only_changes_the_notification_witness :
  let body := Scenario.priced (Js.Number 50) (Js.Number 100) 5 in
  let customer := CompleteServiceRequest (Some "customer-1") "request-1" body in
  let provider := CompleteServiceRequestMechanic (Some "mechanic-1") "request-1" in
  serve [(Scenario.io "request-1", customer); (Scenario.io "request-1", provider)]
    Scenario.in_progress_db
  = notify
      (service_request_notification "customer-1" "Service Completed"
         "Your service request has been completed" "request-1")
      (serve [(Scenario.io "request-1", provider); (Scenario.io "request-1", customer)]
         Scenario.in_progress_db).
Proof.
  refine (confirmation_order_only_changes_the_notification (Scenario.io "request-1")
            "request-1" (Scenario.priced (Js.Number 50) (Js.Number 100) 5)
            Scenario.in_progress_db Scenario.in_progress_row (Scenario.profile 0)
            50 100 5 _ _ _ _ in_progress_db_lookup _ _ _ in_progress_db_profile
            in_progress_db_ledger _).
  - intros H. discriminate H.
  - intros H. discriminate H.
  - repeat split; (reflexivity || lia).
  - intros H. discriminate H.
  - reflexivity.
  - reflexivity.
  - reflexivity.
  - reflexivity.
Defined.
